(** * Cardinal ticker plugin: a shallow embedding of [plugins/ticker/plugin.py]

    The plugin is a periodic market-data scheduler with a prediction
    resolver.  Python values are modelled as the code has them:
    - a Python [float] is an IEEE 754 binary64 number, the kernel's
      primitive [float]; [+], [-], [*], [abs], [<], [>] are the
      corresponding primitive operations, [/] is written out with its
      [ZeroDivisionError], truthiness of a float is [x != 0.0];
    - a [dict] is an insertion-ordered association list;
    - exceptions are an error result, and side effects (messages sent
      to channels, sleeps, quote fetches) are recorded as a trace of
      events. *)

From Stdlib Require Import ZArith List String Ascii Bool Lia Floats.
Import ListNotations.

Local Open Scope string_scope.
Local Open Scope list_scope.
Local Open Scope Z_scope.

(* ================================================================== *)
(** ** Python preliminaries *)

(** The exceptions the plugin and the libraries it calls can raise. *)
Inductive exn : Type :=
| KeyError
| TypeError
| ValueError
| ZeroDivisionError
| UnboundLocalError
| RequestException     (* requests.get: network failure *)
| AlreadyCalled        (* twisted.internet.error *)
| AlreadyCancelled.    (* twisted.internet.error *)

Inductive result (A : Type) : Type :=
| Ok (a : A)
| Raise (e : exn).
Arguments Ok {A} a.
Arguments Raise {A} e.

Definition bind {A B} (r : result A) (k : A -> result B) : result B :=
  match r with
  | Ok a => k a
  | Raise e => Raise e
  end.

Notation "'do' x <- r ; k" := (bind r (fun x => k))
  (at level 10, x pattern, r at level 100, k at level 200).

(** Truthiness of a float: [bool(x)] is [x != 0.0] (a NaN is truthy,
    both zeros are falsy). *)
Definition float_truthy (x : float) : bool := negb (PrimFloat.eqb x 0%float).

(** Truthiness of a value that is [None] or a float. *)
Definition opt_float_truthy (o : option float) : bool :=
  match o with
  | None => false
  | Some x => float_truthy x
  end.

(** Truthiness of a value that is [None] or a string. *)
Definition opt_string_truthy (o : option string) : bool :=
  match o with
  | None => false
  | Some s => negb (String.eqb s "")
  end.

(** [float(new) / float(old)]: true division raises on a zero divisor. *)
Definition py_div (x y : float) : result float :=
  if PrimFloat.eqb y 0%float then Raise ZeroDivisionError
  else Ok (PrimFloat.div x y).

(** *** Formatted text

    Messages are built by [str.format]; [light_green] and [light_red]
    come from [cardinal.util.F.C].  A message is kept as the sequence of
    its pieces: literal text, a float rendered by [{:.2f}], an integer
    rendered by [{}], and coloured sub-texts. *)
Inductive atom : Type :=
| Lit (s : string)
| Fixed2 (x : float)            (* '{:.2f}'.format(x) *)
| Int (n : Z)                   (* '{}'.format(n) *)
| NoneText.                     (* '{}'.format(None) *)

Inductive piece : Type :=
| Plain (a : atom)
| LightGreen (t : list atom)    (* F.C.light_green(t) *)
| LightRed (t : list atom).     (* F.C.light_red(t) *)

Definition text : Type := list piece.

(** [sep.join(parts)] *)
Fixpoint join (sep : text) (parts : list text) : text :=
  match parts with
  | [] => []
  | p :: rest =>
      match rest with
      | [] => p
      | _ :: _ => p ++ sep ++ join sep rest
      end
  end.

(** *** Insertion-ordered dictionaries with string keys *)
Module Dict.

Definition t (V : Type) : Type := list (string * V).

Definition empty {V} : t V := [].

(** [d.get(k)] / [d[k]] *)
Fixpoint get {V} (k : string) (d : t V) : option V :=
  match d with
  | [] => None
  | (k', v) :: rest => if String.eqb k k' then Some v else get k rest
  end.

(** [k in d] *)
Definition mem {V} (k : string) (d : t V) : bool :=
  match get k d with Some _ => true | None => false end.

(** [d[k] = v]: an existing key keeps its position, a new key goes last. *)
Fixpoint set {V} (k : string) (v : V) (d : t V) : t V :=
  match d with
  | [] => [(k, v)]
  | (k', v') :: rest =>
      if String.eqb k k' then (k', v) :: rest else (k', v') :: set k v rest
  end.

(** [del d[k]] (the caller checks that the key is there) *)
Fixpoint del {V} (k : string) (d : t V) : t V :=
  match d with
  | [] => []
  | (k', v') :: rest =>
      if String.eqb k k' then del k rest else (k', v') :: del k rest
  end.

Definition keys {V} (d : t V) : list string := map fst d.
Definition items {V} (d : t V) : list (string * V) := d.

(** [OrderedDict(pairs)] / [dict(pairs)] *)
Definition of_pairs {V} (pairs : list (string * V)) : t V :=
  fold_left (fun d kv => set (fst kv) (snd kv) d) pairs empty.

(** [d[k]] with its [KeyError] *)
Definition lookup {V} (k : string) (d : t V) : result V :=
  match get k d with
  | Some v => Ok v
  | None => Raise KeyError
  end.

End Dict.

(* ================================================================== *)
(** ** Market clock *)

(** What the code reads of [datetime.datetime.now(tz)]:
    [weekday()] (Monday is 0), [hour], [minute], [second]. *)
Record datetime : Type := mk_datetime {
  weekday : Z;
  hour : Z;
  minute : Z;
  second : Z
}.

(** [market_is_open()], on the reading [now] of [est_now()]. *)
Definition market_is_open (now : datetime) : bool :=
  let is_market_closed :=
    (weekday now >=? 5) ||
    ((hour now <? 9) || (hour now >=? 17)) ||
    ((hour now =? 9) && (minute now <? 30)) ||
    ((hour now =? 16) && (minute now >? 0)) in
  negb is_market_closed.

(** The flags [tick] computes before it sends anything. *)
Record tick_state : Type := mk_tick_state {
  is_market_open : bool;
  is_open : bool;
  is_close : bool;
  should_do_predictions : bool
}.

Definition classify (now : datetime) : tick_state :=
  let is_market_open :=
    negb ((weekday now >=? 5) ||
          ((hour now <? 9) || (hour now >=? 17)) ||
          ((hour now =? 9) && (minute now <? 30)) ||
          ((hour now =? 16) && (minute now >? 0))) in
  let is_open := (hour now =? 9) && (minute now =? 30) in
  let is_close := (hour now =? 16) && (minute now =? 0) in
  let should_do_predictions :=
    if is_market_open && (is_open || is_close) then true else false in
  mk_tick_state is_market_open is_open is_close should_do_predictions.

(** [weekday()] counts from Monday, 0, to Sunday, 6. *)
Definition is_weekday (now : datetime) : Prop := weekday now < 5.

(* ================================================================== *)
(** ** Tick scheduler: arming the timer *)

(** The locals of [wait], and the delay it hands to [reactor.callLater]. *)
Definition minutes_to_sleep (now : datetime) : Z := 15 - minute now mod 15.

Definition seconds_to_sleep (now : datetime) : Z :=
  minutes_to_sleep now * 60 - second now.

(** [reactor.callLater(minutes_to_sleep * 60, self.tick)] *)
Definition wait_delay (now : datetime) : Z := minutes_to_sleep now * 60.

(** Seconds since midnight, and the time of day [delay] seconds later
    (within the same day). *)
Definition time_of_day (now : datetime) : Z :=
  hour now * 3600 + minute now * 60 + second now.

Definition fire_time (now : datetime) (delay : Z) : Z * Z * Z :=
  let s := time_of_day now + delay in
  (s / 3600, (s mod 3600) / 60, s mod 60).

(** The number of seconds from [now] to the next quarter-hour boundary
    (:00, :15, :30, :45) strictly after it. *)
Definition seconds_until_boundary (now : datetime) : Z :=
  900 - time_of_day now mod 900.

(* ================================================================== *)
(** ** Tick scheduler: the timer handle

    [reactor.callLater] returns a [DelayedCall].  Twisted's
    [DelayedCall.cancel] raises [AlreadyCancelled] on a cancelled call,
    [AlreadyCalled] on one that has run, and cancels a pending one. *)

Inductive call_status : Type := Pending | Called | Cancelled.

Record delayed_call : Type := mk_call {
  call_delay : Z;
  call_status_of : call_status
}.

Definition cancel (c : delayed_call) : result delayed_call :=
  match call_status_of c with
  | Cancelled => Raise AlreadyCancelled
  | Called => Raise AlreadyCalled
  | Pending => Ok (mk_call (call_delay c) Cancelled)
  end.

(** The reactor's delayed calls, by handle, and the plugin's [call_id]. *)
Record scheduler : Type := mk_scheduler {
  calls : list delayed_call;
  call_id : option nat
}.

Fixpoint set_call (h : nat) (c : delayed_call) (l : list delayed_call)
  : list delayed_call :=
  match l, h with
  | [], _ => []
  | _ :: rest, O => c :: rest
  | x :: rest, S h' => x :: set_call h' c rest
  end.

Definition status_at (s : scheduler) (h : nat) : option call_status :=
  option_map call_status_of (nth_error (calls s) h).

(** [reactor.callLater(delay, self.tick)]: a new pending call, whose
    handle is the next free index. *)
Definition callLater (delay : Z) (s : scheduler) : nat * list delayed_call :=
  (List.length (calls s), calls s ++ [mk_call delay Pending]).

(** [wait]: arm the timer and remember its handle. *)
Definition wait (now : datetime) (s : scheduler) : scheduler :=
  let '(h, cs) := callLater (wait_delay now) s in
  mk_scheduler cs (Some h).

(** [__init__] ends with [self.call_id = None; self.wait()]. *)
Definition init (now : datetime) : scheduler :=
  wait now (mk_scheduler [] None).

(** [close]: cancel the outstanding timer; only [AlreadyCancelled] is
    caught (and logged). *)
Definition close (s : scheduler) : result scheduler :=
  match call_id s with
  | None => Ok s
  | Some h =>
      match nth_error (calls s) h with
      | None => Ok s
      | Some c =>
          match cancel c with
          | Ok c' => Ok (mk_scheduler (set_call h c' (calls s)) (call_id s))
          | Raise AlreadyCancelled => Ok s
          | Raise e => Raise e
          end
      end
  end.

(** The reactor runs a pending call: it marks the call as called and
    runs [tick], whose first statement is [self.wait()]. *)
Definition fire (h : nat) (now : datetime) (s : scheduler) : scheduler :=
  match nth_error (calls s) h with
  | Some c =>
      let called := mk_call (call_delay c) Called in
      wait now (mk_scheduler (set_call h called (calls s)) (call_id s))
  | None => s
  end.

(** One step of the scheduler's life: the reactor fires a pending call,
    or the bot closes the plugin. *)
Inductive step : scheduler -> scheduler -> Prop :=
| step_fire : forall s h now,
    status_at s h = Some Pending ->
    step s (fire h now s)
| step_close : forall s s',
    close s = Ok s' ->
    step s s'.

Inductive reachable : scheduler -> Prop :=
| reach_init : forall now, reachable (init now)
| reach_step : forall s s', reachable s -> step s s' -> reachable s'.

Definition no_pending (s : scheduler) : Prop :=
  forall h, status_at s h <> Some Pending.

(* ================================================================== *)
(** ** Percent deltas and colours *)

(** [float(v)] on a value that is [None] or a float. *)
Definition py_float (v : option float) : result float :=
  match v with
  | Some x => Ok x
  | None => Raise TypeError
  end.

(** [get_delta]: [float(new_value) / float(old_value) * 100 - 100] *)
Definition get_delta (new_value old_value : float) : result float :=
  do q <- py_div new_value old_value;
  Ok (PrimFloat.sub (PrimFloat.mul q 100%float) 100%float).

(** [colorize] *)
Definition colorize (percentage : float) : piece :=
  let message := [Fixed2 percentage; Lit "%"] in
  if PrimFloat.ltb 0%float percentage
  then LightGreen message
  else LightRed message.

Definition is_green (p : piece) : bool :=
  match p with LightGreen _ => true | _ => false end.

Definition is_red (p : piece) : bool :=
  match p with LightRed _ => true | _ => false end.

(* ================================================================== *)
(** ** Quote fetcher: data *)

#[local] Unset Elimination Schemes.
(** A value of the JSON body, as [r.json()] hands it over: [None], a
    bool, a number, a string, a list or a dict. *)
Inductive jvalue : Type :=
| JNull
| JBool (b : bool)
| JNum (x : float)
| JStr (s : string)
| JArray (items : list jvalue)
| JObject (fields : list (string * jvalue)).
#[local] Set Elimination Schemes.

(** [hash(v)] succeeds on [None], bools, numbers and strings; lists and
    dicts are unhashable. *)
Definition hashable (v : jvalue) : bool :=
  match v with
  | JArray _ | JObject _ => false
  | _ => true
  end.

(** The number a bool or a number compares as ([True == 1]). *)
Definition as_number (v : jvalue) : option float :=
  match v with
  | JBool b => Some (if b then 1%float else 0%float)
  | JNum x => Some x
  | _ => None
  end.

(** [a == b] on two hashable values, as a dict compares its keys
    (two objects that are not the same object). *)
Definition key_eqb (a b : jvalue) : bool :=
  match a, b with
  | JNull, JNull => true
  | JStr s, JStr t => String.eqb s t
  | _, _ =>
      match as_number a, as_number b with
      | Some x, Some y => PrimFloat.eqb x y
      | _, _ => false
      end
  end.

(** A dict keyed by hashable values, in insertion order: [d[key] = v]
    keeps the key and the place of an entry that is there. *)
Fixpoint key_set {V} (key : jvalue) (v : V) (d : list (jvalue * V))
  : list (jvalue * V) :=
  match d with
  | [] => [(key, v)]
  | (k, x) :: rest =>
      if key_eqb k key then (k, v) :: rest
      else (k, x) :: key_set key v rest
  end.

(** [d.get(key)] *)
Fixpoint key_get {V} (key : jvalue) (d : list (jvalue * V)) : option V :=
  match d with
  | [] => None
  | (k, x) :: rest => if key_eqb k key then Some x else key_get key rest
  end.

(** What [r.json()] finds: a body that is not JSON, a JSON object, or
    another JSON document (a scalar or an array). *)
Inductive body : Type :=
| NotJson
| JsonObject (fields : Dict.t jvalue)
| JsonOther.

Record response : Type := mk_response {
  status_code : Z;
  resp_body : body
}.

(** The dict [make_iex_request] returns, with keys ['symbol'], ['price'],
    ['previous close'] and ['change']. *)
Record quote : Type := mk_quote {
  q_symbol : jvalue;
  q_price : float;
  q_previous_close : float;
  q_change : float
}.

(** A stored prediction, with keys ['when'], ['base'], ['prediction']. *)
Record prediction : Type := mk_prediction {
  p_when : string;
  p_base : float;
  p_prediction : float
}.

(** [db['predictions']]: symbol -> (nick -> prediction) *)
Definition store : Type := Dict.t (Dict.t prediction).

Inductive log_level : Type := LogDebug | LogWarning | LogError | LogException.

(** What the plugin does to the outside world. *)
Inductive event : Type :=
| SendMsg (channel : string) (message : text)
| Sleep (seconds : Z)
| Fetched (symbol : string) (outcome : result (option quote))
| Logged (level : log_level) (about : string).

(** The plugin's mutable surroundings: the persisted predictions and the
    trace of what it has done so far. *)
Record world : Type := mk_world {
  db : store;
  trace : list event
}.

(** A computation that may raise, on a world it may change. *)
Definition M (A : Type) : Type := world -> result A * world.

Definition ret {A} (a : A) : M A := fun w => (Ok a, w).

Definition raise {A} (e : exn) : M A := fun w => (Raise e, w).

Definition mbind {A B} (m : M A) (k : A -> M B) : M B :=
  fun w =>
    match m w with
    | (Ok a, w') => k a w'
    | (Raise e, w') => (Raise e, w')
    end.

Notation "x <- m ;; k" := (mbind m (fun x => k))
  (at level 61, m at next level, right associativity).
Notation "m ;;; k" := (mbind m (fun _ => k))
  (at level 61, right associativity).

Definition lift {A} (r : result A) : M A := fun w => (r, w).

Definition emit (e : event) : M unit :=
  fun w => (Ok tt, mk_world (db w) (trace w ++ [e])).

(** [try: m  except Exception: h] *)
Definition try_except {A} (m : M A) (h : exn -> M A) : M A :=
  fun w =>
    match m w with
    | (Ok a, w') => (Ok a, w')
    | (Raise e, w') => h e w'
    end.

(** [for x in l: body x] *)
Fixpoint for_each {A} (l : list A) (body : A -> M unit) : M unit :=
  match l with
  | [] => ret tt
  | x :: rest => body x ;;; for_each rest body
  end.

Definition get_db : M store := fun w => (Ok (db w), w).

Definition put_db (d : store) : M unit :=
  fun w => (Ok tt, mk_world d (trace w)).

Definition sleep (seconds : Z) : M unit := emit (Sleep seconds).

Definition L (s : string) : piece := Plain (Lit s).

(** [\x02], the IRC bold marker *)
Definition bold : string := String (ascii_of_nat 2) EmptyString.

Definition upper_char (c : ascii) : ascii :=
  let n := nat_of_ascii c in
  if ((97 <=? n) && (n <=? 122))%nat then ascii_of_nat (n - 32) else c.

(** [s.upper()], on ASCII text *)
Fixpoint upper (s : string) : string :=
  match s with
  | EmptyString => EmptyString
  | String c rest => String (upper_char c) (upper rest)
  end.

(** [user_info(nick, user, vhost)] *)
Record user_info : Type := mk_user {
  u_nick : string;
  u_user : string;
  u_vhost : string
}.

(** A configured relay bot: each field may be [None]. *)
Record relay_bot : Type := mk_relay_bot {
  rb_nick : option string;
  rb_user : option string;
  rb_vhost : option string
}.

Record config : Type := mk_config {
  api_key : string;
  channels : list string;
  config_stocks : list (string * string);
  relay_bots : list relay_bot
}.

(** The [stocks] property: [OrderedDict(self.config["stocks"])] *)
Definition stocks (cfg : config) : Dict.t string :=
  Dict.of_pairs (config_stocks cfg).

Definition field_matches (expected : option string) (actual : string) : bool :=
  match expected with
  | None => true
  | Some e => String.eqb e actual
  end.

(** [is_relay_bot] *)
Definition is_relay_bot (cfg : config) (user : user_info) : bool :=
  existsb (fun bot =>
             field_matches (rb_nick bot) (u_nick user) &&
             field_matches (rb_user bot) (u_user user) &&
             field_matches (rb_vhost bot) (u_vhost user))
          (relay_bots cfg).

(** [for x in l: acc.append(f x)], collecting the results *)
Fixpoint map_M {A B} (f : A -> M B) (l : list A) : M (list B) :=
  match l with
  | [] => ret []
  | x :: rest => y <- f x ;; ys <- map_M f rest ;; ret (y :: ys)
  end.

(** The groups of a [CHECK_REGEX] match: the relayed sender, if any, and
    the symbol. *)
Record check_match : Type := mk_check_match {
  cm_relayed : option string;   (* group 1 *)
  cm_symbol : string            (* group 2 *)
}.

(** The groups of a [PREDICT_REGEX] match. *)
Record predict_match : Type := mk_predict_match {
  pm_relayed : option string;      (* group 1 *)
  pm_symbol : string;              (* group 2 *)
  pm_sign : option string;         (* group 3: "-" or "+" *)
  pm_percentage : option string;   (* group 4: a decimal numeral *)
  pm_price : option string         (* group 5: a decimal numeral *)
}.

(** Did [get_daily] hand back a quote?  It may raise, or return [None]. *)
Definition fetch_succeeded (o : result (option quote)) : bool :=
  match o with
  | Ok (Some _) => true
  | _ => false
  end.

(** The shape [db['predictions']] keeps: distinct symbols, and under
    each symbol a mapping that is not empty, with distinct nicks. *)
Definition store_ok (d : store) : Prop :=
  NoDup (Dict.keys d) /\
  forall symbol predictions,
    In (symbol, predictions) d ->
    predictions <> [] /\ NoDup (Dict.keys predictions).

Section Plugin.

(** Python's [float(s)] on a string. *)
Variable float_of_str : string -> result float.
(** [cardinal.util.strip_formatting] *)
Variable strip_formatting : string -> string.
(** [est_now().strftime('%Y-%m-%d %H:%M:%S %Z')] *)
Variable strftime : datetime -> string.
(** [requests.get] on the quote URL of a symbol: it raises on a network
    failure, and returns the response otherwise. *)
Variable requests_get : string -> result response.
(** The plugin's configuration and the reading of [est_now()]. *)
Variable cfg : config.
Variable now : datetime.

(** *** Quote fetcher *)

(** [float(v)] on a JSON value *)
Definition float_of_json (v : jvalue) : result float :=
  match v with
  | JNum x => Ok x
  | JBool b => Ok (if b then 1%float else 0%float)
  | JStr s => float_of_str s
  | JNull | JArray _ | JObject _ => Raise TypeError
  end.

(** [r.json()] *)
Definition response_json (r : response) : result body :=
  match resp_body r with
  | NotJson => Raise ValueError
  | b => Ok b
  end.

(** [data[key]] *)
Definition subscript (data : body) (key : string) : result jvalue :=
  match data with
  | JsonObject fields => Dict.lookup key fields
  | _ => Raise TypeError
  end.

(** The dict display of [make_iex_request], evaluated left to right. *)
Definition build_quote (data : body) : result quote :=
  do symbol <- subscript data "symbol";
  do price <- bind (subscript data "latestPrice") float_of_json;
  do previous_close <- bind (subscript data "previousClose") float_of_json;
  do change <- bind (subscript data "changePercent") float_of_json;
  Ok (mk_quote symbol price previous_close
               (PrimFloat.mul change 100%float)).

(** [make_iex_request]: the status code is never looked at; a
    [KeyError] is logged and swallowed, and the function then falls off
    its end, returning [None]. *)
Definition make_iex_request (symbol : string) : M (option quote) :=
  r <- lift (requests_get symbol) ;;
  data <- lift (response_json r) ;;
  match build_quote data with
  | Ok q => ret (Some q)
  | Raise KeyError => emit (Logged LogError symbol) ;;; ret None
  | Raise e => raise e
  end.

(** [get_daily]; the trace records how the call settled. *)
Definition get_daily (symbol : string) : M (option quote) :=
  fun w =>
    let '(r, w') := make_iex_request symbol w in
    (r, mk_world (db w') (trace w' ++ [Fetched symbol r])).

(** How the fetch of a symbol settles (it does not depend on the
    world it starts from, see [get_daily_outcome]). *)
Definition fetch_outcome (symbol : string) : result (option quote) :=
  fst (get_daily symbol (mk_world Dict.empty [])).

(** [data[key]] on what [get_daily] returned: [None] is not
    subscriptable. *)
Definition quote_field {A} (data : option quote) (f : quote -> A) : M A :=
  match data with
  | Some q => ret (f q)
  | None => raise TypeError
  end.

(** *** The [check] command *)
Definition check (user : user_info) (channel : string) (m : check_match)
  : M unit :=
  let relayed := opt_string_truthy (cm_relayed m) in
  if relayed && negb (is_relay_bot cfg user) then ret tt
  else
    let nick :=
      match cm_relayed m with
      | Some n => if relayed then strip_formatting n else u_nick user
      | None => u_nick user
      end in
    let symbol := upper (cm_symbol m) in
    fetched <- try_except
      (data <- get_daily symbol ;; ret (Some data))
      (fun _ =>
         emit (Logged LogWarning symbol) ;;;
         emit (SendMsg channel
                 [L nick; L ": I couldn't look that symbol up"]) ;;;
         ret None) ;;
    match fetched with
    | None => ret tt
    | Some data =>
        price <- quote_field data q_price ;;
        change <- quote_field data q_change ;;
        emit (SendMsg channel
                [L "Symbol: "; L bold; L symbol; L bold;
                 L " | Current: "; Plain (Fixed2 price);
                 L " | Daily Change: "; colorize change])
    end.

(** *** Ticker broadcaster *)

(** How one symbol's deferred settles in the [DeferredList]. *)
Inductive settled : Type :=
| Succeeded (symbol : jvalue) (change : float)
| Failed (e : exn).

(** The symbol [errback] prints: the closure reads the loop variable
    when it runs, which is after the loop has ended. *)
Definition errback_symbol : string := last (Dict.keys (stocks cfg)) "".

(** [get_daily(symbol)] followed by [errback], then [callback].  A
    failed request is logged by [errback] and stays a failure; a
    request that returned [None] fails in [callback], which subscripts
    it. *)
Definition ticker_deferred (symbol : string) : M settled :=
  r <- try_except
    (data <- get_daily symbol ;; ret (inl data))
    (fun e => emit (Logged LogError errback_symbol) ;;; ret (inr e)) ;;
  match r with
  | inr e => ret (Failed e)
  | inl (Some q) => ret (Succeeded (q_symbol q) (q_change q))
  | inl None => ret (Failed TypeError)
  end.

(** [results]: the changes, keyed by the symbol each quote carries. *)
Definition results_t : Type := list (jvalue * float).

(** One turn of the loop over [dl_results]: a failed entry is skipped;
    [results.update({symbol: change})] builds a dict with the symbol as
    its key, which raises [TypeError] on a symbol that is unhashable. *)
Definition add_result (results : results_t) (r : settled)
  : result results_t :=
  match r with
  | Succeeded symbol change =>
      if hashable symbol then Ok (key_set symbol change results)
      else Raise TypeError
  | Failed _ => Ok results
  end.

(** [for success, result in dl_results: ...] *)
Fixpoint read_results (dl_results : list settled) (results : results_t)
  : result results_t :=
  match dl_results with
  | [] => Ok results
  | r :: rest =>
      do results' <- add_result results r;
      read_results rest results'
  end.

Definition entry (name symbol : string) (change : float) : text :=
  [L name; L " ("; L bold; L symbol; L bold; L "): "; colorize change].

(** [format_symbol] *)
Definition format_symbol (symbol : string) (change : float) : result text :=
  do name <- Dict.lookup symbol (stocks cfg);
  Ok (entry name symbol change).

(** The loop of [format_ticker] over [self.stocks.items()] *)
Fixpoint message_parts (items : list (string * string))
         (results : results_t) : result (list text) :=
  match items with
  | [] => Ok []
  | (symbol, _) :: rest =>
      match key_get (JStr symbol) results with
      | Some change =>
          do part <- format_symbol symbol change;
          do parts <- message_parts rest results;
          Ok (part :: parts)
      | None => message_parts rest results
      end
  end.

(** [format_ticker] *)
Definition format_ticker (results : results_t) : result text :=
  do parts <- message_parts (Dict.items (stocks cfg)) results;
  Ok (join [L " | "] parts).

(** [send_ticker] *)
Definition send_ticker : M unit :=
  dl_results <- map_M ticker_deferred (Dict.keys (stocks cfg)) ;;
  results <- lift (read_results dl_results []) ;;
  message <- lift (format_ticker results) ;;
  for_each (channels cfg) (fun channel => emit (SendMsg channel message)).

(** *** Prediction resolver *)

Definition market_open_close : string :=
  if market_is_open now then "open" else "close".

(** The message of [send_prediction]: the arguments of [format], then
    the text. *)
Definition prediction_message (nick symbol : string) (p : prediction)
           (actual : float) : result text :=
  do d_prediction <- get_delta (p_prediction p) (p_base p);
  do d_actual <- get_delta actual (p_base p);
  Ok [L "Prediction by "; L nick; L " for "; L bold; L symbol; L bold;
      L ": "; Plain (Fixed2 (p_prediction p));
      L " ("; colorize d_prediction; L "). Actual value at ";
      L market_open_close; L ": "; Plain (Fixed2 actual);
      L " ("; colorize d_actual; L "). Prediction set at ";
      L (p_when p); L "."].

(** [send_prediction]; the message is built once per channel, inside
    the loop. *)
Definition send_prediction (nick symbol : string) (p : prediction)
           (actual : float) : M unit :=
  for_each (channels cfg) (fun channel =>
    message <- lift (prediction_message nick symbol p actual) ;;
    emit (SendMsg channel message)).

(** The locals [closest_prediction], [closest_delta], [closest_nick]. *)
Record closest : Type := mk_closest {
  closest_prediction : option float;
  closest_delta : option float;
  closest_nick : option string
}.

Definition no_closest : closest := mk_closest None None None.

(** [abs(actual - prediction['prediction'])] *)
Definition abs_delta (actual : float) (p : prediction) : float :=
  PrimFloat.abs (PrimFloat.sub actual (p_prediction p)).

(** [not closest_delta or delta < closest_delta] *)
Definition replaces (c : closest) (delta : float) : bool :=
  negb (opt_float_truthy (closest_delta c)) ||
  match closest_delta c with
  | Some d => PrimFloat.ltb delta d
  | None => false
  end.

(** The first half of the loop body: track the closest guess. *)
Definition update_closest (actual : float) (c : closest) (nick : string)
           (p : prediction) : closest :=
  let delta := abs_delta actual p in
  if replaces c delta
  then mk_closest (Some (p_prediction p)) (Some delta) (Some nick)
  else c.

(** The selection alone, as the loop performs it when nothing raises. *)
Definition closest_guess (actual : float)
           (items : list (string * prediction)) : closest :=
  fold_left (fun c np => update_closest actual c (fst np) (snd np))
            items no_closest.

(** [for nick, prediction in list(predictions.items())]: the loop
    leaves the last pair in the function's local [prediction]. *)
Fixpoint scan (symbol : string) (actual : float)
         (items : list (string * prediction)) (c : closest)
         (last_prediction : option prediction)
  : M (closest * option prediction) :=
  match items with
  | [] => ret (c, last_prediction)
  | (nick, p) :: rest =>
      let c' := update_closest actual c nick p in
      send_prediction nick symbol p actual ;;;
      scan symbol actual rest c' (Some p)
  end.

Definition nick_text (n : option string) : piece :=
  match n with
  | Some s => L s
  | None => Plain NoneText
  end.

Definition summary_text (symbol : string) (actual : float) (count : Z)
           (nick : option string) (guess d_guess d_actual : float) : text :=
  [nick_text nick; L " had the closest guess for ";
   L bold; L symbol; L bold; L " out of "; Plain (Int count);
   L " predictions with a prediction of "; Plain (Fixed2 guess);
   L " ("; colorize d_guess; L ") compared to the actual ";
   L market_open_close; L " of "; Plain (Fixed2 actual);
   L " ("; colorize d_actual; L ")."].

(** The summary message: the arguments of [format], in order, then the
    text.  [prediction] is whatever the function's local holds after
    the loop; [float(closest_prediction)] is the first thing [get_delta]
    does. *)
Definition summary_message (symbol : string) (actual : float) (count : Z)
           (c : closest) (last_prediction : option prediction) : result text :=
  do p <- match last_prediction with
          | Some p => Ok p
          | None => Raise UnboundLocalError
          end;
  do guess <- py_float (closest_prediction c);
  do d_guess <- get_delta guess (p_base p);
  do d_actual <- get_delta actual (p_base p);
  Ok (summary_text symbol actual count (closest_nick c) guess d_guess d_actual).

(** The summary is built once per channel, inside the loop. *)
Definition send_summary (symbol : string) (actual : float) (count : Z)
           (c : closest) (last_prediction : option prediction) : M unit :=
  for_each (channels cfg) (fun channel =>
    message <- lift (summary_message symbol actual count c last_prediction) ;;
    emit (SendMsg channel message)).

(** The [try] block of [do_predictions] and its handler: [Some actual]
    when the quote came, [None] when the symbol is skipped. *)
Definition fetch_actual (symbol : string) : M (option float) :=
  try_except
    (data <- get_daily symbol ;;
     actual <- quote_field data q_price ;;
     ret (Some actual))
    (fun _ =>
       emit (Logged LogException symbol) ;;;
       for_each (channels cfg) (fun channel =>
         emit (SendMsg channel
                 [L "Error with predictions for symbol "; L symbol; L "."])) ;;;
       ret None).

(** [predictions = db['predictions'][symbol]; del db['predictions'][symbol]] *)
Definition take_predictions (symbol : string) : M (Dict.t prediction) :=
  d <- get_db ;;
  predictions <- lift (Dict.lookup symbol d) ;;
  put_db (Dict.del symbol d) ;;;
  ret predictions.

(** What [do_predictions] does with a symbol once its predictions are
    taken out of the store: the loop over them, the summary, the pause.
    It hands on the function's local [prediction]. *)
Definition report (symbol : string) (actual : float)
           (predictions : Dict.t prediction)
           (last_prediction : option prediction) : M (option prediction) :=
  r <- scan symbol actual (Dict.items predictions) no_closest
            last_prediction ;;
  send_summary symbol actual (Z.of_nat (List.length predictions))
               (fst r) (snd r) ;;;
  sleep 15 ;;;
  ret (snd r).

(** The loop of [do_predictions] over [predicted_symbols]. *)
Fixpoint resolve_symbols (symbols : list string)
         (last_prediction : option prediction) : M unit :=
  match symbols with
  | [] => ret tt
  | symbol :: rest =>
      fetched <- fetch_actual symbol ;;
      match fetched with
      | None => resolve_symbols rest last_prediction
      | Some actual =>
          predictions <- take_predictions symbol ;;
          last_prediction' <- report symbol actual predictions
                                     last_prediction ;;
          resolve_symbols rest last_prediction'
      end
  end.

(** [do_predictions] *)
Definition do_predictions : M unit :=
  d <- get_db ;;
  resolve_symbols (Dict.keys d) None.

(** *** Prediction submission *)

(** [float(g) if g else None] on a match group *)
Definition group_float (g : option string) : result (option float) :=
  match g with
  | Some s =>
      if opt_string_truthy g
      then do x <- float_of_str s; Ok (Some x)
      else Ok None
  | None => Ok None
  end.

(** The literal [.01] *)
Definition one_hundredth : float := 0x1.47ae147ae147bp-7%float.

(** [parse_prediction]: [(nick, symbol, prediction, base)] or [None]. *)
Definition parse_prediction (user : user_info) (m : predict_match)
  : M (option (string * string * float * float)) :=
  let relayed := opt_string_truthy (pm_relayed m) in
  if relayed && negb (is_relay_bot cfg user) then ret None
  else
    let nick :=
      match pm_relayed m with
      | Some n => if relayed then strip_formatting n else u_nick user
      | None => u_nick user
      end in
    let symbol := upper (pm_symbol m) in
    data <- get_daily symbol ;;
    base <- (if market_is_open now
             then quote_field data q_previous_close
             else quote_field data q_price) ;;
    let negative_percentage :=
      match pm_sign m with
      | Some sign => String.eqb sign "-"
      | None => false
      end in
    percentage <- lift (group_float (pm_percentage m)) ;;
    price <- lift (group_float (pm_price m)) ;;
    let otherwise :=
      match price with
      | Some x =>
          if float_truthy x then ret (Some (nick, symbol, x, base))
          else emit (Logged LogWarning "No price or percentage") ;;; ret None
      | None =>
          emit (Logged LogWarning "No price or percentage") ;;; ret None
      end in
    match percentage with
    | Some pct =>
        if float_truthy pct then
          let prediction :=
            PrimFloat.mul (PrimFloat.mul pct one_hundredth) base in
          let prediction :=
            if negative_percentage
            then PrimFloat.sub base prediction
            else PrimFloat.add base prediction in
          ret (Some (nick, symbol, prediction, base))
        else otherwise
    | None => otherwise
    end.

(** [save_prediction] *)
Definition save_prediction (symbol nick : string) (base prediction : float)
  : M unit :=
  d <- get_db ;;
  let predictions :=
    match Dict.get symbol d with
    | Some ps => ps
    | None => Dict.empty
    end in
  let predictions :=
    Dict.set nick (mk_prediction (strftime now) base prediction) predictions in
  put_db (Dict.set symbol predictions d).

(** [get_prediction] *)
Definition get_prediction (symbol nick : string) : M prediction :=
  d <- get_db ;;
  predictions <- lift (Dict.lookup symbol d) ;;
  lift (Dict.lookup nick predictions).

(** [db['predictions'][symbol][nick]], [None] on a [KeyError] *)
Definition old_prediction (symbol nick : string) (d : store)
  : option prediction :=
  match Dict.get symbol d with
  | Some ps => Dict.get nick ps
  | None => None
  end.

(** [predict] *)
Definition predict (user : user_info) (channel : string) (m : predict_match)
  : M unit :=
  parsed <- try_except
    (p <- parse_prediction user m ;; ret (Some p))
    (fun _ =>
       emit (Logged LogWarning "Error trying to parse prediction") ;;;
       emit (SendMsg channel
               [L (u_nick user); L ": I couldn't look that symbol up"]) ;;;
       ret None) ;;
  match parsed with
  | None => ret tt
  | Some None => ret tt
  | Some (Some (nick, symbol, prediction, base)) =>
      d <- get_db ;;
      old_str <-
        match old_prediction symbol nick d with
        | None => ret []
        | Some old =>
            d_old <- lift (get_delta (p_prediction old) (p_base old)) ;;
            ret [L "(replaces old prediction of ";
                 Plain (Fixed2 (p_prediction old)); L " ("; colorize d_old;
                 L ") set at "; L (p_when old); L ")"]
        end ;;
      save_prediction symbol nick base prediction ;;;
      d_new <- lift (get_delta prediction base) ;;
      emit (SendMsg channel
              ([L "Prediction by "; L nick; L " for "; L bold; L symbol;
                L bold; L " at market ";
                L (if market_is_open now then "close" else "open"); L ": ";
                Plain (Fixed2 prediction); L " ("; colorize d_new; L ") "]
               ++ old_str))
  end.

(* ------------------------------------------------------------------ *)
(** *** Facts about the clock *)

(** [tick] repeats the test of [market_is_open]. *)
Lemma classify_market_is_open : forall t,
  is_market_open (classify t) = market_is_open t.
Proof. reflexivity. Qed.

(* ------------------------------------------------------------------ *)
(** *** Facts about dictionaries *)

Lemma get_set_same : forall V k (v : V) d,
  Dict.get k (Dict.set k v d) = Some v.
Proof.
  induction d as [|[k' v'] d IH]; simpl.
  - now rewrite String.eqb_refl.
  - destruct (String.eqb k k') eqn:E; simpl; rewrite E; [reflexivity|exact IH].
Qed.

Lemma get_set_other : forall V k k' (v : V) d,
  k <> k' -> Dict.get k (Dict.set k' v d) = Dict.get k d.
Proof.
  intros V k k' v d Hne.
  induction d as [|[k0 v0] d IH]; simpl.
  - apply String.eqb_neq in Hne. now rewrite Hne.
  - destruct (String.eqb k' k0) eqn:E; simpl.
    + apply String.eqb_eq in E; subst k0.
      apply String.eqb_neq in Hne. now rewrite Hne.
    + now rewrite IH.
Qed.

Lemma get_del_same : forall V k (d : Dict.t V),
  Dict.get k (Dict.del k d) = None.
Proof.
  induction d as [|[k' v'] d IH]; simpl; [reflexivity|].
  destruct (String.eqb k k') eqn:E; simpl; [exact IH|]. now rewrite E.
Qed.

Lemma get_del_other : forall V k k' (d : Dict.t V),
  k <> k' -> Dict.get k (Dict.del k' d) = Dict.get k d.
Proof.
  intros V k k' d Hne.
  induction d as [|[k0 v0] d IH]; simpl; [reflexivity|].
  destruct (String.eqb k' k0) eqn:E; simpl.
  - apply String.eqb_eq in E; subst k0.
    apply String.eqb_neq in Hne. now rewrite Hne.
  - now rewrite IH.
Qed.

Lemma get_del_none : forall V k k' (d : Dict.t V),
  Dict.get k d = None -> Dict.get k (Dict.del k' d) = None.
Proof.
  intros V k k' d H. destruct (string_dec k k') as [->|Hne].
  - apply get_del_same.
  - now rewrite get_del_other.
Qed.

Lemma get_none_not_key : forall V k (d : Dict.t V),
  Dict.get k d = None <-> ~ In k (Dict.keys d).
Proof.
  induction d as [|[k' v'] d IH]; simpl.
  - split; [intros _ []|reflexivity].
  - destruct (String.eqb k k') eqn:E.
    + apply String.eqb_eq in E. subst. split; [discriminate|].
      intro H. exfalso. apply H. now left.
    + apply String.eqb_neq in E. rewrite IH. split.
      * intros H [H1|H1]; [congruence|exact (H H1)].
      * intros H H1. apply H. now right.
Qed.

Lemma keys_set : forall V k (v : V) d,
  Dict.keys (Dict.set k v d) =
  if Dict.mem k d then Dict.keys d else Dict.keys d ++ [k].
Proof.
  unfold Dict.mem. induction d as [|[k' v'] d IH]; simpl; [reflexivity|].
  destruct (String.eqb k k') eqn:E; simpl; [reflexivity|].
  rewrite IH. now destruct (Dict.get k d).
Qed.

Lemma nodup_keys_set : forall V k (v : V) d,
  NoDup (Dict.keys d) -> NoDup (Dict.keys (Dict.set k v d)).
Proof.
  intros V k v d H. rewrite keys_set. unfold Dict.mem.
  destruct (Dict.get k d) eqn:E; [exact H|].
  apply get_none_not_key in E.
  apply NoDup_rev in H. rewrite <- (rev_involutive (Dict.keys d ++ [k])).
  apply NoDup_rev. rewrite rev_app_distr. simpl. constructor; [|exact H].
  now rewrite <- in_rev.
Qed.

Lemma nodup_keys_of_pairs : forall V (pairs : list (string * V)),
  NoDup (Dict.keys (Dict.of_pairs pairs)).
Proof.
  intros V pairs. unfold Dict.of_pairs.
  assert (G : forall d, NoDup (Dict.keys d) ->
    NoDup (Dict.keys (fold_left (fun d kv => Dict.set (fst kv) (snd kv) d)
                                pairs d))).
  { induction pairs as [|[k v] pairs IH]; intros d Hd; simpl; [exact Hd|].
    apply IH. now apply nodup_keys_set. }
  apply G. constructor.
Qed.

Lemma get_of_item : forall V k (v : V) d,
  NoDup (Dict.keys d) -> In (k, v) (Dict.items d) -> Dict.get k d = Some v.
Proof.
  induction d as [|[k' v'] d IH]; simpl; intros Hnd Hin; [destruct Hin|].
  inversion Hnd as [|? ? Hnotin Hnd']; subst.
  destruct Hin as [Heq|Hin].
  - inversion Heq; subst. now rewrite String.eqb_refl.
  - destruct (String.eqb k k') eqn:E.
    + apply String.eqb_eq in E; subst k'.
      exfalso. apply Hnotin. apply (in_map fst) in Hin. exact Hin.
    + now apply IH.
Qed.

(** Without repeated symbols in the configuration, [stocks] lists the
    symbols as configured. *)
Lemma of_pairs_nodup : forall V (pairs : list (string * V)),
  NoDup (map fst pairs) -> Dict.of_pairs pairs = pairs.
Proof.
  intros V pairs. unfold Dict.of_pairs.
  assert (G : forall d,
    NoDup (Dict.keys d ++ map fst pairs) ->
    fold_left (fun d kv => Dict.set (fst kv) (snd kv) d) pairs d = d ++ pairs).
  { induction pairs as [|[k v] pairs IH]; intros d Hd; simpl.
    - now rewrite app_nil_r.
    - simpl in Hd.
      assert (Hset : Dict.set k v d = d ++ [(k, v)]).
      { apply NoDup_remove_2 in Hd.
        clear IH. induction d as [|[k0 v0] d IHd]; simpl; [reflexivity|].
        destruct (String.eqb k k0) eqn:E.
        - apply String.eqb_eq in E; subst. exfalso. apply Hd. now left.
        - rewrite IHd; [reflexivity|]. intro H. apply Hd. now right. }
      rewrite Hset, IH.
      + now rewrite <- app_assoc.
      + unfold Dict.keys. rewrite map_app. simpl.
        rewrite <- app_assoc. exact Hd. }
  intro H. now rewrite (G Dict.empty H).
Qed.

(* ------------------------------------------------------------------ *)
(** *** Facts about computations *)

Definition is_log (e : event) : Prop :=
  match e with Logged _ _ => True | _ => False end.

Definition not_fetch (e : event) : Prop :=
  match e with Fetched _ _ => False | _ => True end.

Definition not_send (e : event) : Prop :=
  match e with SendMsg _ _ => False | _ => True end.

(** [appends P m]: whatever [m] returns or raises, it leaves the store
    as it is and adds to the trace only events that satisfy [P]. *)
Definition appends (P : event -> Prop) {A} (m : M A) : Prop :=
  forall w, exists evs,
    db (snd (m w)) = db w /\ trace (snd (m w)) = trace w ++ evs /\ Forall P evs.

Lemma appends_ret : forall P A (a : A), appends P (ret a).
Proof.
  intros P A a w. exists []. simpl. now rewrite app_nil_r.
Qed.

Lemma appends_lift : forall P A (r : result A), appends P (lift r).
Proof.
  intros P A r w. exists []. simpl. now rewrite app_nil_r.
Qed.

Lemma appends_raise : forall P A e, appends P (@raise A e).
Proof.
  intros P A e w. exists []. simpl. now rewrite app_nil_r.
Qed.

Lemma appends_emit : forall (P : event -> Prop) e, P e -> appends P (emit e).
Proof.
  intros P e He w. exists [e]. simpl. repeat split. now constructor.
Qed.

Lemma appends_bind : forall P A B (m : M A) (k : A -> M B),
  appends P m -> (forall a, appends P (k a)) -> appends P (mbind m k).
Proof.
  intros P A B m k Hm Hk w. unfold mbind.
  destruct (Hm w) as (evs & Hdb & Htr & Hall).
  destruct (m w) as [[a|e] w1]; simpl in *.
  - destruct (Hk a w1) as (evs' & Hdb' & Htr' & Hall').
    exists (evs ++ evs'). repeat split.
    + congruence.
    + rewrite Htr', Htr. now rewrite app_assoc.
    + now apply Forall_app.
  - now exists evs.
Qed.

Lemma appends_try_except : forall P A (m : M A) (h : exn -> M A),
  appends P m -> (forall e, appends P (h e)) -> appends P (try_except m h).
Proof.
  intros P A m h Hm Hh w. unfold try_except.
  destruct (Hm w) as (evs & Hdb & Htr & Hall).
  destruct (m w) as [[a|e] w1]; simpl in *.
  - now exists evs.
  - destruct (Hh e w1) as (evs' & Hdb' & Htr' & Hall').
    exists (evs ++ evs'). repeat split.
    + congruence.
    + rewrite Htr', Htr. now rewrite app_assoc.
    + now apply Forall_app.
Qed.

Lemma appends_for_each : forall P A (l : list A) (body : A -> M unit),
  (forall x, appends P (body x)) -> appends P (for_each l body).
Proof.
  intros P A l body Hb. induction l as [|x l IH]; simpl.
  - apply appends_ret.
  - apply appends_bind; [apply Hb|]. intros _. exact IH.
Qed.

(** Sending one text to every channel never raises. *)
Lemma for_each_send : forall chs message w,
  for_each chs (fun channel => emit (SendMsg channel message)) w =
  (Ok tt,
   mk_world (db w)
            (trace w ++ map (fun channel => SendMsg channel message) chs)).
Proof.
  induction chs as [|ch chs IH]; intros message w; simpl.
  - unfold ret. rewrite app_nil_r. now destruct w.
  - unfold mbind.
    change (emit (SendMsg ch message) w)
      with (Ok tt, mk_world (db w) (trace w ++ [SendMsg ch message])).
    cbv iota beta. rewrite IH. simpl. now rewrite <- app_assoc.
Qed.

(* ------------------------------------------------------------------ *)
(** *** Facts about the quote fetcher *)

(** The events of one fetch. *)
Definition fetch_events (symbol : string) : list event :=
  trace (snd (get_daily symbol (mk_world Dict.empty []))).

Lemma get_daily_outcome : forall symbol w,
  get_daily symbol w =
  (fetch_outcome symbol, mk_world (db w) (trace w ++ fetch_events symbol)).
Proof.
  intros symbol w.
  unfold fetch_events, fetch_outcome, get_daily, make_iex_request,
    mbind, lift, ret, raise, emit.
  destruct (requests_get symbol) as [r|e]; simpl; [|reflexivity].
  destruct (response_json r) as [data|e]; simpl; [|reflexivity].
  destruct (build_quote data) as [q|[]]; simpl;
    try reflexivity; now rewrite <- app_assoc.
Qed.

Lemma fetch_events_shape : forall symbol,
  exists logs,
    fetch_events symbol = logs ++ [Fetched symbol (fetch_outcome symbol)] /\
    Forall is_log logs.
Proof.
  intro symbol.
  unfold fetch_events, fetch_outcome, get_daily, make_iex_request,
    mbind, lift, ret, raise, emit.
  destruct (requests_get symbol) as [r|e]; simpl;
    [|exists []; now split].
  destruct (response_json r) as [data|e]; simpl;
    [|exists []; now split].
  destruct (build_quote data) as [q|[]]; simpl;
    try (exists []; now split).
  exists [Logged LogError symbol]. split; [reflexivity|].
  constructor; [exact I|constructor].
Qed.

Lemma fetched_in_fetch_events : forall symbol s o,
  In (Fetched s o) (fetch_events symbol) ->
  s = symbol /\ o = fetch_outcome symbol.
Proof.
  intros symbol s o Hin.
  destruct (fetch_events_shape symbol) as (logs & Hshape & Hlogs).
  rewrite Hshape in Hin. apply in_app_or in Hin. destruct Hin as [Hin|[Heq|[]]].
  - rewrite Forall_forall in Hlogs. now destruct (Hlogs _ Hin).
  - inversion Heq. now split.
Qed.

Lemma fetch_events_not_send : forall symbol,
  Forall not_send (fetch_events symbol).
Proof.
  intro symbol.
  destruct (fetch_events_shape symbol) as (logs & -> & Hlogs).
  apply Forall_app. split.
  - eapply Forall_impl; [|exact Hlogs]. now intros [].
  - constructor; [exact I|constructor].
Qed.

(* ------------------------------------------------------------------ *)
(** *** Facts about the resolver *)

(** The actual price [do_predictions] works with, if the fetch gave one. *)
Definition actual_of (o : result (option quote)) : option float :=
  match o with
  | Ok (Some q) => Some (q_price q)
  | _ => None
  end.

Lemma actual_of_succeeded : forall o,
  fetch_succeeded o = match actual_of o with Some _ => true | None => false end.
Proof. now intros [[q|]|e]. Qed.

Lemma fetch_actual_spec : forall symbol w,
  exists evs,
    fetch_actual symbol w =
    (Ok (actual_of (fetch_outcome symbol)),
     mk_world (db w) (trace w ++ evs)) /\
    In (Fetched symbol (fetch_outcome symbol)) evs /\
    (forall s o, In (Fetched s o) evs ->
                 s = symbol /\ o = fetch_outcome symbol).
Proof.
  intros symbol w.
  assert (Hin : In (Fetched symbol (fetch_outcome symbol))
                   (fetch_events symbol)).
  { destruct (fetch_events_shape symbol) as (logs & -> & _).
    apply in_or_app. right. now left. }
  assert (Hskip : forall chs s o,
    In (Fetched s o)
       (fetch_events symbol ++ Logged LogException symbol ::
        map (fun channel =>
               SendMsg channel
                 [L "Error with predictions for symbol "; L symbol; L "."])
            chs) ->
    s = symbol /\ o = fetch_outcome symbol).
  { intros chs s o H. apply in_app_or in H. destruct H as [H|[H|H]].
    - now apply fetched_in_fetch_events.
    - discriminate.
    - apply in_map_iff in H. destruct H as (ch & Hch & _). discriminate. }
  unfold fetch_actual, try_except, mbind.
  rewrite get_daily_outcome.
  destruct (fetch_outcome symbol) as [[q|]|e] eqn:Ho; simpl.
  - exists (fetch_events symbol). repeat split.
    + exact Hin.
    + now apply fetched_in_fetch_events in H.
    + apply fetched_in_fetch_events in H. destruct H as [_ ->]. exact Ho.
  - rewrite for_each_send. simpl.
    eexists. split; [rewrite <- !app_assoc; reflexivity|]. split.
    + apply in_or_app. now left.
    + intros s o H. exact (Hskip _ s o H).
  - rewrite for_each_send. simpl.
    eexists. split; [rewrite <- !app_assoc; reflexivity|]. split.
    + apply in_or_app. now left.
    + intros s o H. exact (Hskip _ s o H).
Qed.

Lemma take_predictions_spec : forall symbol w,
  take_predictions symbol w =
  match Dict.get symbol (db w) with
  | Some predictions =>
      (Ok predictions, mk_world (Dict.del symbol (db w)) (trace w))
  | None => (Raise KeyError, w)
  end.
Proof.
  intros symbol w. unfold take_predictions, mbind, get_db, lift, Dict.lookup.
  now destruct (Dict.get symbol (db w)).
Qed.

(** The pieces of the resolver that neither fetch nor touch the store. *)
Ltac appends_step :=
  first [ apply appends_ret
        | apply appends_lift
        | apply appends_raise
        | apply appends_emit; exact I
        | apply appends_for_each; intro
        | apply appends_bind; [|intro] ].

Lemma send_prediction_appends : forall nick symbol p actual,
  appends not_fetch (send_prediction nick symbol p actual).
Proof. intros. unfold send_prediction. repeat appends_step. Qed.

Lemma scan_appends : forall symbol actual items c last_prediction,
  appends not_fetch (scan symbol actual items c last_prediction).
Proof.
  intros symbol actual items.
  induction items as [|[nick p] items IH]; intros c last_prediction; simpl.
  - appends_step.
  - apply appends_bind; [apply send_prediction_appends|]. intros _. apply IH.
Qed.

Lemma send_summary_appends : forall symbol actual count c last_prediction,
  appends not_fetch (send_summary symbol actual count c last_prediction).
Proof. intros. unfold send_summary. repeat appends_step. Qed.

Lemma report_appends : forall symbol actual predictions last_prediction,
  appends not_fetch (report symbol actual predictions last_prediction).
Proof.
  intros. unfold report.
  apply appends_bind; [apply scan_appends|]. intro r.
  apply appends_bind; [apply send_summary_appends|]. intros _.
  unfold sleep. repeat appends_step.
Qed.

Lemma not_fetch_not_in : forall evs s o,
  Forall not_fetch evs -> ~ In (Fetched s o) evs.
Proof.
  intros evs s o Hall Hin. rewrite Forall_forall in Hall.
  exact (Hall _ Hin).
Qed.

(** What the loop over the symbols does to the store, fetch by fetch. *)
Lemma resolve_symbols_store : forall symbols last_prediction w,
  exists evs,
    trace (snd (resolve_symbols symbols last_prediction w)) = trace w ++ evs /\
    (forall s o, In (Fetched s o) evs ->
       o = fetch_outcome s /\ In s symbols /\
       (fetch_succeeded o = true ->
        Dict.get s (db (snd (resolve_symbols symbols last_prediction w)))
        = None)) /\
    (forall s, fetch_succeeded (fetch_outcome s) = false ->
       Dict.get s (db (snd (resolve_symbols symbols last_prediction w))) =
       Dict.get s (db w)) /\
    (forall s, Dict.get s (db w) = None ->
       Dict.get s (db (snd (resolve_symbols symbols last_prediction w)))
       = None) /\
    (fst (resolve_symbols symbols last_prediction w) = Ok tt ->
     forall s, In s symbols -> In (Fetched s (fetch_outcome s)) evs).
Proof.
  induction symbols as [|symbol rest IH]; intros last_prediction w.
  - exists []. simpl. rewrite app_nil_r.
    split; [reflexivity|]. split; [intros s o []|].
    split; [reflexivity|]. split; [intros s H; exact H|]. intros _ s [].
  - destruct (fetch_actual_spec symbol w) as (evs1 & Hfa & Hin1 & Honly1).
    pose proof (actual_of_succeeded (fetch_outcome symbol)) as Hsucc.
    destruct (actual_of (fetch_outcome symbol)) as [actual|].
    + (* the quote came: the predictions are taken out of the store *)
      destruct (Dict.get symbol (db w)) as [predictions|] eqn:Hget.
      * destruct (report_appends symbol actual predictions last_prediction
                    (mk_world (Dict.del symbol (db w)) (trace w ++ evs1)))
          as (evs2 & Hdb2 & Htr2 & Hall2).
        destruct (report symbol actual predictions last_prediction
                    (mk_world (Dict.del symbol (db w)) (trace w ++ evs1)))
          as [[last_prediction'|e] w2] eqn:Hrep; simpl in Hdb2, Htr2.
        -- assert (E : resolve_symbols (symbol :: rest) last_prediction w =
                       resolve_symbols rest last_prediction' w2).
           { simpl. unfold mbind. rewrite Hfa. cbv beta iota.
             rewrite take_predictions_spec. cbn [db trace]. rewrite Hget.
             cbv beta iota. now rewrite Hrep. }
           rewrite E.
           destruct (IH last_prediction' w2)
             as (evs3 & Htr3 & Hf3 & Hkeep3 & Hnone3 & Hall3).
           exists (evs1 ++ evs2 ++ evs3).
           split; [|split; [|split; [|split]]].
           ++ rewrite Htr3, Htr2. now rewrite <- !app_assoc.
           ++ intros s o H.
              apply in_app_or in H. destruct H as [H|H].
              { apply Honly1 in H. destruct H as [-> ->].
                split; [reflexivity|]. split; [now left|]. intros _.
                apply Hnone3. rewrite Hdb2. apply get_del_same. }
              apply in_app_or in H. destruct H as [H|H];
                [now apply not_fetch_not_in in H|].
              destruct (Hf3 s o H) as (Ho & Hs & Hgone).
              split; [exact Ho|]. split; [now right|exact Hgone].
           ++ intros s Hs. rewrite (Hkeep3 s Hs), Hdb2.
              apply get_del_other. intros ->. congruence.
           ++ intros s Hs. apply Hnone3. rewrite Hdb2. now apply get_del_none.
           ++ intros Hok s [<-|Hs].
              ** apply in_or_app. now left.
              ** apply in_or_app. right. apply in_or_app. right.
                 now apply Hall3.
        -- assert (E : resolve_symbols (symbol :: rest) last_prediction w =
                       (Raise e, w2)).
           { simpl. unfold mbind. rewrite Hfa. cbv beta iota.
             rewrite take_predictions_spec. cbn [db trace]. rewrite Hget.
             cbv beta iota. now rewrite Hrep. }
           rewrite E. exists (evs1 ++ evs2). simpl.
           split; [|split; [|split; [|split]]].
           ++ rewrite Htr2. now rewrite <- app_assoc.
           ++ intros s o H.
              apply in_app_or in H. destruct H as [H|H];
                [|now apply not_fetch_not_in in H].
              apply Honly1 in H. destruct H as [-> ->].
              split; [reflexivity|]. split; [now left|]. intros _.
              rewrite Hdb2. apply get_del_same.
           ++ intros s Hs. rewrite Hdb2.
              apply get_del_other. intros ->. congruence.
           ++ intros s Hs. rewrite Hdb2. now apply get_del_none.
           ++ discriminate.
      * assert (E : resolve_symbols (symbol :: rest) last_prediction w =
                    (Raise KeyError, mk_world (db w) (trace w ++ evs1))).
        { simpl. unfold mbind. rewrite Hfa. cbv beta iota.
          rewrite take_predictions_spec. cbn [db trace]. now rewrite Hget. }
        rewrite E. exists evs1. simpl.
        split; [reflexivity|]. split; [|split; [|split]].
        -- intros s o H. apply Honly1 in H. destruct H as [-> ->].
           split; [reflexivity|]. split; [now left|]. intros _. exact Hget.
        -- reflexivity.
        -- intros s H. exact H.
        -- discriminate.
    + (* the fetch failed: the symbol is skipped *)
      assert (E : resolve_symbols (symbol :: rest) last_prediction w =
                  resolve_symbols rest last_prediction
                                  (mk_world (db w) (trace w ++ evs1))).
      { simpl. unfold mbind. now rewrite Hfa. }
      rewrite E.
      destruct (IH last_prediction (mk_world (db w) (trace w ++ evs1)))
        as (evs3 & Htr3 & Hf3 & Hkeep3 & Hnone3 & Hall3).
      simpl in Htr3, Hkeep3, Hnone3.
      exists (evs1 ++ evs3).
      split; [|split; [|split; [|split]]].
      * rewrite Htr3. now rewrite <- app_assoc.
      * intros s o H. apply in_app_or in H. destruct H as [H|H].
        -- apply Honly1 in H. destruct H as [-> ->].
           split; [reflexivity|]. split; [now left|]. congruence.
        -- destruct (Hf3 s o H) as (Ho & Hs & Hgone).
           split; [exact Ho|]. split; [now right|exact Hgone].
      * exact Hkeep3.
      * exact Hnone3.
      * intros Hok s [<-|Hs].
        -- apply in_or_app. now left.
        -- apply in_or_app. right. now apply Hall3.
Qed.

(** C2: after a resolution round on the store [d], for every symbol that
    had predictions: whenever the round fetched its quote and the fetch
    failed, the symbol's entry in the store is what it was before the
    round; whenever the fetch succeeded, the store holds no entry for the
    symbol; and a round that runs to its end has fetched the quote of
    every such symbol. *)
Theorem do_predictions_store : forall d symbol,
  In symbol (Dict.keys d) ->
  (forall o,
     In (Fetched symbol o) (trace (snd (do_predictions (mk_world d [])))) ->
     o = fetch_outcome symbol /\
     (fetch_succeeded o = false ->
      Dict.get symbol (db (snd (do_predictions (mk_world d [])))) =
      Dict.get symbol d) /\
     (fetch_succeeded o = true ->
      Dict.get symbol (db (snd (do_predictions (mk_world d [])))) = None)) /\
  (fst (do_predictions (mk_world d [])) = Ok tt ->
   In (Fetched symbol (fetch_outcome symbol))
      (trace (snd (do_predictions (mk_world d []))))).
Proof.
  intros d symbol Hkey.
  unfold do_predictions, mbind, get_db. simpl.
  destruct (resolve_symbols_store (Dict.keys d) None (mk_world d []))
    as (evs & Htr & Hf & Hkeep & _ & Hall).
  simpl in Htr. rewrite Htr. split.
  - intros o Hin. destruct (Hf symbol o Hin) as (-> & _ & Hgone).
    repeat split.
    + intro Hfail. now rewrite (Hkeep symbol Hfail).
    + exact Hgone.
  - intro Hok. now apply Hall.
Qed.

(* ------------------------------------------------------------------ *)
(** *** Facts about the broadcaster *)

(** How the deferred of a symbol settles, as a function of its fetch. *)
Definition settle (symbol : string) : settled :=
  match fetch_outcome symbol with
  | Ok (Some q) => Succeeded (q_symbol q) (q_change q)
  | Ok None => Failed TypeError
  | Raise e => Failed e
  end.

(** The percent change of a symbol whose fetch succeeded. *)
Definition quote_change (symbol : string) : float :=
  match fetch_outcome symbol with
  | Ok (Some q) => q_change q
  | _ => 0%float
  end.

(** The configured symbols whose fetch succeeded, in configured order. *)
Definition fetched_stocks : list (string * string) :=
  filter (fun item => fetch_succeeded (fetch_outcome (fst item)))
         (Dict.items (stocks cfg)).

(** The digest: one entry per such symbol, joined by [" | "]. *)
Definition digest : text :=
  join [L " | "]
       (map (fun item => entry (snd item) (fst item) (quote_change (fst item)))
            fetched_stocks).

(** The quote of each configured symbol names the symbol it was asked for. *)
Definition echoes_symbol : Prop :=
  forall symbol q,
    In symbol (Dict.keys (stocks cfg)) ->
    fetch_outcome symbol = Ok (Some q) -> q_symbol q = JStr symbol.

Lemma ticker_deferred_spec : forall symbol w,
  exists evs,
    ticker_deferred symbol w =
    (Ok (settle symbol), mk_world (db w) (trace w ++ evs)) /\
    Forall not_send evs.
Proof.
  intros symbol w. unfold ticker_deferred, try_except, mbind, settle.
  rewrite get_daily_outcome.
  pose proof (fetch_events_not_send symbol) as Hns.
  destruct (fetch_outcome symbol) as [[q|]|e]; simpl.
  - now exists (fetch_events symbol).
  - now exists (fetch_events symbol).
  - exists (fetch_events symbol ++ [Logged LogError errback_symbol]).
    split; [now rewrite <- app_assoc|].
    apply Forall_app. split; [exact Hns|]. constructor; [exact I|constructor].
Qed.

Lemma map_ticker_deferred : forall symbols w,
  exists evs,
    map_M ticker_deferred symbols w =
    (Ok (map settle symbols), mk_world (db w) (trace w ++ evs)) /\
    Forall not_send evs.
Proof.
  induction symbols as [|symbol rest IH]; intro w; simpl.
  - exists []. unfold ret. rewrite app_nil_r. now destruct w.
  - unfold mbind at 1.
    destruct (ticker_deferred_spec symbol w) as (evs1 & -> & H1).
    unfold mbind at 1.
    destruct (IH (mk_world (db w) (trace w ++ evs1))) as (evs2 & -> & H2).
    exists (evs1 ++ evs2). simpl. split.
    + unfold ret. now rewrite <- app_assoc.
    + now apply Forall_app.
Qed.

(** A string key equals only itself. *)
Lemma key_eqb_str_r : forall a s, key_eqb a (JStr s) = true <-> a = JStr s.
Proof.
  intros a s. split.
  - destruct a; simpl; try discriminate; try (destruct b; discriminate).
    intro H. apply String.eqb_eq in H. now subst.
  - intros ->. simpl. apply String.eqb_refl.
Qed.

Lemma key_eqb_str_l : forall a s, key_eqb (JStr s) a = true <-> a = JStr s.
Proof.
  intros a s. split.
  - destruct a; simpl; try discriminate.
    intro H. apply String.eqb_eq in H. now subst.
  - intros ->. simpl. apply String.eqb_refl.
Qed.

Lemma key_get_set_str : forall V key (v : V) d s,
  key_get (JStr s) (key_set key v d) =
  if key_eqb key (JStr s) then Some v else key_get (JStr s) d.
Proof.
  intros V key v d s. induction d as [|[k x] d IH]; simpl.
  - reflexivity.
  - destruct (key_eqb k key) eqn:Ekk; simpl.
    + destruct (key_eqb k (JStr s)) eqn:Eks.
      * apply key_eqb_str_r in Eks. subst k.
        apply key_eqb_str_l in Ekk. subst key.
        simpl. now rewrite String.eqb_refl.
      * destruct (key_eqb key (JStr s)) eqn:E; [|reflexivity].
        apply key_eqb_str_r in E. subst key.
        apply key_eqb_str_r in Ekk. subst k.
        simpl in Eks. now rewrite String.eqb_refl in Eks.
    + rewrite IH.
      destruct (key_eqb k (JStr s)) eqn:Eks; [|reflexivity].
      apply key_eqb_str_r in Eks. subst k.
      destruct (key_eqb key (JStr s)) eqn:E; [|reflexivity].
      apply key_eqb_str_r in E. subst key.
      simpl in Ekk. now rewrite String.eqb_refl in Ekk.
Qed.

(** What [results] holds for a key once the settled deferreds are read. *)
Lemma get_results : forall symbols acc,
  (forall symbol q, In symbol symbols ->
     fetch_outcome symbol = Ok (Some q) -> q_symbol q = JStr symbol) ->
  exists results,
    read_results (map settle symbols) acc = Ok results /\
    forall k,
      key_get (JStr k) results =
      if existsb (String.eqb k) symbols && fetch_succeeded (fetch_outcome k)
      then Some (quote_change k)
      else key_get (JStr k) acc.
Proof.
  induction symbols as [|symbol rest IH]; intros acc Hecho; simpl.
  - now exists acc.
  - assert (Hstep : exists acc',
      add_result acc (settle symbol) = Ok acc' /\
      forall k,
        key_get (JStr k) acc' =
        if String.eqb k symbol && fetch_succeeded (fetch_outcome k)
        then Some (quote_change k) else key_get (JStr k) acc).
    { unfold settle.
      destruct (fetch_outcome symbol) as [[q|]|e] eqn:Ho; simpl.
      - rewrite (Hecho symbol q (or_introl eq_refl) Ho). simpl.
        eexists. split; [reflexivity|]. intro k.
        rewrite key_get_set_str. simpl. rewrite (String.eqb_sym symbol k).
        destruct (String.eqb k symbol) eqn:E; [|reflexivity].
        apply String.eqb_eq in E. subst k.
        unfold quote_change. now rewrite Ho.
      - exists acc. split; [reflexivity|]. intro k.
        destruct (String.eqb k symbol) eqn:E; [|reflexivity].
        apply String.eqb_eq in E. subst k. now rewrite Ho.
      - exists acc. split; [reflexivity|]. intro k.
        destruct (String.eqb k symbol) eqn:E; [|reflexivity].
        apply String.eqb_eq in E. subst k. now rewrite Ho. }
    destruct Hstep as (acc' & -> & Hacc'). simpl.
    destruct (IH acc') as (results & -> & Hres);
      [intros s q Hs; apply Hecho; now right|].
    exists results. split; [reflexivity|]. intro k.
    rewrite Hres, Hacc'.
    destruct (String.eqb k symbol); simpl;
      destruct (existsb (String.eqb k) rest); simpl;
      destruct (fetch_succeeded (fetch_outcome k)); reflexivity.
Qed.

Lemma existsb_eqb_in : forall k l,
  In k l -> existsb (String.eqb k) l = true.
Proof.
  intros k l H. apply existsb_exists. exists k. split; [exact H|].
  apply String.eqb_refl.
Qed.

Lemma message_parts_spec : forall results items,
  (forall symbol name, In (symbol, name) items ->
     Dict.get symbol (stocks cfg) = Some name) ->
  (forall symbol name, In (symbol, name) items ->
     key_get (JStr symbol) results =
     if fetch_succeeded (fetch_outcome symbol)
     then Some (quote_change symbol) else None) ->
  message_parts items results =
  Ok (map (fun item => entry (snd item) (fst item) (quote_change (fst item)))
          (filter (fun item => fetch_succeeded (fetch_outcome (fst item)))
                  items)).
Proof.
  intros results items.
  induction items as [|[symbol name] rest IH]; intros Hname Hres; simpl.
  - reflexivity.
  - rewrite (Hres symbol name (or_introl eq_refl)).
    rewrite IH.
    + destruct (fetch_succeeded (fetch_outcome symbol)); simpl; [|reflexivity].
      unfold format_symbol, Dict.lookup.
      now rewrite (Hname symbol name (or_introl eq_refl)).
    + intros s n H. apply (Hname s n). now right.
    + intros s n H. apply (Hres s n). now right.
Qed.

(** C5: provided the quote of each configured symbol names that symbol,
    a broadcast never raises; what it sends, to every channel, is the
    digest of exactly the configured symbols whose fetch succeeded, in
    configured order; and nothing else is sent (a failed symbol leaves
    no message). *)
Theorem send_ticker_digest : forall w,
  echoes_symbol ->
  exists evs,
    send_ticker w =
    (Ok tt,
     mk_world (db w)
              (trace w ++ evs ++
               map (fun channel => SendMsg channel digest) (channels cfg))) /\
    Forall not_send evs.
Proof.
  intros w Hecho. unfold send_ticker, mbind.
  destruct (map_ticker_deferred (Dict.keys (stocks cfg)) w) as (evs & -> & Hns).
  destruct (get_results (Dict.keys (stocks cfg)) [] Hecho)
    as (results & Hread & Hget).
  assert (Hparts : format_ticker results = Ok digest).
  { unfold format_ticker, digest, fetched_stocks.
    rewrite message_parts_spec; [reflexivity| |].
    - intros symbol name Hin.
      apply get_of_item; [apply nodup_keys_of_pairs|exact Hin].
    - intros symbol name Hin.
      rewrite Hget, existsb_eqb_in.
      + simpl. now destruct (fetch_succeeded (fetch_outcome symbol)).
      + apply (in_map fst) in Hin. exact Hin. }
  unfold lift. rewrite Hread, Hparts. rewrite for_each_send. simpl.
  exists evs. split; [now rewrite <- app_assoc|exact Hns].
Qed.

(** Without repeated symbols in the configuration, the configured order
    is the order of the list in the configuration. *)
Lemma stocks_as_configured :
  NoDup (map fst (config_stocks cfg)) ->
  Dict.items (stocks cfg) = config_stocks cfg.
Proof. intro H. unfold stocks, Dict.items. now apply of_pairs_nodup. Qed.

(** Formatting never raises, whatever [results] holds. *)
Lemma message_parts_ok : forall results items,
  (forall symbol name, In (symbol, name) items ->
     Dict.get symbol (stocks cfg) = Some name) ->
  exists parts, message_parts items results = Ok parts.
Proof.
  intros results items.
  induction items as [|[symbol name] rest IH]; intros Hname; simpl.
  - now exists [].
  - destruct IH as (parts & ->); [intros s n H; apply Hname; now right|].
    destruct (key_get (JStr symbol) results) as [change|];
      [|now exists parts].
    unfold format_symbol, Dict.lookup.
    rewrite (Hname symbol name (or_introl eq_refl)). simpl.
    now eexists.
Qed.

Lemma format_ticker_ok : forall results,
  exists message, format_ticker results = Ok message.
Proof.
  intro results. unfold format_ticker.
  destruct (message_parts_ok results (Dict.items (stocks cfg)))
    as (parts & ->).
  - intros symbol name Hin.
    apply get_of_item; [apply nodup_keys_of_pairs|exact Hin].
  - simpl. now eexists.
Qed.

(* ------------------------------------------------------------------ *)
(** *** Facts about the loop over a symbol's predictions *)

Lemma for_each_lift_send : forall chs (r : result text) w,
  for_each chs (fun channel =>
                  message <- lift r ;; emit (SendMsg channel message)) w =
  match r, chs with
  | Ok message, _ =>
      (Ok tt,
       mk_world (db w)
                (trace w ++ map (fun channel => SendMsg channel message) chs))
  | Raise _, [] => (Ok tt, w)
  | Raise e, _ :: _ => (Raise e, w)
  end.
Proof.
  intros chs [message|e].
  - induction chs as [|ch chs IH]; intro w; simpl.
    + unfold ret. rewrite app_nil_r. now destruct w.
    + unfold mbind at 1. unfold mbind at 1. unfold lift at 1.
      change (emit (SendMsg ch message) w)
        with (Ok tt, mk_world (db w) (trace w ++ [SendMsg ch message])).
      cbv beta iota. rewrite IH. simpl. now rewrite <- app_assoc.
  - intro w. destruct chs as [|ch chs]; reflexivity.
Qed.

(** The loop hands on the closest guess of [closest_guess] (continued
    from the state it started with) and its last pair. *)
Lemma scan_result : forall symbol actual items c last_prediction w r w',
  scan symbol actual items c last_prediction w = (Ok r, w') ->
  fst r = fold_left (fun c np => update_closest actual c (fst np) (snd np))
                    items c /\
  snd r = fold_left (fun _ np => Some (snd np)) items last_prediction.
Proof.
  intros symbol actual items.
  induction items as [|[nick p] rest IH];
    intros c last_prediction w r w' H; simpl in H.
  - inversion H; subst. now split.
  - unfold mbind in H.
    destruct (send_prediction nick symbol p actual w) as [[[]|e] w1];
      [|discriminate].
    simpl. exact (IH _ _ _ _ _ H).
Qed.

(** C10: when the report on a symbol runs to its end, the summary sent
    to each channel shows two percent deltas, of the closest prediction
    and of the actual price, and both are taken against the base price
    of the pair iterated last from the snapshot. *)
Theorem summary_uses_last_base :
  forall symbol actual predictions items nick p last_prediction w r w',
    Dict.items predictions = items ++ [(nick, p)] ->
    channels cfg <> [] ->
    report symbol actual predictions last_prediction w = (Ok r, w') ->
    exists guess d_guess d_actual w1,
      closest_prediction (closest_guess actual (Dict.items predictions))
        = Some guess /\
      get_delta guess (p_base p) = Ok d_guess /\
      get_delta actual (p_base p) = Ok d_actual /\
      fst (scan symbol actual (Dict.items predictions) no_closest
                last_prediction w)
        = Ok (closest_guess actual (Dict.items predictions), Some p) /\
      snd (scan symbol actual (Dict.items predictions) no_closest
                last_prediction w) = w1 /\
      trace w' =
      trace w1 ++
      map (fun channel =>
             SendMsg channel
               (summary_text symbol actual
                  (Z.of_nat (List.length predictions))
                  (closest_nick (closest_guess actual (Dict.items predictions)))
                  guess d_guess d_actual))
          (channels cfg) ++
      [Sleep 15].
Proof.
  intros symbol actual predictions items nick p last_prediction w r w'
         Hitems Hch H.
  unfold report in H. unfold mbind at 1 in H.
  destruct (scan symbol actual (Dict.items predictions) no_closest
                 last_prediction w) as [[[c last]|e] w1] eqn:Hscan;
    [|discriminate].
  destruct (scan_result _ _ _ _ _ _ _ _ Hscan) as [Hc Hlast].
  cbn [fst snd] in Hc, Hlast.
  assert (Hlast' : last = Some p).
  { rewrite Hlast, Hitems, fold_left_app. reflexivity. }
  change (c = closest_guess actual (Dict.items predictions)) in Hc.
  clear Hlast. subst c last. cbn [fst snd] in H.
  unfold mbind at 1 in H. unfold send_summary in H.
  rewrite for_each_lift_send in H.
  destruct (summary_message symbol actual
              (Z.of_nat (List.length predictions))
              (closest_guess actual (Dict.items predictions)) (Some p))
    as [message|e] eqn:Hmsg.
  - unfold summary_message in Hmsg. cbn [bind] in Hmsg.
    destruct (closest_prediction
                (closest_guess actual (Dict.items predictions)))
      as [guess|] eqn:Hguess; [|discriminate].
    cbn [py_float bind] in Hmsg.
    destruct (get_delta guess (p_base p)) as [d_guess|] eqn:Hd1;
      [|discriminate].
    cbn [bind] in Hmsg.
    destruct (get_delta actual (p_base p)) as [d_actual|] eqn:Hd2;
      [|discriminate].
    cbn [bind] in Hmsg. inversion Hmsg; subst message.
    unfold sleep, mbind, emit, ret in H. cbn [db trace] in H.
    inversion H; subst r w'. cbn [trace fst snd].
    exists guess, d_guess, d_actual, w1.
    split; [reflexivity|]. split; [exact Hd1|]. split; [reflexivity|].
    split; [reflexivity|]. split; [reflexivity|].
    now rewrite <- app_assoc.
  - destruct (channels cfg) as [|ch chs]; [now destruct Hch|discriminate].
Qed.

(** An exact guess does not keep the lead: once [closest_delta] is
    zero, [not closest_delta] holds and any later prediction replaces
    the leader. *)
Lemma exact_guess_is_replaced : forall c d delta,
  closest_delta c = Some d ->
  float_truthy d = false ->
  replaces c delta = true.
Proof.
  intros c d delta Hc Hd. unfold replaces. rewrite Hc. simpl. now rewrite Hd.
Qed.

(** While the leader's delta is not zero, a later prediction replaces
    it exactly when its delta is strictly smaller. *)
Lemma inexact_guess_is_replaced_by_smaller : forall c d delta,
  closest_delta c = Some d ->
  float_truthy d = true ->
  replaces c delta = PrimFloat.ltb delta d.
Proof.
  intros c d delta Hc Hd. unfold replaces. rewrite Hc. simpl. now rewrite Hd.
Qed.

(* ------------------------------------------------------------------ *)
(** *** Facts about the failure modes of a fetch *)

Lemma fetch_outcome_unfold : forall symbol,
  fetch_outcome symbol =
  match requests_get symbol with
  | Raise e => Raise e
  | Ok r =>
      match response_json r with
      | Raise e => Raise e
      | Ok data =>
          match build_quote data with
          | Ok q => Ok (Some q)
          | Raise KeyError => Ok None
          | Raise e => Raise e
          end
      end
  end.
Proof.
  intro symbol.
  unfold fetch_outcome, get_daily, make_iex_request, mbind, lift, ret, raise,
    emit.
  destruct (requests_get symbol) as [r|e]; simpl; [|reflexivity].
  destruct (response_json r) as [data|e]; simpl; [|reflexivity].
  now destruct (build_quote data) as [q|[]].
Qed.

(** A network failure is raised to the caller. *)
Lemma fetch_network_failure : forall symbol e,
  requests_get symbol = Raise e -> fetch_outcome symbol = Raise e.
Proof.
  intros symbol e H. now rewrite fetch_outcome_unfold, H.
Qed.

(** A body that is not JSON is raised to the caller, whatever the
    status code. *)
Lemma fetch_not_json : forall symbol status,
  requests_get symbol = Ok (mk_response status NotJson) ->
  fetch_outcome symbol = Raise ValueError.
Proof.
  intros symbol status H. now rewrite fetch_outcome_unfold, H.
Qed.

(** A JSON object without the field ['symbol'] is not raised: the call
    returns [None], whatever the status code. *)
Lemma fetch_missing_field : forall symbol status fields,
  requests_get symbol = Ok (mk_response status (JsonObject fields)) ->
  Dict.get "symbol" fields = None ->
  fetch_outcome symbol = Ok None.
Proof.
  intros symbol status fields H Hmiss.
  rewrite fetch_outcome_unfold, H. simpl.
  unfold build_quote, subscript, Dict.lookup. now rewrite Hmiss.
Qed.

(** [check] handles a fetch that raises ... *)
Lemma check_reports_raised_fetch : forall user channel m w e,
  cm_relayed m = None ->
  fetch_outcome (upper (cm_symbol m)) = Raise e ->
  check user channel m w =
  (Ok tt,
   mk_world (db w)
            (trace w ++ fetch_events (upper (cm_symbol m)) ++
             [Logged LogWarning (upper (cm_symbol m));
              SendMsg channel
                [L (u_nick user); L ": I couldn't look that symbol up"]])).
Proof.
  intros user channel m w e Hrel Ho.
  unfold check. rewrite Hrel. simpl.
  unfold try_except, mbind. rewrite get_daily_outcome, Ho. simpl.
  now rewrite <- !app_assoc.
Qed.

(** ... but not one that returns [None]: subscripting it raises
    [TypeError] out of [check]. *)
Lemma check_raises_on_none : forall user channel m w,
  cm_relayed m = None ->
  fetch_outcome (upper (cm_symbol m)) = Ok None ->
  check user channel m w =
  (Raise TypeError,
   mk_world (db w) (trace w ++ fetch_events (upper (cm_symbol m)))).
Proof.
  intros user channel m w Hrel Ho.
  unfold check. rewrite Hrel. simpl.
  unfold try_except, mbind. rewrite get_daily_outcome, Ho. reflexivity.
Qed.

(* ------------------------------------------------------------------ *)
(** *** Facts about percentage predictions *)

(** The price [parse_prediction] computes from a percentage. *)
Definition percentage_price (negative : bool) (pct base : float) : float :=
  let prediction := PrimFloat.mul (PrimFloat.mul pct one_hundredth) base in
  if negative then PrimFloat.sub base prediction
  else PrimFloat.add base prediction.

Definition base_price (q : quote) : float :=
  if market_is_open now then q_previous_close q else q_price q.

Definition is_negative (sign : option string) : bool :=
  match sign with
  | Some s => String.eqb s "-"
  | None => false
  end.

Lemma base_of_quote : forall q w,
  (if market_is_open now
   then quote_field (Some q) q_previous_close
   else quote_field (Some q) q_price) w = (Ok (base_price q), w).
Proof.
  intros q w. unfold base_price. now destruct (market_is_open now).
Qed.

(** Up to the test of the percentage, [parse_prediction] on a message
    that is not relayed, carries a percentage and finds a quote. *)
Ltac parse_percentage Hrel Ho Hpct Htext Hprice Hfloat :=
  unfold parse_prediction; rewrite Hrel; simpl;
  unfold mbind at 1; rewrite get_daily_outcome, Ho;
  unfold mbind at 1; rewrite base_of_quote;
  unfold mbind, lift, group_float; rewrite Hpct, Hprice; simpl;
  apply String.eqb_neq in Htext; rewrite Htext; simpl;
  rewrite Hfloat; simpl.

(** A percentage that is not zero gives [base +- percentage * .01 * base]. *)
Lemma parse_prediction_percentage : forall user m w q text pct,
  pm_relayed m = None ->
  fetch_outcome (upper (pm_symbol m)) = Ok (Some q) ->
  pm_percentage m = Some text -> text <> "" ->
  pm_price m = None ->
  float_of_str text = Ok pct ->
  float_truthy pct = true ->
  fst (parse_prediction user m w) =
  Ok (Some (u_nick user, upper (pm_symbol m),
            percentage_price (is_negative (pm_sign m)) pct (base_price q),
            base_price q)).
Proof.
  intros user m w q text pct Hrel Ho Hpct Htext Hprice Hfloat Htruthy.
  parse_percentage Hrel Ho Hpct Htext Hprice Hfloat.
  now rewrite Htruthy.
Qed.

(** A percentage of zero gives no prediction at all: the call returns
    [None]. *)
Lemma parse_prediction_zero : forall user m w q text pct,
  pm_relayed m = None ->
  fetch_outcome (upper (pm_symbol m)) = Ok (Some q) ->
  pm_percentage m = Some text -> text <> "" ->
  pm_price m = None ->
  float_of_str text = Ok pct ->
  float_truthy pct = false ->
  fst (parse_prediction user m w) = Ok None.
Proof.
  intros user m w q text pct Hrel Ho Hpct Htext Hprice Hfloat Htruthy.
  parse_percentage Hrel Ho Hpct Htext Hprice Hfloat.
  now rewrite Htruthy.
Qed.

(* ------------------------------------------------------------------ *)
(** *** Further facts about the quote fetcher *)

(** X6: whatever the status code of the response, a JSON object that
    carries the four fields, the three prices as numbers, is turned
    into a quote: the symbol as sent, the two prices, and the percent
    change multiplied by 100; nothing is logged. *)
Theorem fetch_well_formed_body :
  forall symbol status fields echoed price previous_close change w,
    requests_get symbol = Ok (mk_response status (JsonObject fields)) ->
    Dict.get "symbol" fields = Some echoed ->
    Dict.get "latestPrice" fields = Some (JNum price) ->
    Dict.get "previousClose" fields = Some (JNum previous_close) ->
    Dict.get "changePercent" fields = Some (JNum change) ->
    get_daily symbol w =
    (Ok (Some (mk_quote echoed price previous_close
                        (PrimFloat.mul change 100%float))),
     mk_world (db w)
       (trace w ++
        [Fetched symbol
           (Ok (Some (mk_quote echoed price previous_close
                               (PrimFloat.mul change 100%float))))])).
Proof.
  intros symbol status fields echoed price previous_close change w
         Hreq Hs Hp Hc Hch.
  unfold get_daily, make_iex_request, mbind, lift. rewrite Hreq. simpl.
  unfold build_quote, subscript, Dict.lookup.
  rewrite Hs, Hp, Hc, Hch. reflexivity.
Qed.

(** The keys [make_iex_request] reads, in the order it reads them. *)
Definition price_keys : list string :=
  ["latestPrice"; "previousClose"; "changePercent"].

Definition number_if_present (fields : Dict.t jvalue) (key : string) : Prop :=
  match Dict.get key fields with
  | Some (JNum _) | None => True
  | Some _ => False
  end.

Definition number_or_null (fields : Dict.t jvalue) (key : string) : Prop :=
  match Dict.get key fields with
  | Some (JNum _) | Some JNull => True
  | _ => False
  end.

(** X7: when the body is a JSON object in which one of the four fields is
    missing, and the prices that are there are numbers, the fetch does
    not raise: it returns [None], after logging an error. *)
Theorem fetch_missing_any_field : forall symbol status fields missing,
  requests_get symbol = Ok (mk_response status (JsonObject fields)) ->
  (forall key, In key price_keys -> number_if_present fields key) ->
  In missing ("symbol" :: price_keys) ->
  Dict.get missing fields = None ->
  fetch_outcome symbol = Ok None /\
  fetch_events symbol = [Logged LogError symbol; Fetched symbol (Ok None)].
Proof.
  intros symbol status fields missing Hreq Hnum Hin Hmiss.
  pose proof (Hnum "latestPrice" (or_introl eq_refl)) as H1.
  pose proof (Hnum "previousClose" (or_intror (or_introl eq_refl))) as H2.
  pose proof (Hnum "changePercent"
                (or_intror (or_intror (or_introl eq_refl)))) as H3.
  unfold number_if_present in H1, H2, H3.
  unfold fetch_events, fetch_outcome, get_daily, make_iex_request,
    mbind, lift. rewrite Hreq. simpl.
  unfold build_quote, subscript, Dict.lookup.
  destruct Hin as [<-|[<-|[<-|[<-|[]]]]]; rewrite ?Hmiss in *;
    destruct (Dict.get "symbol" fields) as [v0|]; simpl;
    try (split; reflexivity);
    destruct (Dict.get "latestPrice" fields) as [[]|]; simpl;
    try (split; reflexivity); try contradiction; try discriminate;
    destruct (Dict.get "previousClose" fields) as [[]|]; simpl;
    try (split; reflexivity); try contradiction; try discriminate;
    destruct (Dict.get "changePercent" fields) as [[]|]; simpl;
    try (split; reflexivity); try contradiction; try discriminate.
Qed.

(** X8: when the four fields are there and a price is [null] (the others
    being numbers or [null]), the fetch raises [TypeError] to its
    caller. *)
Theorem fetch_null_price_raises : forall symbol status fields echoed null,
  requests_get symbol = Ok (mk_response status (JsonObject fields)) ->
  Dict.get "symbol" fields = Some echoed ->
  (forall key, In key price_keys -> number_or_null fields key) ->
  In null price_keys ->
  Dict.get null fields = Some JNull ->
  fetch_outcome symbol = Raise TypeError.
Proof.
  intros symbol status fields echoed null Hreq Hs Hnum Hin Hnull.
  pose proof (Hnum "latestPrice" (or_introl eq_refl)) as H1.
  pose proof (Hnum "previousClose" (or_intror (or_introl eq_refl))) as H2.
  pose proof (Hnum "changePercent"
                (or_intror (or_intror (or_introl eq_refl)))) as H3.
  unfold number_or_null in H1, H2, H3.
  rewrite fetch_outcome_unfold, Hreq. simpl.
  unfold build_quote, subscript, Dict.lookup. rewrite Hs. simpl.
  destruct Hin as [<-|[<-|[<-|[]]]]; rewrite ?Hnull in *; simpl;
    try reflexivity;
    destruct (Dict.get "latestPrice" fields) as [[]|]; simpl;
    try reflexivity; try contradiction; try discriminate;
    destruct (Dict.get "previousClose" fields) as [[]|]; simpl;
    try reflexivity; try contradiction; try discriminate.
Qed.

(* ------------------------------------------------------------------ *)
(** *** Further facts about the commands *)

Lemma upper_char_idempotent : forall c,
  upper_char (upper_char c) = upper_char c.
Proof.
  intros [[] [] [] [] [] [] [] []]; reflexivity.
Qed.

Lemma upper_idempotent : forall s, upper (upper s) = upper s.
Proof.
  induction s as [|c s IH]; simpl; [reflexivity|].
  now rewrite upper_char_idempotent, IH.
Qed.

(** A command carries a relayed sender when group 1 is there and not
    empty; it is dropped when the user who sent it is no relay bot. *)
Definition dropped (user : user_info) (relayed : option string) : bool :=
  opt_string_truthy relayed && negb (is_relay_bot cfg user).

(** The nick a command is answered to. *)
Definition asking_nick (user : user_info) (relayed : option string) : string :=
  match relayed with
  | Some name =>
      if opt_string_truthy relayed then strip_formatting name
      else u_nick user
  | None => u_nick user
  end.

(** X9: a command that names a relayed sender and comes from a user who
    is no configured relay bot is ignored: [check] and [predict] return
    without a fetch, a message or a change of the store. *)
Theorem stranger_relay_is_ignored : forall user channel name w,
  name <> "" ->
  is_relay_bot cfg user = false ->
  (forall symbol,
     check user channel (mk_check_match (Some name) symbol) w = (Ok tt, w)) /\
  (forall symbol sign percentage price,
     predict user channel
       (mk_predict_match (Some name) symbol sign percentage price) w
     = (Ok tt, w)).
Proof.
  intros user channel name w Hname Hbot.
  apply String.eqb_neq in Hname.
  split.
  - intro symbol. unfold check. simpl. now rewrite Hname, Hbot.
  - intros symbol sign percentage price.
    unfold predict, try_except, mbind, parse_prediction. simpl.
    now rewrite Hname, Hbot.
Qed.

(** X10: the symbol of a command is read in upper case: a command gives
    the same result whether its symbol is written in lower, mixed or
    upper case. *)
Theorem commands_ignore_case :
  forall user channel relayed symbol sign percentage price w,
    check user channel (mk_check_match relayed (upper symbol)) w =
    check user channel (mk_check_match relayed symbol) w /\
    predict user channel
      (mk_predict_match relayed (upper symbol) sign percentage price) w =
    predict user channel
      (mk_predict_match relayed symbol sign percentage price) w.
Proof.
  intros. unfold check, predict, parse_prediction. simpl.
  now rewrite upper_idempotent.
Qed.

(** X11: a [check] that is not dropped answers on the channel it was
    asked on: when the fetch raises, with the message that the symbol
    could not be looked up, addressed to the asking nick; when the fetch
    gives a quote, with the symbol in upper case, the latest price and
    the coloured percent change.  Either way it is the only message, and
    the store is left alone. *)
Theorem check_answers : forall user channel m w,
  dropped user (cm_relayed m) = false ->
  (forall e, fetch_outcome (upper (cm_symbol m)) = Raise e ->
     check user channel m w =
     (Ok tt,
      mk_world (db w)
        (trace w ++ fetch_events (upper (cm_symbol m)) ++
         [Logged LogWarning (upper (cm_symbol m));
          SendMsg channel
            [L (asking_nick user (cm_relayed m));
             L ": I couldn't look that symbol up"]]))) /\
  (forall q, fetch_outcome (upper (cm_symbol m)) = Ok (Some q) ->
     check user channel m w =
     (Ok tt,
      mk_world (db w)
        (trace w ++ fetch_events (upper (cm_symbol m)) ++
         [SendMsg channel
            [L "Symbol: "; L bold; L (upper (cm_symbol m)); L bold;
             L " | Current: "; Plain (Fixed2 (q_price q));
             L " | Daily Change: "; colorize (q_change q)]]))).
Proof.
  intros user channel m w Hdrop. unfold dropped in Hdrop.
  split.
  - intros e Ho. unfold check. rewrite Hdrop.
    unfold try_except, mbind. rewrite get_daily_outcome, Ho. simpl.
    unfold asking_nick. now rewrite <- !app_assoc.
  - intros q Ho. unfold check. rewrite Hdrop.
    unfold try_except, mbind. rewrite get_daily_outcome, Ho. simpl.
    unfold emit. simpl. now rewrite <- !app_assoc.
Qed.

(** X12: a [predict] that is not dropped and whose fetch fails, by an
    exception or by returning [None], does not raise: it logs a warning,
    tells the user who sent the message that the symbol could not be
    looked up, and leaves the store alone. *)
Theorem predict_handles_failed_fetch : forall user channel m w,
  dropped user (pm_relayed m) = false ->
  fetch_succeeded (fetch_outcome (upper (pm_symbol m))) = false ->
  predict user channel m w =
  (Ok tt,
   mk_world (db w)
     (trace w ++ fetch_events (upper (pm_symbol m)) ++
      [Logged LogWarning "Error trying to parse prediction";
       SendMsg channel
         [L (u_nick user); L ": I couldn't look that symbol up"]])).
Proof.
  intros user channel m w Hdrop Hfail. unfold dropped in Hdrop.
  unfold predict, try_except. unfold mbind at 1. unfold mbind at 1.
  unfold parse_prediction. rewrite Hdrop.
  unfold mbind at 1. rewrite get_daily_outcome.
  destruct (fetch_outcome (upper (pm_symbol m))) as [[q|]|e];
    [discriminate| |].
  - unfold mbind at 1.
    destruct (market_is_open now); simpl; now rewrite <- !app_assoc.
  - simpl. now rewrite <- !app_assoc.
Qed.

(* ------------------------------------------------------------------ *)
(** *** Further facts about dictionaries *)


Lemma in_set : forall V k0 (v0 : V) d k v,
  In (k, v) (Dict.set k0 v0 d) -> (k = k0 /\ v = v0) \/ In (k, v) d.
Proof.
  induction d as [|[k' v'] d IH]; simpl; intros k v Hin.
  - destruct Hin as [Heq|[]]. inversion Heq. now left.
  - destruct (String.eqb k0 k') eqn:E.
    + apply String.eqb_eq in E. subst k'.
      destruct Hin as [Heq|Hin]; [inversion Heq; now left|].
      right. now right.
    + destruct Hin as [Heq|Hin]; [right; now left|].
      destruct (IH k v Hin) as [H|H]; [now left|right; now right].
Qed.

Lemma get_in : forall V k (v : V) d,
  Dict.get k d = Some v -> In (k, v) d.
Proof.
  induction d as [|[k' v'] d IH]; simpl; intro H; [discriminate|].
  destruct (String.eqb k k') eqn:E.
  - apply String.eqb_eq in E. inversion H; subst. now left.
  - right. now apply IH.
Qed.

Lemma del_filter : forall V k (d : Dict.t V),
  Dict.del k d = filter (fun kv => negb (String.eqb k (fst kv))) d.
Proof.
  induction d as [|[k' v'] d IH]; simpl; [reflexivity|].
  destruct (String.eqb k k'); simpl; now rewrite IH.
Qed.

Lemma set_not_empty : forall V k (v : V) d, Dict.set k v d <> [].
Proof.
  intros V k v [|[k' v'] d]; simpl; [discriminate|].
  destruct (String.eqb k k'); discriminate.
Qed.

Lemma nodup_keys_filter : forall V (f : string * V -> bool) (d : Dict.t V),
  NoDup (Dict.keys d) -> NoDup (Dict.keys (filter f d)).
Proof.
  intros V f d. unfold Dict.keys.
  induction d as [|kv d IH]; simpl; intro H; [constructor|].
  inversion H as [|? ? Hnotin Hnd]; subst.
  destruct (f kv); simpl; [|now apply IH].
  constructor; [|now apply IH].
  intro Hin. apply Hnotin. apply in_map_iff in Hin.
  destruct Hin as (x & Hx & Hin). apply filter_In in Hin.
  apply in_map_iff. exists x. split; [exact Hx|apply Hin].
Qed.

Lemma store_ok_filter : forall (f : string * Dict.t prediction -> bool) d,
  store_ok d -> store_ok (filter f d).
Proof.
  intros f d [Hnd Hin]. split.
  - now apply nodup_keys_filter.
  - intros symbol predictions H. apply filter_In in H.
    apply (Hin symbol). apply H.
Qed.

(* ------------------------------------------------------------------ *)
(** *** Further facts about the prediction store *)

(** The record [save_prediction] writes. *)
Definition saved (base guess : float) : prediction :=
  mk_prediction (strftime now) base guess.

(** The predictions already stored for a symbol, or the empty dict. *)
Definition predictions_of (symbol : string) (d : store) : Dict.t prediction :=
  match Dict.get symbol d with
  | Some predictions => predictions
  | None => Dict.empty
  end.

Lemma save_prediction_spec : forall symbol nick base prediction w,
  save_prediction symbol nick base prediction w =
  (Ok tt,
   mk_world
     (Dict.set symbol
        (Dict.set nick (saved base prediction) (predictions_of symbol (db w)))
        (db w))
     (trace w)).
Proof. reflexivity. Qed.

Lemma get_prediction_spec : forall symbol nick w,
  get_prediction symbol nick w =
  (match Dict.get nick (predictions_of symbol (db w)) with
   | Some p => Ok p
   | None => Raise KeyError
   end, w).
Proof.
  intros symbol nick w.
  unfold get_prediction, mbind, get_db, lift, Dict.lookup, predictions_of.
  destruct (Dict.get symbol (db w)) as [predictions|]; [|reflexivity].
  now destruct (Dict.get nick predictions).
Qed.

(** X13: [save_prediction] never raises and touches nothing but the
    store; afterwards [get_prediction] for the same symbol and nick
    returns the record just saved, and for any other symbol or nick it
    returns (or raises) what it did before. *)
Theorem save_then_get_prediction : forall symbol nick base prediction w,
  fst (save_prediction symbol nick base prediction w) = Ok tt /\
  trace (snd (save_prediction symbol nick base prediction w)) = trace w /\
  fst (get_prediction symbol nick
         (snd (save_prediction symbol nick base prediction w)))
    = Ok (saved base prediction) /\
  (forall symbol' nick',
     symbol' <> symbol \/ nick' <> nick ->
     fst (get_prediction symbol' nick'
            (snd (save_prediction symbol nick base prediction w)))
     = fst (get_prediction symbol' nick' w)).
Proof.
  intros symbol nick base prediction w.
  rewrite save_prediction_spec. cbn [fst snd trace].
  split; [reflexivity|]. split; [reflexivity|]. split.
  - rewrite get_prediction_spec. cbn [fst db]. unfold predictions_of at 1.
    now rewrite !get_set_same.
  - intros symbol' nick' Hne. rewrite !get_prediction_spec. cbn [fst db].
    unfold predictions_of at 1.
    destruct (string_dec symbol' symbol) as [->|Hs].
    + rewrite get_set_same.
      destruct Hne as [Hne|Hne]; [congruence|].
      now rewrite get_set_other.
    + now rewrite get_set_other.
Qed.


Lemma save_prediction_store_ok : forall symbol nick base prediction w,
  store_ok (db w) ->
  store_ok (db (snd (save_prediction symbol nick base prediction w))).
Proof.
  intros symbol nick base prediction w [Hnd Hin].
  rewrite save_prediction_spec. cbn [snd db]. split.
  - now apply nodup_keys_set.
  - intros s ps H. apply in_set in H. destruct H as [[-> ->]|H].
    + split; [apply set_not_empty|]. apply nodup_keys_set.
      unfold predictions_of.
      destruct (Dict.get symbol (db w)) as [old|] eqn:Hget; [|constructor].
      apply get_in in Hget. now apply (Hin symbol old).
    + now apply (Hin s).
Qed.

(* ------------------------------------------------------------------ *)
(** *** Further facts about submissions *)

Definition anything (e : event) : Prop := True.

Lemma get_daily_appends : forall symbol, appends anything (get_daily symbol).
Proof.
  intros symbol w. exists (fetch_events symbol).
  rewrite get_daily_outcome. simpl. repeat split.
  apply Forall_forall. intros e _. exact I.
Qed.

Lemma quote_field_appends : forall A data (f : quote -> A),
  appends anything (quote_field data f).
Proof.
  intros A [q|] f; [apply appends_ret|apply appends_raise].
Qed.

Lemma parse_prediction_appends : forall user m,
  appends anything (parse_prediction user m).
Proof.
  intros user m. unfold parse_prediction.
  destruct (opt_string_truthy (pm_relayed m) && negb (is_relay_bot cfg user));
    [apply appends_ret|].
  apply appends_bind; [apply get_daily_appends|]. intro data.
  apply appends_bind.
  { destruct (market_is_open now); apply quote_field_appends. }
  intro base.
  apply appends_bind; [apply appends_lift|]. intro percentage.
  apply appends_bind; [apply appends_lift|]. intro price.
  assert (Hotherwise : forall nick symbol,
    appends anything
      (match price with
       | Some x =>
           if float_truthy x
           then ret (Some (nick, symbol, x, base))
           else emit (Logged LogWarning "No price or percentage") ;;;
                ret None
       | None =>
           emit (Logged LogWarning "No price or percentage") ;;; ret None
       end : M (option (string * string * float * float)))).
  { intros nick symbol. destruct price as [x|].
    - destruct (float_truthy x); repeat appends_step.
    - repeat appends_step. }
  destruct percentage as [pct|]; [|apply Hotherwise].
  destruct (float_truthy pct); [apply appends_ret|apply Hotherwise].
Qed.

(** X15: for a message that is not dropped and a fetch that gives a
    quote, [parse_prediction] returns the asking nick, the symbol in
    upper case, the predicted price and the base price.  The base is the
    previous close while the market is open and the latest price
    otherwise.  A percentage that is not zero gives
    [base + percentage * .01 * base], or [base - ...] after a minus
    sign; a price that is not zero is taken as it is. *)
Theorem parse_prediction_value : forall user m w q,
  dropped user (pm_relayed m) = false ->
  fetch_outcome (upper (pm_symbol m)) = Ok (Some q) ->
  (forall text pct,
     pm_percentage m = Some text -> text <> "" -> pm_price m = None ->
     float_of_str text = Ok pct -> float_truthy pct = true ->
     parse_prediction user m w =
     (Ok (Some (asking_nick user (pm_relayed m), upper (pm_symbol m),
                percentage_price (is_negative (pm_sign m)) pct
                                 (base_price q),
                base_price q)),
      mk_world (db w) (trace w ++ fetch_events (upper (pm_symbol m))))) /\
  (forall text x,
     pm_percentage m = None -> pm_price m = Some text -> text <> "" ->
     float_of_str text = Ok x -> float_truthy x = true ->
     parse_prediction user m w =
     (Ok (Some (asking_nick user (pm_relayed m), upper (pm_symbol m),
                x, base_price q)),
      mk_world (db w) (trace w ++ fetch_events (upper (pm_symbol m))))).
Proof.
  intros user m w q Hdrop Ho. unfold dropped in Hdrop.
  split.
  - intros text pct Hpct Htext Hprice Hfloat Htruthy.
    unfold parse_prediction. rewrite Hdrop.
    unfold mbind at 1. rewrite get_daily_outcome, Ho.
    unfold mbind at 1. rewrite base_of_quote.
    unfold mbind, lift, group_float. rewrite Hpct, Hprice. simpl.
    apply String.eqb_neq in Htext. rewrite Htext. simpl.
    rewrite Hfloat. simpl. now rewrite Htruthy.
  - intros text x Hpct Hprice Htext Hfloat Htruthy.
    unfold parse_prediction. rewrite Hdrop.
    unfold mbind at 1. rewrite get_daily_outcome, Ho.
    unfold mbind at 1. rewrite base_of_quote.
    unfold mbind, lift, group_float. rewrite Hpct, Hprice. simpl.
    apply String.eqb_neq in Htext. rewrite Htext. simpl.
    rewrite Hfloat. simpl. now rewrite Htruthy.
Qed.

(** The note on a replaced prediction, empty when there was none. *)
Definition replaced_text (old : option prediction) : result text :=
  match old with
  | None => Ok []
  | Some old =>
      do d_old <- get_delta (p_prediction old) (p_base old);
      Ok [L "(replaces old prediction of ";
          Plain (Fixed2 (p_prediction old)); L " ("; colorize d_old;
          L ") set at "; L (p_when old); L ")"]
  end.

(** The confirmation [predict] sends. *)
Definition confirmation (nick symbol : string) (guess d_new : float)
           (old_str : text) : text :=
  [L "Prediction by "; L nick; L " for "; L bold; L symbol;
   L bold; L " at market ";
   L (if market_is_open now then "close" else "open"); L ": ";
   Plain (Fixed2 guess); L " ("; colorize d_new; L ") "] ++ old_str.

Lemma get_delta_ok : forall x base,
  float_truthy base = true ->
  exists d, get_delta x base = Ok d.
Proof.
  intros x base H. unfold get_delta, py_div.
  unfold float_truthy in H. apply negb_true_iff in H. rewrite H.
  simpl. now eexists.
Qed.

(** X16: when [parse_prediction] hands back a prediction whose base price
    is not zero, and the prediction it replaces, if any, has a base
    price that is not zero either, [predict] stores the new record under
    the symbol and the nick, keeping every other record, and sends one
    confirmation to the channel, which quotes the replaced prediction
    when there was one. *)
Theorem predict_stores : forall user channel m w nick symbol guess base w1,
  parse_prediction user m w = (Ok (Some (nick, symbol, guess, base)), w1) ->
  float_truthy base = true ->
  (forall old, old_prediction symbol nick (db w) = Some old ->
               float_truthy (p_base old) = true) ->
  exists d_new old_str,
    get_delta guess base = Ok d_new /\
    replaced_text (old_prediction symbol nick (db w)) = Ok old_str /\
    predict user channel m w =
    (Ok tt,
     mk_world
       (Dict.set symbol
          (Dict.set nick (saved base guess) (predictions_of symbol (db w)))
          (db w))
       (trace w1 ++
        [SendMsg channel (confirmation nick symbol guess d_new old_str)])).
Proof.
  intros user channel m w nick symbol guess base w1 Hparse Hbase Hold.
  destruct (parse_prediction_appends user m w) as (evs & Hdb & _).
  rewrite Hparse in Hdb. simpl in Hdb.
  destruct (get_delta_ok guess base Hbase) as (d_new & Hd).
  assert (Hrep : exists old_str,
    replaced_text (old_prediction symbol nick (db w)) = Ok old_str).
  { destruct (old_prediction symbol nick (db w)) as [old|] eqn:Hget.
    - destruct (get_delta_ok (p_prediction old) (p_base old)
                  (Hold old eq_refl)) as (d_old & Hdo).
      simpl. rewrite Hdo. simpl. now eexists.
    - now exists []. }
  destruct Hrep as (old_str & Hrep).
  exists d_new, old_str. split; [exact Hd|]. split; [exact Hrep|].
  unfold predict, try_except, mbind, ret, lift, get_db.
  rewrite Hparse. cbv beta iota. rewrite Hdb.
  unfold replaced_text in Hrep.
  destruct (old_prediction symbol nick (db w)) as [old|].
  - destruct (get_delta (p_prediction old) (p_base old)) as [d_old|];
      [|discriminate].
    simpl in Hrep. inversion Hrep; subst old_str. cbv beta iota.
    rewrite save_prediction_spec. cbv beta iota.
    rewrite Hd. unfold emit. cbn [db trace]. now rewrite Hdb.
  - inversion Hrep; subst old_str. cbv beta iota.
    rewrite save_prediction_spec. cbv beta iota.
    rewrite Hd. unfold emit. cbn [db trace]. now rewrite Hdb.
Qed.

(* ------------------------------------------------------------------ *)
(** *** Further facts about the resolution round *)

(** What the [try] block of a round adds to the trace for a symbol: the
    fetch, and after a failed fetch the log line and one error message
    per channel. *)
Definition fetch_actual_events (symbol : string) : list event :=
  if fetch_succeeded (fetch_outcome symbol)
  then fetch_events symbol
  else fetch_events symbol ++
       Logged LogException symbol ::
       map (fun channel =>
              SendMsg channel
                [L "Error with predictions for symbol "; L symbol; L "."])
           (channels cfg).

Lemma fetch_actual_exact : forall symbol w,
  fetch_actual symbol w =
  (Ok (actual_of (fetch_outcome symbol)),
   mk_world (db w) (trace w ++ fetch_actual_events symbol)).
Proof.
  intros symbol w. unfold fetch_actual, fetch_actual_events, try_except, mbind.
  rewrite get_daily_outcome.
  destruct (fetch_outcome symbol) as [[q|]|e]; simpl.
  - reflexivity.
  - rewrite for_each_send. simpl. now rewrite <- !app_assoc.
  - rewrite for_each_send. simpl. now rewrite <- !app_assoc.
Qed.

(** One turn of the loop over the symbols. *)
Lemma resolve_symbols_step : forall symbol rest last_prediction w,
  resolve_symbols (symbol :: rest) last_prediction w =
  let w1 := mk_world (db w) (trace w ++ fetch_actual_events symbol) in
  match actual_of (fetch_outcome symbol) with
  | None => resolve_symbols rest last_prediction w1
  | Some actual =>
      match Dict.get symbol (db w) with
      | None => (Raise KeyError, w1)
      | Some predictions =>
          match report symbol actual predictions last_prediction
                       (mk_world (Dict.del symbol (db w)) (trace w1)) with
          | (Ok last_prediction', w2) =>
              resolve_symbols rest last_prediction' w2
          | (Raise e, w2) => (Raise e, w2)
          end
      end
  end.
Proof.
  intros symbol rest last_prediction w. simpl.
  unfold mbind at 1. rewrite fetch_actual_exact.
  destruct (actual_of (fetch_outcome symbol)) as [actual|]; [|reflexivity].
  unfold mbind at 1. rewrite take_predictions_spec. cbn [db trace].
  destruct (Dict.get symbol (db w)) as [predictions|]; reflexivity.
Qed.

Lemma fold_del_filter : forall V deleted (d : Dict.t V),
  fold_left (fun d s => Dict.del s d) deleted d =
  filter (fun kv => negb (existsb (String.eqb (fst kv)) deleted)) d.
Proof.
  intros V deleted.
  induction deleted as [|k deleted IH]; intro d; simpl.
  - induction d as [|kv d IHd]; simpl; [reflexivity|]. now rewrite <- IHd.
  - rewrite IH, del_filter.
    induction d as [|kv d IHd]; simpl; [reflexivity|].
    rewrite (String.eqb_sym (fst kv) k).
    destruct (String.eqb k (fst kv)); simpl; [exact IHd|].
    destruct (existsb (String.eqb (fst kv)) deleted); simpl;
      [exact IHd|now rewrite IHd].
Qed.

Lemma resolve_symbols_deletes : forall symbols last_prediction w,
  exists deleted,
    incl deleted symbols /\
    Forall (fun s => fetch_succeeded (fetch_outcome s) = true) deleted /\
    db (snd (resolve_symbols symbols last_prediction w)) =
    fold_left (fun d s => Dict.del s d) deleted (db w).
Proof.
  induction symbols as [|symbol rest IH]; intros last_prediction w.
  - exists []. simpl. repeat split; [intros x []|constructor].
  - rewrite resolve_symbols_step. cbv zeta.
    pose proof (actual_of_succeeded (fetch_outcome symbol)) as Hsucc.
    destruct (actual_of (fetch_outcome symbol)) as [actual|].
    + destruct (Dict.get symbol (db w)) as [predictions|].
      * destruct (report_appends symbol actual predictions last_prediction
                    (mk_world (Dict.del symbol (db w))
                              (trace w ++ fetch_actual_events symbol)))
          as (evs & Hdb & _).
        cbn [trace].
        destruct (report symbol actual predictions last_prediction _)
          as [[last_prediction'|e] w2]; simpl in Hdb.
        -- destruct (IH last_prediction' w2) as (deleted & Hincl & Hall & ->).
           exists (symbol :: deleted). split; [|split].
           ++ intros x [<-|Hx]; [now left|right; now apply Hincl].
           ++ now constructor.
           ++ simpl. now rewrite Hdb.
        -- exists [symbol]. split; [|split].
           ++ intros x [<-|[]]. now left.
           ++ constructor; [exact Hsucc|constructor].
           ++ simpl. exact Hdb.
      * exists []. simpl. repeat split; [intros x []|constructor].
    + destruct (IH last_prediction
                   (mk_world (db w) (trace w ++ fetch_actual_events symbol)))
        as (deleted & Hincl & Hall & ->).
      exists deleted. split; [|split; [exact Hall|reflexivity]].
      intros x Hx. right. now apply Hincl.
Qed.

(** X17: a round changes the store only by deleting whole symbols, each
    of them a symbol whose fetch succeeded: what is left of the store
    are the other entries, unchanged and in their order; the shape of
    the store is kept. *)
Theorem do_predictions_only_deletes : forall w,
  exists deleted,
    incl deleted (Dict.keys (db w)) /\
    Forall (fun s => fetch_succeeded (fetch_outcome s) = true) deleted /\
    db (snd (do_predictions w)) =
    filter (fun kv => negb (existsb (String.eqb (fst kv)) deleted)) (db w) /\
    (store_ok (db w) -> store_ok (db (snd (do_predictions w)))).
Proof.
  intro w. unfold do_predictions, mbind, get_db.
  destruct (resolve_symbols_deletes (Dict.keys (db w)) None w)
    as (deleted & Hincl & Hall & Hdb).
  exists deleted. rewrite Hdb, fold_del_filter.
  split; [exact Hincl|]. split; [exact Hall|]. split; [reflexivity|].
  apply store_ok_filter.
Qed.

(** A mapping of predictions that [report] can always report on. *)
Definition reportable (predictions : Dict.t prediction) : Prop :=
  forall symbol actual last_prediction w,
    exists last_prediction',
      fst (report symbol actual predictions last_prediction w)
      = Ok last_prediction'.

Lemma report_without_channels : forall predictions,
  channels cfg = [] -> reportable predictions.
Proof.
  intros predictions Hch symbol actual last_prediction w.
  assert (Hscan : forall items c l w0,
    scan symbol actual items c l w0 =
    (Ok (fold_left (fun c np => update_closest actual c (fst np) (snd np))
                   items c,
         fold_left (fun _ np => Some (snd np)) items l), w0)).
  { induction items as [|[nick p] items IH]; intros c l w0; simpl.
    - reflexivity.
    - unfold mbind, send_prediction. rewrite Hch. simpl. apply IH. }
  unfold report, mbind. rewrite Hscan. unfold send_summary.
  rewrite Hch. simpl. now eexists.
Qed.

Lemma closest_prediction_some : forall actual items,
  items <> [] ->
  exists guess,
    closest_prediction (closest_guess actual items) = Some guess.
Proof.
  intros actual [|[nick p] items] Hne; [congruence|].
  unfold closest_guess. simpl.
  assert (G : forall rest c,
    (exists g, closest_prediction c = Some g) ->
    exists g,
      closest_prediction
        (fold_left (fun c np => update_closest actual c (fst np) (snd np))
                   rest c) = Some g).
  { induction rest as [|[n q] rest IH]; intros c Hc; simpl; [exact Hc|].
    apply IH. unfold update_closest.
    destruct (replaces c (abs_delta actual q)); [|exact Hc].
    simpl. now eexists. }
  apply G. unfold update_closest. simpl. now eexists.
Qed.

Lemma report_with_bases : forall predictions,
  predictions <> [] ->
  (forall nick p, In (nick, p) predictions ->
                  float_truthy (p_base p) = true) ->
  reportable predictions.
Proof.
  intros predictions Hne Hbase symbol actual last_prediction w.
  assert (Hmsg : forall nick p, In (nick, p) predictions ->
    exists message, prediction_message nick symbol p actual = Ok message).
  { intros nick p Hin. unfold prediction_message.
    destruct (get_delta_ok (p_prediction p) (p_base p) (Hbase nick p Hin))
      as (d1 & ->).
    destruct (get_delta_ok actual (p_base p) (Hbase nick p Hin))
      as (d2 & ->).
    simpl. now eexists. }
  assert (Hscan : forall items c l w0,
    incl items predictions ->
    exists w1,
      scan symbol actual items c l w0 =
      (Ok (fold_left (fun c np => update_closest actual c (fst np) (snd np))
                     items c,
           fold_left (fun _ np => Some (snd np)) items l), w1)).
  { induction items as [|[nick p] items IH]; intros c l w0 Hincl; simpl.
    - now exists w0.
    - destruct (Hmsg nick p (Hincl _ (or_introl eq_refl))) as (message & Hm).
      unfold mbind, send_prediction.
      rewrite for_each_lift_send, Hm.
      apply IH. intros x Hx. apply Hincl. now right. }
  destruct (Hscan (Dict.items predictions) no_closest last_prediction w
              (fun x Hx => Hx)) as (w1 & Hs).
  unfold report, mbind. rewrite Hs. cbn [fst snd].
  fold (closest_guess actual (Dict.items predictions)).
  destruct (closest_prediction_some actual predictions Hne) as (guess & Hg).
  destruct (exists_last Hne) as (init_items & [nick p] & Hlast).
  assert (Hl : fold_left (fun _ np => Some (snd np)) (Dict.items predictions)
                         last_prediction = Some p).
  { unfold Dict.items. rewrite Hlast, fold_left_app. reflexivity. }
  assert (Hp : float_truthy (p_base p) = true).
  { apply (Hbase nick). rewrite Hlast. apply in_or_app. right. now left. }
  unfold send_summary. rewrite for_each_lift_send.
  unfold summary_message. rewrite Hl. unfold Dict.items in Hg.
  unfold Dict.items. rewrite Hg. cbn [bind py_float].
  destruct (get_delta_ok guess (p_base p) Hp) as (d1 & ->).
  destruct (get_delta_ok actual (p_base p) Hp) as (d2 & ->).
  simpl. now eexists.
Qed.

Lemma resolve_symbols_completes : forall symbols last_prediction w,
  NoDup symbols ->
  (forall s, In s symbols ->
     exists predictions,
       Dict.get s (db w) = Some predictions /\ reportable predictions) ->
  fst (resolve_symbols symbols last_prediction w) = Ok tt /\
  db (snd (resolve_symbols symbols last_prediction w)) =
  fold_left (fun d s => Dict.del s d)
            (filter (fun s => fetch_succeeded (fetch_outcome s)) symbols)
            (db w).
Proof.
  induction symbols as [|symbol rest IH]; intros last_prediction w Hnd Hall.
  - now split.
  - inversion Hnd as [|? ? Hnotin Hnd']; subst.
    rewrite resolve_symbols_step. cbv zeta. simpl filter.
    rewrite (actual_of_succeeded (fetch_outcome symbol)).
    destruct (actual_of (fetch_outcome symbol)) as [actual|].
    + destruct (Hall symbol (or_introl eq_refl))
        as (predictions & Hget & Hrep).
      rewrite Hget. cbn [trace].
      destruct (Hrep symbol actual last_prediction
                  (mk_world (Dict.del symbol (db w))
                            (trace w ++ fetch_actual_events symbol)))
        as (last_prediction' & Hok).
      destruct (report_appends symbol actual predictions last_prediction
                  (mk_world (Dict.del symbol (db w))
                            (trace w ++ fetch_actual_events symbol)))
        as (evs & Hdb & _).
      destruct (report symbol actual predictions last_prediction _)
        as [[l'|e] w2]; simpl in Hok, Hdb; [|discriminate].
      simpl fold_left. rewrite <- Hdb.
      apply IH; [exact Hnd'|].
      intros s Hs. rewrite Hdb.
      rewrite get_del_other by (intros ->; contradiction).
      apply Hall. now right.
    + apply (IH last_prediction
                 (mk_world (db w) (trace w ++ fetch_actual_events symbol)));
        [exact Hnd'|].
      intros s Hs. simpl. apply Hall. now right.
Qed.

(** X18: on a store of the kept shape, when no channel is configured or
    no stored base price is zero, a round runs to its end without
    raising, and what it leaves in the store are exactly the symbols
    whose fetch failed, with their predictions as they were. *)
Theorem do_predictions_completes : forall w,
  store_ok (db w) ->
  channels cfg = [] \/
  (forall symbol predictions nick p,
     In (symbol, predictions) (db w) -> In (nick, p) predictions ->
     float_truthy (p_base p) = true) ->
  fst (do_predictions w) = Ok tt /\
  db (snd (do_predictions w)) =
  filter (fun kv => negb (fetch_succeeded (fetch_outcome (fst kv)))) (db w).
Proof.
  intros w [Hnd Hshape] Hcan.
  unfold do_predictions, mbind, get_db.
  destruct (resolve_symbols_completes (Dict.keys (db w)) None w Hnd)
    as [Hok Hdb].
  { intros s Hs.
    destruct (Dict.get s (db w)) as [predictions|] eqn:Hg;
      [|exfalso; apply get_none_not_key in Hg; exact (Hg Hs)].
    exists predictions. split; [reflexivity|].
    apply get_in in Hg.
    destruct Hcan as [Hch|Hbase].
    - now apply report_without_channels.
    - apply report_with_bases; [now apply (Hshape s)|].
      intros nick p Hin. now apply (Hbase s predictions nick p). }
  split; [exact Hok|]. rewrite Hdb, fold_del_filter.
  apply filter_ext_in. intros [s predictions] Hin. simpl.
  f_equal.
  destruct (fetch_succeeded (fetch_outcome s)) eqn:Hs.
  - apply existsb_exists. exists s. split; [|apply String.eqb_refl].
    apply filter_In. split; [|exact Hs].
    apply (in_map fst) in Hin. exact Hin.
  - apply not_true_is_false. intro H. apply existsb_exists in H.
    destruct H as (x & Hx & Heq). apply String.eqb_eq in Heq. subst x.
    apply filter_In in Hx. destruct Hx as [_ Hx]. congruence.
Qed.

Lemma nodup_app_disjoint : forall A (l1 l2 : list A) x,
  NoDup (l1 ++ l2) -> In x l1 -> ~ In x l2.
Proof.
  induction l1 as [|y l1 IH]; intros l2 x Hnd Hin; [contradiction|].
  simpl in Hnd. inversion Hnd as [|? ? Hnotin Hnd']; subst.
  destruct Hin as [->|Hin].
  - intro H. apply Hnotin. apply in_or_app. now right.
  - now apply IH.
Qed.

Lemma get_app_absent : forall V k (d1 d2 : Dict.t V),
  ~ In k (Dict.keys d1) -> Dict.get k (d1 ++ d2) = Dict.get k d2.
Proof.
  induction d1 as [|[k' v'] d1 IH]; intros d2 Hno; [reflexivity|].
  simpl. destruct (String.eqb k k') eqn:E.
  - apply String.eqb_eq in E. subst k'. exfalso. apply Hno. now left.
  - apply IH. intro H. apply Hno. now right.
Qed.

Lemma del_absent : forall V k (d : Dict.t V),
  ~ In k (Dict.keys d) -> Dict.del k d = d.
Proof.
  induction d as [|[k' v'] d IH]; intro Hno; [reflexivity|].
  simpl. destruct (String.eqb k k') eqn:E.
  - apply String.eqb_eq in E. subst k'. exfalso. apply Hno. now left.
  - rewrite IH; [reflexivity|]. intro H. apply Hno. now right.
Qed.

Lemma del_app_absent : forall V k (d1 d2 : Dict.t V),
  ~ In k (Dict.keys d1) -> Dict.del k (d1 ++ d2) = d1 ++ Dict.del k d2.
Proof.
  induction d1 as [|[k' v'] d1 IH]; intros d2 Hno; [reflexivity|].
  simpl. destruct (String.eqb k k') eqn:E.
  - apply String.eqb_eq in E. subst k'. exfalso. apply Hno. now left.
  - rewrite IH; [reflexivity|]. intro H. apply Hno. now right.
Qed.

Lemma existsb_eqb_filter : forall (f : string -> bool) k l,
  In k l -> existsb (String.eqb k) (filter f l) = f k.
Proof.
  intros f k l Hin. destruct (f k) eqn:Hk.
  - apply existsb_exists. exists k. split; [|apply String.eqb_refl].
    apply filter_In. now split.
  - apply not_true_is_false. intro H. apply existsb_exists in H.
    destruct H as (x & Hx & Heq). apply String.eqb_eq in Heq. subst x.
    apply filter_In in Hx. destruct Hx as [_ Hx]. congruence.
Qed.

Lemma filter_all : forall A (g : A -> bool) l,
  (forall x, In x l -> g x = true) -> filter g l = l.
Proof.
  induction l as [|x l IH]; intro H; [reflexivity|].
  simpl. rewrite (H x (or_introl eq_refl)).
  rewrite IH; [reflexivity|]. intros y Hy. apply H. now right.
Qed.

(** Deleting, out of the keys of a first part of a dict, those that [f]
    selects. *)
Lemma fold_del_prefix : forall V (f : string -> bool) (d1 d2 : Dict.t V),
  NoDup (Dict.keys (d1 ++ d2)) ->
  fold_left (fun d s => Dict.del s d) (filter f (Dict.keys d1)) (d1 ++ d2) =
  filter (fun kv => negb (f (fst kv))) d1 ++ d2.
Proof.
  intros V f d1 d2 Hnd. rewrite fold_del_filter, filter_app. f_equal.
  - apply filter_ext_in. intros kv Hin. f_equal.
    apply existsb_eqb_filter. now apply in_map.
  - apply filter_all. intros kv Hin. apply negb_true_iff.
    apply not_true_is_false. intro H. apply existsb_exists in H.
    destruct H as (x & Hx & Heq). apply String.eqb_eq in Heq. subst x.
    apply filter_In in Hx. destruct Hx as [Hx _].
    unfold Dict.keys in Hnd. rewrite map_app in Hnd.
    apply (nodup_app_disjoint _ _ _ (fst kv) Hnd Hx). now apply in_map.
Qed.

(** The round over a first part of the symbols, when it can report on
    each of them, hands over to the round over the rest. *)
Lemma resolve_symbols_app : forall pre rest last_prediction w,
  NoDup pre ->
  (forall s, In s pre ->
     exists predictions,
       Dict.get s (db w) = Some predictions /\ reportable predictions) ->
  exists last_prediction',
    resolve_symbols (pre ++ rest) last_prediction w =
    resolve_symbols rest last_prediction'
      (snd (resolve_symbols pre last_prediction w)).
Proof.
  induction pre as [|symbol pre IH]; intros rest last_prediction w Hnd Hall.
  - now exists last_prediction.
  - inversion Hnd as [|? ? Hnotin Hnd']; subst.
    rewrite <- app_comm_cons, !resolve_symbols_step. cbv zeta.
    destruct (actual_of (fetch_outcome symbol)) as [actual|].
    + destruct (Hall symbol (or_introl eq_refl))
        as (predictions & Hget & Hrep).
      rewrite Hget. cbn [trace].
      destruct (Hrep symbol actual last_prediction
                  (mk_world (Dict.del symbol (db w))
                            (trace w ++ fetch_actual_events symbol)))
        as (last_prediction' & Hok).
      destruct (report_appends symbol actual predictions last_prediction
                  (mk_world (Dict.del symbol (db w))
                            (trace w ++ fetch_actual_events symbol)))
        as (evs & Hdb & _).
      destruct (report symbol actual predictions last_prediction _)
        as [[l'|e] w2]; simpl in Hok, Hdb; [|discriminate].
      apply IH; [exact Hnd'|].
      intros s Hs. rewrite Hdb.
      rewrite get_del_other by (intros ->; contradiction).
      apply Hall. now right.
    + apply IH; [exact Hnd'|].
      intros s Hs. simpl. apply Hall. now right.
Qed.

(** What [send_prediction] adds to the trace for one submitter. *)
Definition prediction_events (symbol : string) (actual : float)
           (np : string * prediction) : list event :=
  match prediction_message (fst np) symbol (snd np) actual with
  | Ok message => map (fun channel => SendMsg channel message) (channels cfg)
  | Raise _ => []
  end.

(** The loop over a snapshot stops at the first prediction whose base
    is zero. *)
Lemma scan_zero_base :
  forall symbol actual before nick p rest c last_prediction w channel more,
    channels cfg = channel :: more ->
    (forall n x, In (n, x) before -> float_truthy (p_base x) = true) ->
    float_truthy (p_base p) = false ->
    scan symbol actual (before ++ (nick, p) :: rest) c last_prediction w =
    (Raise ZeroDivisionError,
     mk_world (db w)
       (trace w ++ flat_map (prediction_events symbol actual) before)).
Proof.
  intros symbol actual before nick p rest c last_prediction w channel more
         Hch Hbefore Hzero. revert c last_prediction w.
  induction before as [|[n x] before IH]; intros c last_prediction w.
  - simpl. unfold mbind at 1. unfold send_prediction.
    rewrite for_each_lift_send, Hch.
    unfold prediction_message, get_delta, py_div.
    unfold float_truthy in Hzero. apply negb_false_iff in Hzero.
    rewrite Hzero. simpl. rewrite app_nil_r. now destruct w.
  - simpl. unfold mbind at 1. unfold send_prediction.
    rewrite for_each_lift_send. unfold prediction_events at 1.
    cbn [fst snd].
    assert (Hx : float_truthy (p_base x) = true)
      by (apply (Hbefore n); now left).
    assert (Hmsg : exists message,
              prediction_message n symbol x actual = Ok message).
    { unfold prediction_message.
      destruct (get_delta_ok (p_prediction x) (p_base x) Hx) as (d1 & ->).
      destruct (get_delta_ok actual (p_base x) Hx) as (d2 & ->).
      simpl. now eexists. }
    destruct Hmsg as (message & ->).
    rewrite IH by (intros n' x' H; apply (Hbefore n'); now right).
    cbn [db trace]. now rewrite <- app_assoc.
Qed.

(** X19: with a channel configured, the round raises
    [ZeroDivisionError] at the first stored prediction whose base price
    is zero, once the fetch of its symbol has succeeded.  The symbols
    before it have been resolved as usual; its own symbol is out of the
    store; the submitters iterated before it have had their messages,
    and nothing is sent for it or for the submitters after it, nor a
    summary; the symbols after it are neither fetched nor taken out of
    the store. *)
Theorem zero_base_aborts_round :
  forall w earlier symbol before nick p rest others channel more q,
    db w = earlier ++ (symbol, before ++ (nick, p) :: rest) :: others ->
    store_ok (db w) ->
    channels cfg = channel :: more ->
    (forall s predictions n x,
       In (s, predictions) earlier -> In (n, x) predictions ->
       float_truthy (p_base x) = true) ->
    (forall n x, In (n, x) before -> float_truthy (p_base x) = true) ->
    float_truthy (p_base p) = false ->
    fetch_outcome symbol = Ok (Some q) ->
    do_predictions w =
    (Raise ZeroDivisionError,
     mk_world
       (filter (fun kv => negb (fetch_succeeded (fetch_outcome (fst kv))))
               earlier ++ others)
       (trace (snd (resolve_symbols (Dict.keys earlier) None w)) ++
        fetch_events symbol ++
        flat_map (prediction_events symbol (q_price q)) before)).
Proof.
  intros w earlier symbol before nick p rest others channel more q
         Hdb [Hnd Hshape] Hch Hearlier Hbefore Hzero Hq.
  set (failed := fun kv : string * Dict.t prediction =>
                   negb (fetch_succeeded (fetch_outcome (fst kv)))).
  assert (Hkeys : Dict.keys (db w) =
                  Dict.keys earlier ++ symbol :: Dict.keys others).
  { rewrite Hdb. unfold Dict.keys. now rewrite map_app. }
  assert (Hnd1 : NoDup (Dict.keys earlier)).
  { rewrite Hkeys in Hnd. now apply NoDup_app_remove_r in Hnd. }
  assert (Hno1 : ~ In symbol (Dict.keys earlier)).
  { intro H. rewrite Hkeys in Hnd.
    apply (nodup_app_disjoint _ _ _ symbol Hnd H). now left. }
  assert (Hno2 : ~ In symbol (Dict.keys others)).
  { rewrite Hkeys in Hnd. apply NoDup_app_remove_l in Hnd.
    now inversion Hnd. }
  assert (Hrep : forall s, In s (Dict.keys earlier) ->
    exists predictions,
      Dict.get s (db w) = Some predictions /\ reportable predictions).
  { intros s Hs.
    destruct (Dict.get s (db w)) as [predictions|] eqn:Hg.
    - exists predictions. split; [reflexivity|].
      apply get_in in Hg.
      assert (Hin : In (s, predictions) earlier).
      { rewrite Hdb in Hg. apply in_app_or in Hg.
        destruct Hg as [Hg|Hg]; [exact Hg|].
        exfalso. rewrite Hkeys in Hnd.
        apply (nodup_app_disjoint _ _ _ s Hnd Hs).
        apply (in_map fst) in Hg. exact Hg. }
      apply report_with_bases.
      + apply (Hshape s). rewrite Hdb. apply in_or_app. now left.
      + intros n x Hx. now apply (Hearlier s predictions n x).
    - exfalso. apply get_none_not_key in Hg. apply Hg.
      rewrite Hkeys. apply in_or_app. now left. }
  unfold do_predictions, mbind, get_db. rewrite Hkeys.
  destruct (resolve_symbols_app (Dict.keys earlier)
              (symbol :: Dict.keys others) None w Hnd1 Hrep)
    as (last_prediction & ->).
  destruct (resolve_symbols_completes (Dict.keys earlier) None w Hnd1 Hrep)
    as [_ Hdb1].
  rewrite Hdb in Hdb1.
  rewrite fold_del_prefix in Hdb1 by (rewrite <- Hdb; exact Hnd).
  fold failed in Hdb1.
  set (w1 := snd (resolve_symbols (Dict.keys earlier) None w)) in *.
  assert (Hno1' : ~ In symbol (Dict.keys (filter failed earlier))).
  { intro H. apply Hno1. unfold Dict.keys in *.
    apply in_map_iff in H. destruct H as (kv & <- & Hkv).
    apply filter_In in Hkv. apply in_map. apply Hkv. }
  rewrite resolve_symbols_step. cbv zeta.
  unfold fetch_actual_events. rewrite Hq. cbn [fetch_succeeded actual_of].
  rewrite Hdb1, get_app_absent by exact Hno1'.
  simpl Dict.get. rewrite String.eqb_refl.
  rewrite del_app_absent by exact Hno1'.
  simpl Dict.del. rewrite String.eqb_refl.
  rewrite (del_absent _ symbol others Hno2). cbn [trace].
  unfold report. unfold mbind at 1. unfold Dict.items.
  rewrite (scan_zero_base symbol (q_price q) before nick p rest no_closest
             last_prediction _ channel more Hch Hbefore Hzero).
  cbn [db trace]. now rewrite <- app_assoc.
Qed.

(** The events of a symbol whose fetch failed in a round. *)
Definition skipped_events (symbol : string) : list event :=
  fetch_events symbol ++
  Logged LogException symbol ::
  map (fun channel =>
         SendMsg channel
           [L "Error with predictions for symbol "; L symbol; L "."])
      (channels cfg).

(** X20: when the fetch of every symbol with predictions fails, the round
    returns without raising and leaves the store as it is; for each
    symbol in turn it logs the failure and sends one error message to
    every channel, and it does not pause between the symbols. *)
Theorem do_predictions_all_failed : forall w,
  (forall symbol, In symbol (Dict.keys (db w)) ->
                  fetch_succeeded (fetch_outcome symbol) = false) ->
  do_predictions w =
  (Ok tt,
   mk_world (db w) (trace w ++ flat_map skipped_events (Dict.keys (db w)))).
Proof.
  intros w Hfail. unfold do_predictions, mbind, get_db.
  assert (G : forall symbols last_prediction w0,
    (forall symbol, In symbol symbols ->
                    fetch_succeeded (fetch_outcome symbol) = false) ->
    resolve_symbols symbols last_prediction w0 =
    (Ok tt, mk_world (db w0) (trace w0 ++ flat_map skipped_events symbols))).
  { induction symbols as [|symbol rest IH]; intros last_prediction w0 Hall.
    - simpl. unfold ret. rewrite app_nil_r. now destruct w0.
    - rewrite resolve_symbols_step. cbv zeta.
      pose proof (Hall symbol (or_introl eq_refl)) as Hs.
      unfold fetch_actual_events. rewrite Hs.
      rewrite (actual_of_succeeded (fetch_outcome symbol)) in Hs.
      destruct (actual_of (fetch_outcome symbol)); [discriminate|].
      rewrite IH by (intros s H; apply Hall; now right).
      simpl. unfold skipped_events at 2. now rewrite <- !app_assoc. }
  now apply G.
Qed.

(* ------------------------------------------------------------------ *)
(** *** Further facts about the broadcaster and the tick *)

Definition is_fetch (e : event) : bool :=
  match e with Fetched _ _ => true | _ => false end.

(** The events of one symbol's deferred. *)
Definition deferred_events (symbol : string) : list event :=
  match fetch_outcome symbol with
  | Raise _ => fetch_events symbol ++ [Logged LogError errback_symbol]
  | Ok _ => fetch_events symbol
  end.

Lemma ticker_deferred_exact : forall symbol w,
  ticker_deferred symbol w =
  (Ok (settle symbol),
   mk_world (db w) (trace w ++ deferred_events symbol)).
Proof.
  intros symbol w.
  unfold ticker_deferred, try_except, mbind, settle, deferred_events.
  rewrite get_daily_outcome.
  destruct (fetch_outcome symbol) as [[q|]|e]; simpl; try reflexivity.
  now rewrite <- app_assoc.
Qed.

Lemma map_ticker_deferred_exact : forall symbols w,
  map_M ticker_deferred symbols w =
  (Ok (map settle symbols),
   mk_world (db w) (trace w ++ flat_map deferred_events symbols)).
Proof.
  induction symbols as [|symbol rest IH]; intro w; simpl.
  - unfold ret. rewrite app_nil_r. now destruct w.
  - unfold mbind at 1. rewrite ticker_deferred_exact.
    unfold mbind at 1. rewrite IH. unfold ret. simpl.
    now rewrite <- app_assoc.
Qed.

Lemma deferred_events_fetch_once : forall symbol,
  List.length (filter is_fetch (deferred_events symbol)) = 1%nat /\
  Forall not_send (deferred_events symbol).
Proof.
  intro symbol. unfold deferred_events.
  destruct (fetch_events_shape symbol) as (logs & Hshape & Hlogs).
  assert (Hnone : filter is_fetch logs = []).
  { clear Hshape. induction logs as [|e logs IH]; [reflexivity|].
    inversion Hlogs as [|? ? He Hl]; subst. simpl.
    destruct e; try contradiction. now apply IH. }
  pose proof (fetch_events_not_send symbol) as Hns.
  rewrite Hshape in *.
  destruct (fetch_outcome symbol) as [o|e].
  - rewrite filter_app, Hnone. now split.
  - rewrite !filter_app, Hnone. split; [reflexivity|].
    apply Forall_app. split; [exact Hns|].
    constructor; [exact I|constructor].
Qed.

Lemma length_keys_set : forall V k (v : V) d,
  (List.length (Dict.keys (Dict.set k v d)) <= S (List.length (Dict.keys d)))%nat.
Proof.
  intros V k v d. rewrite keys_set.
  destruct (Dict.mem k d); [lia|]. rewrite length_app. simpl. lia.
Qed.

Lemma length_keys_of_pairs : forall V (pairs : list (string * V)),
  (List.length (Dict.keys (Dict.of_pairs pairs)) <= List.length pairs)%nat.
Proof.
  intros V pairs. unfold Dict.of_pairs.
  assert (G : forall d,
    (List.length (Dict.keys
       (fold_left (fun d kv => Dict.set (fst kv) (snd kv) d) pairs d))
     <= List.length (Dict.keys d) + List.length pairs)%nat).
  { induction pairs as [|[k v] pairs IH]; intro d; simpl; [lia|].
    specialize (IH (Dict.set k v d)).
    pose proof (length_keys_set V k v d). lia. }
  exact (G Dict.empty).
Qed.

Lemma flat_map_deferred_events : forall symbols,
  Forall not_send (flat_map deferred_events symbols) /\
  List.length (filter is_fetch (flat_map deferred_events symbols))
  = List.length symbols.
Proof.
  induction symbols as [|symbol rest [IHs IHc]]; [now split|].
  destruct (deferred_events_fetch_once symbol) as [Hc Hs].
  simpl. split.
  - apply Forall_app. now split.
  - now rewrite filter_app, length_app, IHc, Hc.
Qed.

(** Can the symbol that the quote of [symbol] carries be a dict key?  A
    fetch that gives no quote carries none. *)
Definition carries_hashable (symbol : string) : bool :=
  match fetch_outcome symbol with
  | Ok (Some q) => hashable (q_symbol q)
  | _ => true
  end.

Lemma add_result_settle : forall results symbol,
  (carries_hashable symbol = true ->
   exists results', add_result results (settle symbol) = Ok results') /\
  (carries_hashable symbol = false ->
   add_result results (settle symbol) = Raise TypeError).
Proof.
  intros results symbol. unfold carries_hashable, settle.
  destruct (fetch_outcome symbol) as [[q|]|e]; simpl.
  - destruct (hashable (q_symbol q)); split; try discriminate.
    + intros _. now eexists.
    + reflexivity.
  - split; [intros _; now eexists|discriminate].
  - split; [intros _; now eexists|discriminate].
Qed.

Lemma read_results_ok : forall symbols results,
  (forall symbol, In symbol symbols -> carries_hashable symbol = true) ->
  exists results', read_results (map settle symbols) results = Ok results'.
Proof.
  induction symbols as [|symbol rest IH]; intros results Hall; simpl.
  - now eexists.
  - destruct (proj1 (add_result_settle results symbol)
                (Hall symbol (or_introl eq_refl))) as (results1 & ->).
    simpl. apply IH. intros s Hs. apply Hall. now right.
Qed.

Lemma read_results_raises : forall symbols results symbol,
  In symbol symbols -> carries_hashable symbol = false ->
  read_results (map settle symbols) results = Raise TypeError.
Proof.
  induction symbols as [|s rest IH]; intros results symbol Hin Hno;
    [contradiction|].
  simpl. destruct (carries_hashable s) eqn:Hs.
  - destruct (proj1 (add_result_settle results s) Hs) as (results1 & ->).
    simpl. apply (IH results1 symbol); [|exact Hno].
    destruct Hin as [->|Hin]; [congruence|exact Hin].
  - now rewrite (proj2 (add_result_settle results s) Hs).
Qed.

(** The trace of a broadcast whose quotes carry hashable symbols: the
    events of the fetches, then one message, the same to every
    channel. *)
Lemma send_ticker_trace : forall w,
  (forall symbol, In symbol (Dict.keys (stocks cfg)) ->
                  carries_hashable symbol = true) ->
  exists message,
    send_ticker w =
    (Ok tt,
     mk_world (db w)
       (trace w ++ flat_map deferred_events (Dict.keys (stocks cfg)) ++
        map (fun channel => SendMsg channel message) (channels cfg))).
Proof.
  intros w Hall. unfold send_ticker. unfold mbind at 1.
  rewrite map_ticker_deferred_exact.
  destruct (read_results_ok (Dict.keys (stocks cfg)) [] Hall)
    as (results & Hread).
  destruct (format_ticker_ok results) as (message & Hmessage).
  unfold mbind, lift. rewrite Hread, Hmessage.
  rewrite for_each_send. simpl.
  exists message. now rewrite <- app_assoc.
Qed.

(** The trace of a broadcast in which a quote carries a list or a dict
    as its symbol. *)
Lemma send_ticker_raises : forall w symbol,
  In symbol (Dict.keys (stocks cfg)) ->
  carries_hashable symbol = false ->
  send_ticker w =
  (Raise TypeError,
   mk_world (db w)
     (trace w ++ flat_map deferred_events (Dict.keys (stocks cfg)))).
Proof.
  intros w symbol Hin Hno. unfold send_ticker. unfold mbind at 1.
  rewrite map_ticker_deferred_exact.
  unfold mbind, lift.
  now rewrite (read_results_raises _ [] symbol Hin Hno).
Qed.


(** X29: when the quote of a configured symbol carries a list or a dict
    as its symbol, the broadcast raises [TypeError] while it reads the
    results: every symbol has been fetched by then, and no message is
    sent to any channel. *)
Theorem send_ticker_unhashable_symbol : forall w symbol q,
  In symbol (Dict.keys (stocks cfg)) ->
  fetch_outcome symbol = Ok (Some q) ->
  hashable (q_symbol q) = false ->
  send_ticker w =
  (Raise TypeError,
   mk_world (db w)
     (trace w ++ flat_map deferred_events (Dict.keys (stocks cfg)))) /\
  Forall not_send (flat_map deferred_events (Dict.keys (stocks cfg))).
Proof.
  intros w symbol q Hin Ho Hno. split.
  - apply (send_ticker_raises w symbol Hin).
    unfold carries_hashable. now rewrite Ho.
  - apply flat_map_deferred_events.
Qed.

(** X22: when the fetch of every configured symbol fails, the broadcast
    still sends its message to every channel, and the message is the
    empty text. *)
Theorem send_ticker_all_failed : forall w,
  (forall symbol, In symbol (Dict.keys (stocks cfg)) ->
                  fetch_succeeded (fetch_outcome symbol) = false) ->
  send_ticker w =
  (Ok tt,
   mk_world (db w)
     (trace w ++ flat_map deferred_events (Dict.keys (stocks cfg)) ++
      map (fun channel => SendMsg channel []) (channels cfg))).
Proof.
  intros w Hfail. unfold send_ticker. unfold mbind at 1.
  rewrite map_ticker_deferred_exact.
  assert (Hres : read_results (map settle (Dict.keys (stocks cfg))) []
                 = Ok []).
  { assert (G : forall symbols acc,
      (forall symbol, In symbol symbols ->
                      fetch_succeeded (fetch_outcome symbol) = false) ->
      read_results (map settle symbols) acc = Ok acc).
    { induction symbols as [|symbol rest IH]; intros acc Hall;
        [reflexivity|].
      simpl. pose proof (Hall symbol (or_introl eq_refl)) as Hs.
      unfold settle at 1.
      destruct (fetch_outcome symbol) as [[q|]|e]; [discriminate| |];
        simpl; apply IH; intros s H; apply Hall; now right. }
    now apply G. }
  assert (Hparts : forall items, message_parts items [] = Ok []).
  { induction items as [|[symbol name] items IH]; [reflexivity|].
    simpl. exact IH. }
  unfold mbind, lift, format_ticker. rewrite Hres, Hparts. simpl.
  rewrite for_each_send. simpl. now rewrite <- app_assoc.
Qed.

End Plugin.

(* ================================================================== *)
(** ** Sample inputs *)

Definition saturday_0930 : datetime := mk_datetime 5 9 30 0.
Definition monday_0930 : datetime := mk_datetime 0 9 30 0.
Definition monday_0947 : datetime := mk_datetime 0 9 47 0.
Definition monday_0947_30 : datetime := mk_datetime 0 9 47 30.

(* ================================================================== *)
(** ** Market clock: the boundary flags *)

Lemma market_open_at_0930 : forall now,
  hour now = 9 -> minute now = 30 ->
  is_market_open (classify now) = negb (weekday now >=? 5).
Proof.
  intros now Hh Hm. unfold classify; simpl. rewrite Hh, Hm. simpl.
  now rewrite !orb_false_r.
Qed.

Lemma market_open_at_1600 : forall now,
  hour now = 16 -> minute now = 0 ->
  is_market_open (classify now) = negb (weekday now >=? 5).
Proof.
  intros now Hh Hm. unfold classify; simpl. rewrite Hh, Hm. simpl.
  now rewrite !orb_false_r.
Qed.

(** C7, as stated, fails: on a Saturday at 09:30 the open-boundary flag
    is set although the day is no weekday. *)
Lemma open_flag_on_saturday :
  ~ (is_open (classify saturday_0930) = true <->
     is_weekday saturday_0930 /\
     hour saturday_0930 = 9 /\ minute saturday_0930 = 30).
Proof.
  intros [H _]. specialize (H eq_refl). destruct H as [Hw _].
  unfold is_weekday, saturday_0930 in Hw; simpl in Hw. lia.
Qed.

(** C7, amended: the open-boundary flag is set exactly when the time of
    day is 09:30 and the close-boundary flag exactly when it is 16:00,
    on any day of the week; the weekday condition belongs to the gate
    [should_do_predictions], which is set exactly on a weekday at 09:30
    or at 16:00. *)
Theorem boundary_flags : forall now,
  (is_open (classify now) = true <-> hour now = 9 /\ minute now = 30) /\
  (is_close (classify now) = true <-> hour now = 16 /\ minute now = 0) /\
  (should_do_predictions (classify now) = true <->
   is_weekday now /\
   ((hour now = 9 /\ minute now = 30) \/ (hour now = 16 /\ minute now = 0))).
Proof.
  intro now.
  assert (Ho : is_open (classify now) = true <->
               hour now = 9 /\ minute now = 30).
  { unfold classify; simpl. rewrite andb_true_iff, !Z.eqb_eq. tauto. }
  assert (Hc : is_close (classify now) = true <->
               hour now = 16 /\ minute now = 0).
  { unfold classify; simpl. rewrite andb_true_iff, !Z.eqb_eq. tauto. }
  split; [exact Ho|]. split; [exact Hc|].
  assert (Hs : should_do_predictions (classify now) =
               is_market_open (classify now) &&
               (is_open (classify now) || is_close (classify now))).
  { unfold classify; simpl.
    now destruct (negb _ && _). }
  rewrite Hs, andb_true_iff, orb_true_iff, Ho, Hc.
  unfold is_weekday. split.
  - intros [Hm [[Hh Hmin]|[Hh Hmin]]].
    + rewrite (market_open_at_0930 now Hh Hmin) in Hm.
      apply negb_true_iff in Hm. rewrite Z.geb_leb in Hm.
      apply Z.leb_gt in Hm. tauto.
    + rewrite (market_open_at_1600 now Hh Hmin) in Hm.
      apply negb_true_iff in Hm. rewrite Z.geb_leb in Hm.
      apply Z.leb_gt in Hm. tauto.
  - intros [Hw [[Hh Hmin]|[Hh Hmin]]].
    + rewrite (market_open_at_0930 now Hh Hmin). split; [|tauto].
      apply negb_true_iff. rewrite Z.geb_leb. now apply Z.leb_gt.
    + rewrite (market_open_at_1600 now Hh Hmin). split; [|tauto].
      apply negb_true_iff. rewrite Z.geb_leb. now apply Z.leb_gt.
Qed.

(* ================================================================== *)
(** ** Tick scheduler: the armed delay *)

Lemma quarter_hour_mod : forall h m,
  (h * 3600 + m * 60 + 0) mod 900 = (m mod 15) * 60.
Proof.
  intros h m.
  replace (h * 3600 + m * 60 + 0) with (m * 60 + (h * 4) * 900) by lia.
  rewrite Z_mod_plus_full.
  change 900 with (15 * 60).
  rewrite Z.mul_mod_distr_r by lia. reflexivity.
Qed.

(** The delay handed to the reactor is [seconds_to_sleep] plus the
    seconds already elapsed in the current minute. *)
Lemma wait_delay_seconds : forall now,
  wait_delay now = seconds_to_sleep now + second now.
Proof. intro now. unfold wait_delay, seconds_to_sleep. lia. Qed.

(** C3, as stated, fails: started at 09:47 the timer is armed for 10:00,
    the next quarter-hour boundary, and not for 09:50. *)
Lemma wait_at_0947_fires_at_1000 :
  wait_delay monday_0947 = 780 /\
  fire_time monday_0947 (wait_delay monday_0947) = (10, 0, 0) /\
  fire_time monday_0947 (wait_delay monday_0947) <> (9, 50, 0).
Proof. repeat split; try reflexivity. discriminate. Qed.

(** At 09:47:30 the armed delay is 780 s, thirty seconds more than the
    750 s that are left until 10:00. *)
Lemma wait_ignores_seconds :
  wait_delay monday_0947_30 = 780 /\
  seconds_until_boundary monday_0947_30 = 750 /\
  seconds_to_sleep monday_0947_30 = 750.
Proof. repeat split; reflexivity. Qed.

(** C3, amended: armed on a full minute (seconds field 0), the delay is
    exactly the number of seconds until the next quarter-hour boundary;
    started at 09:47:00 the timer fires at 10:00. *)
Theorem wait_delay_on_full_minute : forall now,
  second now = 0 ->
  wait_delay now = seconds_until_boundary now /\
  (hour now = 9 -> minute now = 47 ->
   fire_time now (wait_delay now) = (10, 0, 0)).
Proof.
  intros now Hs. split.
  - unfold wait_delay, seconds_until_boundary, minutes_to_sleep, time_of_day.
    rewrite Hs, quarter_hour_mod. lia.
  - intros Hh Hm. unfold fire_time, wait_delay, minutes_to_sleep, time_of_day.
    rewrite Hs, Hh, Hm. reflexivity.
Qed.

Lemma wait_delay_on_full_minute_witness :
  second monday_0947 = 0 /\
  wait_delay monday_0947 = seconds_until_boundary monday_0947.
Proof.
  split; [reflexivity|].
  exact (proj1 (wait_delay_on_full_minute monday_0947 eq_refl)).
Defined.

(* ================================================================== *)
(** ** Colours *)

Lemma not_positive_when_le_zero : forall x : float,
  PrimFloat.leb x 0%float = true -> PrimFloat.ltb 0%float x = false.
Proof.
  intros x H. rewrite leb_spec in H. rewrite ltb_spec.
  change (Prim2SF 0%float) with (S754_zero false) in *.
  destruct (Prim2SF x) as [s|s| |s m e]; try destruct s;
    try reflexivity; try discriminate.
Qed.

(** C9, as stated, fails: a change of exactly zero is non-negative, and
    it is coloured red. *)
Lemma colorize_zero_is_red :
  PrimFloat.ltb 0%float 0%float = false /\
  PrimFloat.leb 0%float 0%float = true /\
  is_green (colorize 0%float) = false /\
  colorize 0%float = LightRed [Fixed2 0%float; Lit "%"].
Proof. repeat split; reflexivity. Qed.

(** C9, amended: a percent change is coloured green exactly when it is
    strictly positive and red otherwise; in particular a change that is
    zero or negative is red. *)
Theorem colorize_sign : forall percentage : float,
  (is_green (colorize percentage) = true <->
   PrimFloat.ltb 0%float percentage = true) /\
  (is_red (colorize percentage) = true <->
   PrimFloat.ltb 0%float percentage = false) /\
  (PrimFloat.leb percentage 0%float = true ->
   colorize percentage = LightRed [Fixed2 percentage; Lit "%"]).
Proof.
  intro percentage. unfold colorize.
  repeat split; try (destruct (PrimFloat.ltb 0 percentage); simpl; congruence).
  intro H. now rewrite (not_positive_when_le_zero _ H).
Qed.

(* ================================================================== *)
(** ** Tick scheduler: stopping *)

Lemma nth_error_set_call_same : forall l h c,
  (h < List.length l)%nat -> nth_error (set_call h c l) h = Some c.
Proof.
  induction l as [|x l IH]; intros h c Hlt; simpl in Hlt; [lia|].
  destruct h as [|h]; simpl; [reflexivity|]. apply IH. lia.
Qed.

Lemma nth_error_set_call_other : forall l h h' c,
  h <> h' -> nth_error (set_call h c l) h' = nth_error l h'.
Proof.
  induction l as [|x l IH]; intros h h' c Hne.
  - now destruct h.
  - destruct h as [|h], h' as [|h']; simpl; try reflexivity; try congruence.
    apply IH. congruence.
Qed.

(** The invariant of the scheduler: [call_id] names a call that is
    pending or cancelled, and no other call is pending. *)
Definition one_timer (s : scheduler) : Prop :=
  exists h c,
    call_id s = Some h /\
    nth_error (calls s) h = Some c /\
    (call_status_of c = Pending \/ call_status_of c = Cancelled) /\
    forall h', h' <> h -> status_at s h' <> Some Pending.

Lemma one_timer_wait : forall now s,
  no_pending s -> one_timer (wait now s).
Proof.
  intros now s Hnp. unfold wait, callLater.
  exists (List.length (calls s)), (mk_call (wait_delay now) Pending).
  simpl. repeat split.
  - rewrite nth_error_app2 by lia. now rewrite Nat.sub_diag.
  - now left.
  - intros h' Hne. unfold status_at; simpl.
    destruct (Nat.lt_ge_cases h' (List.length (calls s))) as [Hlt|Hge].
    + rewrite nth_error_app1 by exact Hlt. apply Hnp.
    + rewrite nth_error_app2 by exact Hge.
      destruct (h' - List.length (calls s))%nat as [|[|k]] eqn:E;
        simpl; try discriminate. lia.
Qed.

Lemma one_timer_init : forall now, one_timer (init now).
Proof.
  intro now. apply one_timer_wait.
  intros h. unfold status_at; simpl. now destruct h.
Qed.

Lemma one_timer_fire : forall s h now,
  one_timer s -> status_at s h = Some Pending -> one_timer (fire h now s).
Proof.
  intros s h now (h0 & c & Hid & Hc & _ & Hothers) Hp.
  assert (h = h0) as ->.
  { destruct (Nat.eq_dec h h0) as [E|E]; [exact E|].
    now destruct (Hothers h E). }
  unfold fire. rewrite Hc. apply one_timer_wait.
  intros h'. unfold status_at; simpl.
  destruct (Nat.eq_dec h0 h') as [<-|Hne].
  - rewrite nth_error_set_call_same; [simpl; discriminate|].
    apply nth_error_Some. congruence.
  - rewrite nth_error_set_call_other by exact Hne.
    apply Hothers. congruence.
Qed.

Lemma close_one_timer : forall s,
  one_timer s ->
  exists s', close s = Ok s' /\ no_pending s' /\ close s' = Ok s' /\
             one_timer s'.
Proof.
  intros s (h & c & Hid & Hc & Hst & Hothers).
  destruct c as [d st]; simpl in Hst.
  destruct Hst as [-> | ->].
  - (* a pending timer is cancelled *)
    exists (mk_scheduler (set_call h (mk_call d Cancelled) (calls s))
                         (call_id s)).
    assert (Hlt : (h < List.length (calls s))%nat)
      by (apply nth_error_Some; congruence).
    assert (Hnp : no_pending
              (mk_scheduler (set_call h (mk_call d Cancelled) (calls s))
                            (call_id s))).
    { intros h'. unfold status_at; simpl.
      destruct (Nat.eq_dec h h') as [<-|Hne].
      - rewrite nth_error_set_call_same by exact Hlt. simpl; discriminate.
      - rewrite nth_error_set_call_other by exact Hne.
        apply Hothers. congruence. }
    repeat split.
    + unfold close. now rewrite Hid, Hc.
    + exact Hnp.
    + unfold close; simpl.
      now rewrite Hid, nth_error_set_call_same by exact Hlt.
    + exists h, (mk_call d Cancelled). simpl. repeat split.
      * exact Hid.
      * now apply nth_error_set_call_same.
      * now right.
      * intros h' _. apply Hnp.
  - (* a cancelled timer: [AlreadyCancelled] is caught, nothing changes *)
    exists s.
    assert (Hnp : no_pending s).
    { intros h'. destruct (Nat.eq_dec h' h) as [->|Hne].
      - unfold status_at. rewrite Hc. simpl; discriminate.
      - now apply Hothers. }
    assert (Hcl : close s = Ok s) by (unfold close; now rewrite Hid, Hc).
    repeat split; try assumption.
    exists h, (mk_call d Cancelled). simpl. repeat split; try assumption.
    now right.
Qed.

Lemma reachable_one_timer : forall s, reachable s -> one_timer s.
Proof.
  induction 1 as [now | s s' _ IH Hstep].
  - apply one_timer_init.
  - destruct Hstep as [s h now Hp | s s' Hclose].
    + now apply one_timer_fire.
    + destruct (close_one_timer s IH) as (s2 & Hc & _ & _ & Hinv).
      congruence.
Qed.

Lemma length_set_call : forall l h c,
  List.length (set_call h c l) = List.length l.
Proof.
  induction l as [|x l IH]; intros h c; [now destruct h|].
  destruct h; simpl; [reflexivity|]. now rewrite IH.
Qed.

(** What [close] returns on a scheduler with one timer: the same
    scheduler, the timer cancelled. *)
Lemma close_spec : forall s,
  one_timer s ->
  exists h c s',
    call_id s = Some h /\
    nth_error (calls s) h = Some c /\
    close s = Ok s' /\
    call_id s' = Some h /\
    nth_error (calls s') h = Some (mk_call (call_delay c) Cancelled) /\
    (forall h', h' <> h -> nth_error (calls s') h' = nth_error (calls s) h') /\
    no_pending s' /\
    (call_status_of c = Cancelled -> s' = s) /\
    close s' = Ok s'.
Proof.
  intros s (h & c & Hid & Hc & Hst & Hothers).
  assert (Hlt : (h < List.length (calls s))%nat)
    by (apply nth_error_Some; congruence).
  destruct c as [d st]; simpl in Hst.
  destruct Hst as [-> | ->].
  - exists h, (mk_call d Pending),
      (mk_scheduler (set_call h (mk_call d Cancelled) (calls s)) (call_id s)).
    split; [exact Hid|]. split; [exact Hc|].
    split; [unfold close; now rewrite Hid, Hc|].
    split; [exact Hid|].
    split; [now apply nth_error_set_call_same|].
    split; [intros h' Hne; apply nth_error_set_call_other; congruence|].
    split; [|split; [discriminate|]];
      [|unfold close; simpl;
        now rewrite Hid, nth_error_set_call_same by exact Hlt].
    intros h'. unfold status_at; simpl.
    destruct (Nat.eq_dec h h') as [<-|Hne].
    + rewrite nth_error_set_call_same by exact Hlt. simpl; discriminate.
    + rewrite nth_error_set_call_other by exact Hne.
      apply Hothers. congruence.
  - exists h, (mk_call d Cancelled), s.
    split; [exact Hid|]. split; [exact Hc|].
    split; [unfold close; now rewrite Hid, Hc|].
    split; [exact Hid|]. split; [exact Hc|].
    split; [reflexivity|].
    split; [|split; [reflexivity|unfold close; now rewrite Hid, Hc]].
    intros h'. destruct (Nat.eq_dec h' h) as [->|Hne].
    + unfold status_at. rewrite Hc. simpl; discriminate.
    + now apply Hothers.
Qed.

(** C8: in every state the scheduler reaches, [close] returns without
    raising, and what it returns is the same scheduler with the call
    that [call_id] names cancelled: [call_id] and every other call are
    as they were, and no call is pending any more.  On a timer that is
    already cancelled this changes nothing, so that closing a second
    time changes nothing either.  After the timer has fired,
    [tick] has armed a new call, and it is this new call that [close]
    cancels. *)
Theorem close_cancels_the_timer : forall s,
  reachable s ->
  (exists h c s',
     call_id s = Some h /\
     nth_error (calls s) h = Some c /\
     close s = Ok s' /\
     call_id s' = Some h /\
     nth_error (calls s') h = Some (mk_call (call_delay c) Cancelled) /\
     (forall h', h' <> h ->
                 nth_error (calls s') h' = nth_error (calls s) h') /\
     no_pending s' /\
     (call_status_of c = Cancelled -> s' = s) /\
     close s' = Ok s') /\
  (forall h now,
     status_at s h = Some Pending ->
     exists s',
       close (fire h now s) = Ok s' /\
       status_at (fire h now s) (List.length (calls s)) = Some Pending /\
       status_at s' (List.length (calls s)) = Some Cancelled /\
       status_at s' h = Some Called /\
       no_pending s').
Proof.
  intros s Hr. split.
  - apply close_spec. now apply reachable_one_timer.
  - intros h now Hp.
    assert (Hr' : reachable (fire h now s)).
    { apply reach_step with s; [exact Hr|]. now apply step_fire. }
    destruct (close_spec _ (reachable_one_timer _ Hr'))
      as (h1 & c1 & s' & Hid & Hc1 & Hclose & _ & Hat & Hkeep & Hnp & _ & _).
    unfold status_at in Hp.
    destruct (nth_error (calls s) h) as [c|] eqn:Hc; [|discriminate].
    assert (Hlt : (h < List.length (calls s))%nat)
      by (apply nth_error_Some; congruence).
    assert (Hfire : fire h now s =
      mk_scheduler
        (set_call h (mk_call (call_delay c) Called) (calls s) ++
         [mk_call (wait_delay now) Pending])
        (Some (List.length (calls s)))).
    { unfold fire, wait, callLater. rewrite Hc. cbn zeta.
      cbn [calls call_id]. now rewrite length_set_call. }
    rewrite Hfire in Hid, Hc1, Hkeep. cbn [calls call_id] in Hid, Hc1, Hkeep.
    injection Hid as <-.
    rewrite nth_error_app2 in Hc1 by (rewrite length_set_call; lia).
    rewrite length_set_call, Nat.sub_diag in Hc1. injection Hc1 as <-.
    exists s'. split; [exact Hclose|]. split; [|split; [|split]].
    + rewrite Hfire. unfold status_at. cbn [calls].
      rewrite nth_error_app2 by (rewrite length_set_call; lia).
      now rewrite length_set_call, Nat.sub_diag.
    + unfold status_at. now rewrite Hat.
    + unfold status_at. rewrite Hkeep by lia.
      rewrite nth_error_app1 by (rewrite length_set_call; exact Hlt).
      now rewrite nth_error_set_call_same.
    + exact Hnp.
Qed.

Lemma close_cancels_the_timer_witness :
  reachable (init monday_0930) /\
  exists s',
    close (fire 0 monday_0947 (init monday_0930)) = Ok s' /\
    status_at (fire 0 monday_0947 (init monday_0930)) 1 = Some Pending /\
    status_at s' 1 = Some Cancelled /\
    status_at s' 0 = Some Called /\
    no_pending s'.
Proof.
  split; [apply reach_init|].
  exact (proj2 (close_cancels_the_timer (init monday_0930)
                  (reach_init monday_0930))
               0%nat monday_0947 eq_refl).
Defined.

(** After the timer has fired, [close] is no no-op: it cancels the call
    that [tick] has armed; and on a handle that names a call that has
    run, a state the plugin does not reach, [close] raises. *)
Lemma close_after_fire_cancels_next_timer :
  fire 0 monday_0947 (init monday_0930) =
    mk_scheduler [mk_call 900 Called; mk_call 780 Pending] (Some 1%nat) /\
  close (fire 0 monday_0947 (init monday_0930)) =
    Ok (mk_scheduler [mk_call 900 Called; mk_call 780 Cancelled]
                     (Some 1%nat)) /\
  close (fire 0 monday_0947 (init monday_0930)) <>
    Ok (fire 0 monday_0947 (init monday_0930)) /\
  close (mk_scheduler [mk_call 900 Called] (Some 0%nat)) =
    Raise AlreadyCalled.
Proof.
  split; [reflexivity|]. split; [reflexivity|].
  split; [discriminate|reflexivity].
Qed.

(* ================================================================== *)
(** ** Closest guess: what the loop selects *)

(** Case analysis on a comparison of two mantissas. *)
Ltac cmp_pos a b :=
  let H := fresh "Hc" in
  pose proof (Pos.compare_spec a b) as H; unfold Pos.compare in H; destruct H.

(** The comparison of binary64 numbers: [a <= b < c] gives [a < c], and
    [a < b] excludes [b <= a]. *)
Lemma SFcompare_le_lt_trans : forall a b c,
  SFcompare a b = Some Lt \/ SFcompare a b = Some Eq ->
  SFcompare b c = Some Lt -> SFcompare a c = Some Lt.
Proof.
  intros [sa|sa| |sa ma ea] [sb|sb| |sb mb eb] [sc|sc| |sc mc ec];
    try destruct sa; try destruct sb; try destruct sc; simpl;
    intros [H1|H1] H2; try discriminate; try reflexivity;
    destruct (Z.compare_spec ea eb); destruct (Z.compare_spec eb ec);
    destruct (Z.compare_spec ea ec); try discriminate; try reflexivity;
    try lia; subst;
    cmp_pos ma mb; cmp_pos mb mc; cmp_pos ma mc;
    simpl in *; try discriminate; try reflexivity; try lia.
Qed.

Lemma SFcompare_lt_asym : forall a b,
  SFcompare a b = Some Lt -> SFcompare b a = Some Gt.
Proof.
  intros [sa|sa| |sa ma ea] [sb|sb| |sb mb eb];
    try destruct sa; try destruct sb; simpl; intro H;
    try discriminate; try reflexivity;
    destruct (Z.compare_spec ea eb); destruct (Z.compare_spec eb ea);
    try discriminate; try reflexivity; try lia; subst;
    cmp_pos ma mb; cmp_pos mb ma;
    simpl in *; try discriminate; try reflexivity; try lia.
Qed.

Lemma ltb_le_lt_trans : forall a b c : float,
  PrimFloat.leb a b = true -> PrimFloat.ltb b c = true ->
  PrimFloat.ltb a c = true.
Proof.
  intros a b c. rewrite leb_spec, !ltb_spec. unfold SFleb, SFltb.
  intros H1 H2.
  rewrite (SFcompare_le_lt_trans (Prim2SF a) (Prim2SF b) (Prim2SF c));
    [reflexivity| |].
  - destruct (SFcompare (Prim2SF a) (Prim2SF b)) as [[]|];
      auto; discriminate.
  - destruct (SFcompare (Prim2SF b) (Prim2SF c)) as [[]|];
      auto; discriminate.
Qed.

Lemma leb_false_of_ltb : forall a b : float,
  PrimFloat.ltb a b = true -> PrimFloat.leb b a = false.
Proof.
  intros a b. rewrite leb_spec, ltb_spec. unfold SFleb, SFltb. intro H.
  rewrite (SFcompare_lt_asym (Prim2SF a) (Prim2SF b)); [reflexivity|].
  destruct (SFcompare (Prim2SF a) (Prim2SF b)) as [[]|]; auto; discriminate.
Qed.

Lemma leb_of_ltb : forall a b : float,
  PrimFloat.ltb a b = true -> PrimFloat.leb a b = true.
Proof.
  intros a b. rewrite leb_spec, ltb_spec. unfold SFleb, SFltb.
  destruct (SFcompare (Prim2SF a) (Prim2SF b)) as [[]|]; auto; discriminate.
Qed.

(** The delta of a pair of the snapshot. *)
Definition delta_of (actual : float) (np : string * prediction) : float :=
  abs_delta actual (snd np).

(** The locals after the pair [(nick, p)] has taken the lead. *)
Definition leader (actual : float) (nick : string) (p : prediction) : closest :=
  mk_closest (Some (p_prediction p)) (Some (abs_delta actual p)) (Some nick).

(** [c] is the first pair of [items] with a minimal delta: no earlier
    pair has a delta as small, and no later pair a smaller one. *)
Definition first_minimum (actual : float) (items : list (string * prediction))
           (c : closest) : Prop :=
  exists before nick p after,
    items = before ++ (nick, p) :: after /\
    c = leader actual nick p /\
    Forall (fun np => PrimFloat.leb (delta_of actual np) (abs_delta actual p)
                      = false) before /\
    Forall (fun np => PrimFloat.ltb (delta_of actual np) (abs_delta actual p)
                      = false) after.

(** A prediction that is not exactly the actual price. *)
Definition inexact (actual : float) (np : string * prediction) : Prop :=
  float_truthy (delta_of actual np) = true.

Lemma keeps_first_minimum : forall actual rest before nick p after,
  Forall (fun np => PrimFloat.leb (delta_of actual np) (abs_delta actual p)
                    = false) before ->
  Forall (fun np => PrimFloat.ltb (delta_of actual np) (abs_delta actual p)
                    = false) after ->
  (rest <> [] -> float_truthy (abs_delta actual p) = true) ->
  Forall (inexact actual) (removelast rest) ->
  first_minimum actual (before ++ (nick, p) :: after ++ rest)
    (fold_left (fun c np => update_closest actual c (fst np) (snd np))
               rest (leader actual nick p)).
Proof.
  intros actual rest.
  induction rest as [|[nx px] rest IH];
    intros before nick p after Hbefore Hafter Htruthy Hrest.
  - exists before, nick, p, after. rewrite app_nil_r. now repeat split.
  - assert (HD : float_truthy (abs_delta actual p) = true)
      by (apply Htruthy; discriminate).
    assert (Hrest' : Forall (inexact actual) (removelast rest)).
    { destruct rest as [|y rest]; [constructor|].
      now inversion Hrest. }
    assert (Hnx : rest <> [] -> float_truthy (abs_delta actual px) = true).
    { intro Hne. destruct rest as [|y rest]; [congruence|].
      now inversion Hrest. }
    cbn [fold_left fst snd]. unfold update_closest at 2.
    rewrite (inexact_guess_is_replaced_by_smaller
               (leader actual nick p) (abs_delta actual p)
               (abs_delta actual px) eq_refl HD).
    destruct (PrimFloat.ltb (abs_delta actual px) (abs_delta actual p))
      eqn:Hlt.
    + (* the new pair takes the lead *)
      replace (before ++ (nick, p) :: after ++ (nx, px) :: rest)
        with ((before ++ (nick, p) :: after) ++ (nx, px) :: [] ++ rest)
        by (now rewrite <- app_assoc).
      apply IH; [|constructor|exact Hnx|exact Hrest'].
      apply Forall_app. split; [|constructor].
      * eapply Forall_impl; [|exact Hbefore].
        intros np Hnp. cbv beta in Hnp |- *.
        destruct (PrimFloat.leb (delta_of actual np) (abs_delta actual px))
          eqn:Hle; [|reflexivity].
        rewrite (leb_of_ltb _ _ (ltb_le_lt_trans _ _ _ Hle Hlt)) in Hnp.
        discriminate.
      * now apply leb_false_of_ltb.
      * eapply Forall_impl; [|exact Hafter].
        intros np Hnp. cbv beta in Hnp |- *.
        destruct (PrimFloat.leb (delta_of actual np) (abs_delta actual px))
          eqn:Hle; [|reflexivity].
        rewrite (ltb_le_lt_trans _ _ _ Hle Hlt) in Hnp. discriminate.
    + (* the leader stays *)
      replace (before ++ (nick, p) :: after ++ (nx, px) :: rest)
        with (before ++ (nick, p) :: (after ++ [(nx, px)]) ++ rest)
        by (now rewrite <- app_assoc).
      apply IH; [exact Hbefore| |intros _; exact HD|exact Hrest'].
      apply Forall_app. split; [exact Hafter|].
      constructor; [exact Hlt|constructor].
Qed.

(** X28: when no prediction, the last one iterated aside, is exactly the
    actual price, the loop ends with the first pair of minimal delta. *)
Theorem closest_guess_first_minimum : forall actual items,
  items <> [] ->
  Forall (inexact actual) (removelast items) ->
  first_minimum actual items (closest_guess actual items).
Proof.
  intros actual [|[nick p] rest] Hne Hinexact; [congruence|].
  unfold closest_guess. cbn [fold_left fst snd].
  change (update_closest actual no_closest nick p) with (leader actual nick p).
  apply (keeps_first_minimum actual rest [] nick p []).
  - constructor.
  - constructor.
  - intro Hrest. destruct rest as [|y rest]; [congruence|].
    now inversion Hinexact.
  - destruct rest as [|y rest]; [constructor|]. now inversion Hinexact.
Qed.

(* ================================================================== *)
(** ** The plugin on sample inputs *)

(** [float(s)] on the numerals the samples use. *)
Definition sample_float_of_str (s : string) : result float :=
  if String.eqb s "0" then Ok 0%float
  else if String.eqb s "5" then Ok 5%float
  else Raise ValueError.

Definition sample_strip_formatting (s : string) : string := s.

Definition sample_strftime (_ : datetime) : string :=
  "2020-01-06 09:30:00 EST".

Definition quote_body (symbol : string) (price previous_close change : float)
  : body :=
  JsonObject [("symbol", JStr symbol); ("latestPrice", JNum price);
              ("previousClose", JNum previous_close);
              ("changePercent", JNum change)].

(** A tick on which the request for AAA fails on the network, and BBB
    is quoted. *)
Definition requests_aaa_down (symbol : string) : result response :=
  if String.eqb symbol "AAA" then Raise RequestException
  else if String.eqb symbol "BBB"
       then Ok (mk_response 200 (quote_body "BBB" 50 40 0.25))
  else Ok (mk_response 404 NotJson).

(** A tick on which AAA is quoted at 100; the body for BBB is a JSON
    object without the quote's fields; CCC is answered 404 with a body
    that is not JSON; the request for [aapl] is answered with the quote
    of AAPL. *)
Definition requests_aaa_up (symbol : string) : result response :=
  if String.eqb symbol "AAA"
  then Ok (mk_response 200 (quote_body "AAA" 100 100 0.25))
  else if String.eqb symbol "BBB" then Ok (mk_response 200 (JsonObject []))
  else if String.eqb symbol "aapl"
       then Ok (mk_response 200 (quote_body "AAPL" 300 200 0.5))
  else Ok (mk_response 404 NotJson).

Definition sample_config : config :=
  mk_config "token" ["#stocks"] [("AAA", "Ay Corp"); ("BBB", "Bee Inc")] [].

Definition lowercase_config : config :=
  mk_config "token" ["#stocks"] [("aapl", "Apple")] [].

Definition sample_user : user_info := mk_user "u1" "user" "host".

Definition on (base guess : float) : prediction :=
  mk_prediction "2020-01-03 17:00:00 EST" base guess.

(** [u1] guesses the actual price of 100 exactly, [u2] is off by 50. *)
Definition exact_then_far : Dict.t prediction :=
  [("u1", on 100 100); ("u2", on 50 150)].

(** The predictions of the specification's example. *)
Definition spec_example : Dict.t prediction :=
  [("u1", on 100 105); ("u2", on 100 98)].

Definition sample_store : store :=
  [("AAA", exact_then_far); ("BBB", [("u3", on 40 44)])].

(* ------------------------------------------------------------------ *)
(** *** Closest guess *)

Lemma spec_example_first_minimum :
  spec_example <> [] /\
  first_minimum 100 spec_example (closest_guess 100 spec_example).
Proof.
  assert (Hne : spec_example <> []) by discriminate.
  split; [exact Hne|].
  apply (closest_guess_first_minimum 100 spec_example Hne).
  repeat constructor.
Defined.

(** C1, on the code: with predictions u1: 100 and u2: 150 against an
    actual price of 100, u1's delta is 0 and u2's is 50, yet the loop
    ends with u2 as the closest guess, and the summary sent to the
    channel names u2, which is not the first pair of minimal delta.
    On the specification's example (u1: 105, u2: 98) the loop picks
    u2, whose delta is the smaller one. *)
Lemma exact_guess_loses_the_lead :
  abs_delta 100 (on 100 100) = 0%float /\
  abs_delta 100 (on 50 150) = 50%float /\
  PrimFloat.ltb 50 0 = false /\
  closest_guess 100 exact_then_far =
    mk_closest (Some 150%float) (Some 50%float) (Some "u2") /\
  nth_error
    (trace (snd (do_predictions sample_float_of_str requests_aaa_up
                   sample_config monday_0930
                   (mk_world [("AAA", exact_then_far)] []))))
    3 =
  Some (SendMsg "#stocks"
          (summary_text monday_0930 "AAA" 100 2 (Some "u2")
                        150 200 100)) /\
  closest_nick (closest_guess 100 spec_example) = Some "u2" /\
  ~ first_minimum 100 exact_then_far (closest_guess 100 exact_then_far).
Proof.
  repeat split; try reflexivity.
  intros (before & nick & p & after & Hitems & Hc & Hbefore & _).
  change (closest_guess 100 exact_then_far)
    with (leader 100 "u2" (on 50 150)) in Hc.
  destruct before as [|x before]; inversion Hitems as [[Hx Hrest]].
  - subst. discriminate Hc.
  - destruct before as [|y before]; inversion Hrest as [[Hy Hrest']].
    + subst. inversion Hbefore as [|? ? Hle _]; subst. discriminate Hle.
    + destruct before; discriminate Hrest'.
Qed.

(* ------------------------------------------------------------------ *)
(** *** Resolution round *)

Lemma do_predictions_store_witness :
  In "AAA" (Dict.keys sample_store) /\
  In "BBB" (Dict.keys sample_store) /\
  Dict.get "AAA"
    (db (snd (do_predictions sample_float_of_str requests_aaa_up
                sample_config monday_0930 (mk_world sample_store []))))
  = None /\
  Dict.get "BBB"
    (db (snd (do_predictions sample_float_of_str requests_aaa_up
                sample_config monday_0930 (mk_world sample_store []))))
  = Dict.get "BBB" sample_store.
Proof.
  assert (Ha : In "AAA" (Dict.keys sample_store)) by (simpl; auto).
  assert (Hb : In "BBB" (Dict.keys sample_store)) by (simpl; auto).
  split; [exact Ha|]. split; [exact Hb|]. split.
  - destruct (do_predictions_store sample_float_of_str requests_aaa_up
                sample_config monday_0930 sample_store "AAA" Ha) as [H _].
    destruct (H (fetch_outcome sample_float_of_str requests_aaa_up "AAA"))
      as (_ & _ & Hgone).
    + vm_compute. left. reflexivity.
    + apply Hgone. reflexivity.
  - destruct (do_predictions_store sample_float_of_str requests_aaa_up
                sample_config monday_0930 sample_store "BBB" Hb) as [H _].
    destruct (H (fetch_outcome sample_float_of_str requests_aaa_up "BBB"))
      as (_ & Hkept & _).
    + vm_compute. do 6 right. left. reflexivity.
    + apply Hkept. reflexivity.
Defined.

(* ------------------------------------------------------------------ *)
(** *** Failure modes of a fetch *)

(** C4, on the code: a network failure and a body that is not JSON are
    raised to the caller, but a JSON body without the quote's fields is
    not: [get_daily] returns [None], and [check], which subscripts what
    it got, raises [TypeError] and sends nothing.  [do_predictions]
    keeps the subscript inside its [try] and skips the symbol. *)
Lemma check_crashes_on_missing_field :
  fetch_outcome sample_float_of_str requests_aaa_down "AAA"
    = Raise RequestException /\
  fetch_outcome sample_float_of_str requests_aaa_up "CCC"
    = Raise ValueError /\
  fetch_outcome sample_float_of_str requests_aaa_up "BBB" = Ok None /\
  check sample_float_of_str sample_strip_formatting requests_aaa_up
        sample_config sample_user "#stocks" (mk_check_match None "bbb")
        (mk_world [] []) =
    (Raise TypeError,
     mk_world [] [Logged LogError "BBB"; Fetched "BBB" (Ok None)]) /\
  fst (do_predictions sample_float_of_str requests_aaa_up sample_config
         monday_0930 (mk_world [("BBB", [("u3", on 40 44)])] [])) = Ok tt.
Proof. repeat split; reflexivity. Qed.

(* ------------------------------------------------------------------ *)
(** *** Broadcast *)

(** C5, as stated, fails: with the symbol configured as [aapl] and the
    quote naming AAPL, the fetch succeeds and the digest is empty. *)
Lemma digest_misses_renamed_symbol :
  Dict.keys (stocks lowercase_config) = ["aapl"] /\
  fetch_succeeded
    (fetch_outcome sample_float_of_str requests_aaa_up "aapl") = true /\
  send_ticker sample_float_of_str requests_aaa_up lowercase_config
              (mk_world [] []) =
    (Ok tt,
     mk_world []
       [Fetched "aapl" (Ok (Some (mk_quote (JStr "AAPL") 300 200 50)));
        SendMsg "#stocks" []]).
Proof. repeat split; reflexivity. Qed.

Lemma sample_echoes_symbol :
  echoes_symbol sample_float_of_str requests_aaa_down sample_config.
Proof.
  intros symbol q Hin Ho.
  simpl in Hin. destruct Hin as [<-|[<-|[]]].
  - discriminate Ho.
  - vm_compute in Ho. now inversion Ho.
Defined.

Lemma send_ticker_digest_witness :
  echoes_symbol sample_float_of_str requests_aaa_down sample_config /\
  digest sample_float_of_str requests_aaa_down sample_config =
    entry "Bee Inc" "BBB" 25 /\
  exists evs,
    send_ticker sample_float_of_str requests_aaa_down sample_config
                (mk_world [] []) =
    (Ok tt,
     mk_world []
       (evs ++ [SendMsg "#stocks"
                  (digest sample_float_of_str requests_aaa_down
                          sample_config)])) /\
    Forall not_send evs.
Proof.
  split; [exact sample_echoes_symbol|]. split; [reflexivity|].
  exact (send_ticker_digest sample_float_of_str requests_aaa_down
           sample_config (mk_world [] []) sample_echoes_symbol).
Defined.

(* ------------------------------------------------------------------ *)
(** *** Percentage predictions *)

(** C6, on the code: [!predict AAA +0%] matches [PREDICT_REGEX] with
    the percentage numeral 0; [parse_prediction] takes the branch marked
    "this shouldn't happen" and returns [None], and [predict] returns
    without storing a prediction or answering.  A prediction of -5% on
    a base of 100 is stored, as 100 - 5 * .01 * 100. *)
Lemma zero_percent_is_not_stored :
  parse_prediction sample_float_of_str sample_strip_formatting
    requests_aaa_up sample_config saturday_0930 sample_user
    (mk_predict_match None "aaa" (Some "+") (Some "0") None)
    (mk_world [] []) =
    (Ok None,
     mk_world []
       [Fetched "AAA" (Ok (Some (mk_quote (JStr "AAA") 100 100 25)));
        Logged LogWarning "No price or percentage"]) /\
  predict sample_float_of_str sample_strip_formatting sample_strftime
    requests_aaa_up sample_config saturday_0930 sample_user "#stocks"
    (mk_predict_match None "aaa" (Some "+") (Some "0") None)
    (mk_world [] []) =
    (Ok tt,
     mk_world []
       [Fetched "AAA" (Ok (Some (mk_quote (JStr "AAA") 100 100 25)));
        Logged LogWarning "No price or percentage"]) /\
  db (snd (predict sample_float_of_str sample_strip_formatting
             sample_strftime requests_aaa_up sample_config saturday_0930
             sample_user "#stocks"
             (mk_predict_match None "aaa" (Some "-") (Some "5") None)
             (mk_world [] []))) =
    [("AAA", [("u1", mk_prediction "2020-01-06 09:30:00 EST" 100
                       (100 - 5 * one_hundredth * 100)%float)])].
Proof. repeat split; reflexivity. Qed.

(* ------------------------------------------------------------------ *)
(** *** Summary message *)

(** On the sample [u1] has the closest guess, with a base price of 100;
    the summary shows the deltas against 50, the base price of [u2],
    the pair iterated last. *)
Definition near_then_far : Dict.t prediction :=
  [("u1", on 100 101); ("u2", on 50 150)].

Lemma summary_uses_last_base_witness :
  closest_nick (closest_guess 100 near_then_far) = Some "u1" /\
  Dict.get "u1" near_then_far = Some (on 100 101) /\
  p_base (on 100 101) <> p_base (on 50 150) /\
  exists guess d_guess d_actual,
    get_delta guess (p_base (on 50 150)) = Ok d_guess /\
    get_delta 100 (p_base (on 50 150)) = Ok d_actual /\
    In (SendMsg "#stocks"
          (summary_text monday_0930 "AAA" 100 2 (Some "u1")
                        guess d_guess d_actual))
       (trace (snd (report sample_config monday_0930 "AAA" 100
                      near_then_far None (mk_world [] [])))).
Proof.
  split; [reflexivity|]. split; [reflexivity|].
  split; [simpl; intro H; discriminate H|].
  destruct (summary_uses_last_base sample_config monday_0930 "AAA" 100
              near_then_far [("u1", on 100 101)] "u2" (on 50 150) None
              (mk_world [] []) (Some (on 50 150))
              (snd (report sample_config monday_0930 "AAA" 100
                      near_then_far None (mk_world [] []))))
    as (guess & d_guess & d_actual & w1 & Hg & Hd1 & Hd2 & _ & _ & Htr).
  - reflexivity.
  - discriminate.
  - reflexivity.
  - exists guess, d_guess, d_actual.
    split; [exact Hd1|]. split; [exact Hd2|].
    rewrite Htr. apply in_or_app. right. simpl. left.
    reflexivity.
Defined.

(* ================================================================== *)
(** ** Market clock: the session hours *)

(** X1: with a minute field between 0 and 59, [market_is_open] holds
    exactly on Monday to Friday from 09:30 to 16:00, both ends
    included (570 to 960 minutes after midnight). *)
Theorem market_open_hours : forall now,
  0 <= minute now <= 59 ->
  (market_is_open now = true <->
   is_weekday now /\ 570 <= hour now * 60 + minute now <= 960).
Proof.
  intros now Hm. unfold market_is_open, is_weekday.
  rewrite negb_true_iff, !orb_false_iff, !andb_false_iff.
  rewrite Z.geb_leb, Z.leb_gt, Z.ltb_ge, Z.geb_leb, Z.leb_gt.
  rewrite !Z.eqb_neq, Z.ltb_ge, Z.gtb_ltb, Z.ltb_ge.
  split.
  - intros [[[Hw [H9 H17]] H930] H16]. split; [exact Hw|]. split.
    + destruct H930 as [H|H]; lia.
    + destruct H16 as [H|H]; lia.
  - intros [Hw [Hlo Hhi]]. repeat split; lia.
Qed.

Lemma market_open_hours_witness :
  0 <= minute monday_0930 <= 59 /\ market_is_open monday_0930 = true.
Proof.
  assert (Hm : 0 <= minute monday_0930 <= 59) by (simpl; lia).
  split; [exact Hm|].
  apply (proj2 (market_open_hours monday_0930 Hm)).
  unfold is_weekday; simpl. lia.
Defined.

(* ================================================================== *)
(** ** Tick scheduler: how far the timer is armed *)

Lemma quarter_hour_mod_seconds : forall h m s,
  0 <= s <= 59 ->
  (h * 3600 + m * 60 + s) mod 900 = (m mod 15) * 60 + s.
Proof.
  intros h m s Hs.
  pose proof (Z.div_mod m 15 ltac:(lia)) as Hdm.
  pose proof (Z.mod_pos_bound m 15 ltac:(lia)) as Hb.
  replace (h * 3600 + m * 60 + s)
    with (((m mod 15) * 60 + s) + (h * 4 + m / 15) * 900) by lia.
  rewrite Z_mod_plus_full. apply Z.mod_small. lia.
Qed.

(** X2: whatever the minute, the delay [wait] arms is between one and
    fifteen minutes, and it ends on a minute that is a multiple of 15;
    with a seconds field between 0 and 59 it is longer than the time
    left until the next quarter-hour boundary by exactly the seconds
    already elapsed in the current minute. *)
Theorem wait_delay_bounds : forall now,
  0 <= second now <= 59 ->
  60 <= wait_delay now <= 900 /\
  (minute now + minutes_to_sleep now) mod 15 = 0 /\
  wait_delay now = seconds_until_boundary now + second now.
Proof.
  intros now Hs.
  pose proof (Z.mod_pos_bound (minute now) 15 ltac:(lia)) as Hb.
  unfold wait_delay, minutes_to_sleep, seconds_until_boundary, time_of_day.
  split; [lia|]. split.
  - pose proof (Z.div_mod (minute now) 15 ltac:(lia)) as Hdm.
    replace (minute now + (15 - minute now mod 15))
      with ((minute now / 15 + 1) * 15) by lia.
    apply Z_mod_mult.
  - rewrite quarter_hour_mod_seconds by exact Hs. lia.
Qed.

Lemma wait_delay_bounds_witness :
  0 <= second monday_0947_30 <= 59 /\
  wait_delay monday_0947_30 = seconds_until_boundary monday_0947_30 + 30.
Proof.
  assert (Hs : 0 <= second monday_0947_30 <= 59) by (simpl; lia).
  split; [exact Hs|].
  exact (proj2 (proj2 (wait_delay_bounds monday_0947_30 Hs))).
Defined.

(* ================================================================== *)
(** ** Tick scheduler: one timer at a time *)

(** X3: in every state the scheduler reaches, at most one delayed call
    is pending, and it is the one [call_id] names. *)
Theorem at_most_one_pending : forall s,
  reachable s ->
  (forall h h', status_at s h = Some Pending ->
                status_at s h' = Some Pending -> h = h') /\
  (forall h, status_at s h = Some Pending -> call_id s = Some h).
Proof.
  intros s Hr.
  destruct (reachable_one_timer s Hr) as (h0 & c & Hid & _ & _ & Hothers).
  assert (Honly : forall h, status_at s h = Some Pending -> h = h0).
  { intros h Hp. destruct (Nat.eq_dec h h0) as [E|E]; [exact E|].
    now destruct (Hothers h E). }
  split.
  - intros h h' Hp Hp'. now rewrite (Honly h Hp), (Honly h' Hp').
  - intros h Hp. now rewrite (Honly h Hp).
Qed.

Lemma at_most_one_pending_witness :
  reachable (fire 0 monday_0947 (init monday_0930)) /\
  call_id (fire 0 monday_0947 (init monday_0930)) = Some 1%nat.
Proof.
  assert (Hr : reachable (fire 0 monday_0947 (init monday_0930))).
  { apply reach_step with (init monday_0930).
    - apply reach_init.
    - apply step_fire. reflexivity. }
  split; [exact Hr|].
  apply (proj2 (at_most_one_pending _ Hr) 1%nat). reflexivity.
Defined.

(** X4: when the reactor fires the pending call, that call is marked as
    called and exactly one new call is armed, with the delay of [wait];
    the plugin's [call_id] names the new call. *)
Theorem fire_rearms : forall s h now,
  status_at s h = Some Pending ->
  status_at (fire h now s) h = Some Called /\
  call_id (fire h now s) = Some (List.length (calls s)) /\
  nth_error (calls (fire h now s)) (List.length (calls s)) =
    Some (mk_call (wait_delay now) Pending) /\
  List.length (calls (fire h now s)) = S (List.length (calls s)).
Proof.
  intros s h now Hp. unfold status_at in Hp.
  destruct (nth_error (calls s) h) as [c|] eqn:Hc; [|discriminate].
  assert (Hlt : (h < List.length (calls s))%nat)
    by (apply nth_error_Some; congruence).
  assert (Hlen : forall c',
    List.length (set_call h c' (calls s)) = List.length (calls s)).
  { intro c'. clear Hc Hp. revert h Hlt.
    induction (calls s) as [|x l IH]; intros h Hlt; [now destruct h|].
    destruct h; simpl; [reflexivity|]. rewrite IH; [reflexivity|].
    simpl in Hlt. lia. }
  unfold fire, wait, callLater, status_at. rewrite Hc. cbn zeta.
  cbn [calls call_id]. rewrite Hlen.
  split; [|split; [reflexivity|split]].
  - rewrite nth_error_app1 by (rewrite Hlen; exact Hlt).
    now rewrite nth_error_set_call_same.
  - rewrite nth_error_app2 by (rewrite Hlen; lia).
    now rewrite Hlen, Nat.sub_diag.
  - rewrite length_app, Hlen. simpl. lia.
Qed.

Lemma fire_rearms_witness :
  status_at (init monday_0930) 0 = Some Pending /\
  status_at (fire 0 monday_0947 (init monday_0930)) 0 = Some Called.
Proof.
  split; [reflexivity|].
  exact (proj1 (fire_rearms (init monday_0930) 0%nat monday_0947 eq_refl)).
Defined.

(** X5: once [close] has returned, the scheduler is at rest: no call can
    fire any more, and the only step left, closing again, changes
    nothing. *)
Theorem closed_scheduler_stays_closed : forall s s' s'',
  reachable s ->
  close s = Ok s' ->
  step s' s'' ->
  s'' = s' /\ no_pending s'.
Proof.
  intros s s' s'' Hr Hclose Hstep.
  destruct (close_one_timer s (reachable_one_timer s Hr))
    as (s0 & H0 & Hnp & Hagain & _).
  assert (s0 = s') by congruence. subst s0.
  split; [|exact Hnp].
  destruct Hstep as [s1 h now Hp | s1 s2 Hc].
  - now destruct (Hnp h).
  - congruence.
Qed.

Lemma closed_scheduler_stays_closed_witness :
  reachable (init monday_0930) /\
  close (init monday_0930) =
    Ok (mk_scheduler [mk_call 900 Cancelled] (Some 0%nat)) /\
  no_pending (mk_scheduler [mk_call 900 Cancelled] (Some 0%nat)).
Proof.
  split; [apply reach_init|]. split; [reflexivity|].
  refine (proj2 (closed_scheduler_stays_closed (init monday_0930)
                   (mk_scheduler [mk_call 900 Cancelled] (Some 0%nat))
                   (mk_scheduler [mk_call 900 Cancelled] (Some 0%nat))
                   (reach_init monday_0930) eq_refl _)).
  apply step_close. reflexivity.
Defined.

(* ================================================================== *)
(** ** The tick *)

(** The body of [tick] after [self.wait()].  [now] is the reading of the
    clock that [tick] classifies.  The resolution round reads the clock
    again, in [market_is_open()], after the broadcast and the pause of
    60 seconds: [later] is that reading. *)
Definition tick (float_of_str : string -> result float)
           (requests_get : string -> result response) (cfg : config)
           (now later : datetime) : M unit :=
  let ts := classify now in
  let should_send_ticker :=
    is_market_open ts &&
    negb (Nat.eqb (List.length (channels cfg)) 0) &&
    negb (Nat.eqb (List.length (config_stocks cfg)) 0) in
  (if should_send_ticker
   then send_ticker float_of_str requests_get cfg
   else ret tt) ;;;
  (if should_do_predictions ts
   then sleep 60 ;;; do_predictions float_of_str requests_get cfg later
   else ret tt).

(** Outside market hours a tick sends nothing and resolves nothing. *)
Lemma tick_outside_hours :
  forall float_of_str requests_get cfg now later w,
    market_is_open now = false ->
    tick float_of_str requests_get cfg now later w = (Ok tt, w).
Proof.
  intros float_of_str requests_get cfg now later w H. unfold tick.
  assert (Hs : should_do_predictions (classify now) = false).
  { unfold classify; simpl. fold (market_is_open now). now rewrite H. }
  rewrite Hs, classify_market_is_open, H. reflexivity.
Qed.

(** The reading [later] is taken [d] seconds after [now], on the same
    day. *)
Definition seconds_later (now later : datetime) (d : Z) : Prop :=
  weekday later = weekday now /\
  time_of_day later = time_of_day now + d /\
  0 <= second now <= 59 /\
  0 <= minute later <= 59 /\
  0 <= second later <= 59.

Lemma open_weekday : forall t, market_is_open t = true -> weekday t < 5.
Proof.
  intros t H. unfold market_is_open in H.
  destruct (Z.ltb_spec (weekday t) 5) as [Hlt|Hge]; [exact Hlt|].
  rewrite Z.geb_leb in H.
  apply Z.leb_le in Hge. now rewrite Hge in H.
Qed.

(** The test of [market_is_open] on a weekday, by the minute of the day. *)
Lemma open_on_weekday : forall t,
  weekday t < 5 -> 0 <= minute t <= 59 ->
  market_is_open t = ((570 <=? hour t * 60 + minute t) &&
                      (hour t * 60 + minute t <=? 960)).
Proof.
  intros t Hwd Hm. unfold market_is_open.
  rewrite !Z.geb_leb, Z.gtb_ltb.
  destruct (Z.leb_spec 5 (weekday t)); [lia|].
  destruct (Z.ltb_spec (hour t) 9), (Z.leb_spec 17 (hour t)),
           (Z.eqb_spec (hour t) 9), (Z.ltb_spec (minute t) 30),
           (Z.eqb_spec (hour t) 16), (Z.ltb_spec 0 (minute t)),
           (Z.leb_spec 570 (hour t * 60 + minute t)),
           (Z.leb_spec (hour t * 60 + minute t) 960);
    simpl; try reflexivity; lia.
Qed.

(** X23: on a boundary tick (a weekday at 09:30 or 16:00) the tick
    broadcasts if channels and stocks are configured, pauses 60 seconds
    and runs the resolution round.  The round reads the clock anew: when
    that reading is between one minute and one hour after the tick's,
    the round labels its actual values "open" after the 09:30 tick and
    "close" after the 16:00 tick. *)
Theorem boundary_tick_labels_round :
  forall float_of_str requests_get cfg now later d w,
    should_do_predictions (classify now) = true ->
    seconds_later now later d ->
    60 <= d <= 3600 ->
    tick float_of_str requests_get cfg now later w =
    ((match channels cfg, config_stocks cfg with
      | _ :: _, _ :: _ => send_ticker float_of_str requests_get cfg
      | _, _ => ret tt
      end) ;;;
     sleep 60 ;;;
     do_predictions float_of_str requests_get cfg later) w /\
    (is_open (classify now) = true -> market_open_close later = "open") /\
    (is_close (classify now) = true -> market_open_close later = "close").
Proof.
  intros float_of_str requests_get cfg now later d w Hdo
         (Hday & Htime & Hsec & Hmin & Hsec') Hd.
  assert (Hopen : market_is_open now = true).
  { unfold classify in Hdo; simpl in Hdo. fold (market_is_open now) in Hdo.
    now destruct (market_is_open now). }
  assert (Hwd : weekday later < 5)
    by (rewrite Hday; now apply open_weekday).
  unfold time_of_day in Htime.
  split; [|split].
  - unfold tick. rewrite Hdo, classify_market_is_open, Hopen.
    now destruct (channels cfg), (config_stocks cfg).
  - unfold classify; simpl. intro Hat.
    apply andb_true_iff in Hat. destruct Hat as [Hh Hm].
    apply Z.eqb_eq in Hh. apply Z.eqb_eq in Hm.
    rewrite Hh, Hm in Htime.
    unfold market_open_close. rewrite (open_on_weekday later Hwd Hmin).
    destruct (Z.leb_spec 570 (hour later * 60 + minute later)); [|lia].
    destruct (Z.leb_spec (hour later * 60 + minute later) 960); [|lia].
    reflexivity.
  - unfold classify; simpl. intro Hat.
    apply andb_true_iff in Hat. destruct Hat as [Hh Hm].
    apply Z.eqb_eq in Hh. apply Z.eqb_eq in Hm.
    rewrite Hh, Hm in Htime.
    unfold market_open_close. rewrite (open_on_weekday later Hwd Hmin).
    destruct (Z.leb_spec (hour later * 60 + minute later) 960); [lia|].
    now rewrite andb_false_r.
Qed.

Definition monday_1600 : datetime := mk_datetime 0 16 0 0.
Definition monday_1601 : datetime := mk_datetime 0 16 1 5.

Lemma boundary_tick_labels_round_witness :
  is_close (classify monday_1600) = true /\
  market_open_close monday_1600 = "open" /\
  market_open_close monday_1601 = "close".
Proof.
  split; [reflexivity|]. split; [reflexivity|].
  refine (proj2 (proj2 (boundary_tick_labels_round
                          sample_float_of_str requests_aaa_up sample_config
                          monday_1600 monday_1601 65
                          (mk_world sample_store []) eq_refl _ _))
                eq_refl).
  - repeat split; simpl; lia.
  - lia.
Defined.

(* ================================================================== *)
(** ** The fetcher and the status code *)

(** Two answers to a request that differ at most in the status code. *)
Definition same_body (a b : result response) : Prop :=
  match a, b with
  | Ok r1, Ok r2 => resp_body r1 = resp_body r2
  | Raise e1, Raise e2 => e1 = e2
  | _, _ => False
  end.

(** X24: the fetcher never looks at the status code: two answers with the
    same body settle in the same way, and leave the same trace. *)
Theorem fetch_ignores_status :
  forall float_of_str requests1 requests2 symbol w,
    same_body (requests1 symbol) (requests2 symbol) ->
    get_daily float_of_str requests1 symbol w =
    get_daily float_of_str requests2 symbol w.
Proof.
  intros float_of_str requests1 requests2 symbol w Hsame.
  unfold get_daily, make_iex_request, mbind, lift, response_json.
  unfold same_body in Hsame.
  destruct (requests1 symbol) as [r1|e1], (requests2 symbol) as [r2|e2];
    try contradiction.
  - now rewrite Hsame.
  - now subst.
Qed.

(** The same quote of AAA, answered with status 500. *)
Definition requests_aaa_500 (symbol : string) : result response :=
  Ok (mk_response 500 (quote_body "AAA" 100 100 0.25)).

Lemma fetch_ignores_status_witness :
  get_daily sample_float_of_str requests_aaa_up "AAA" (mk_world [] []) =
  get_daily sample_float_of_str requests_aaa_500 "AAA" (mk_world [] []).
Proof.
  apply (fetch_ignores_status sample_float_of_str requests_aaa_up
           requests_aaa_500 "AAA" (mk_world [] [])).
  reflexivity.
Defined.

(* ================================================================== *)
(** ** Closest guess: whom the summary names *)

Lemma fold_update_closest_member : forall actual rest all c,
  (exists nick p, In (nick, p) all /\ c = leader actual nick p) ->
  incl rest all ->
  exists nick p,
    In (nick, p) all /\
    fold_left (fun c np => update_closest actual c (fst np) (snd np)) rest c
    = leader actual nick p.
Proof.
  intros actual rest all. induction rest as [|[n q] rest IH]; intros c Hc Hincl.
  - exact Hc.
  - cbn [fold_left fst snd]. apply IH.
    + unfold update_closest. destruct (replaces c (abs_delta actual q)).
      * exists n, q. split; [apply Hincl; now left|reflexivity].
      * exact Hc.
    + intros x Hx. apply Hincl. now right.
Qed.

(** X25: whatever the deltas, the loop over a snapshot that is not empty
    ends with the nick, the guess and the delta of one and the same
    submitter of the snapshot. *)
Theorem closest_guess_names_a_submitter : forall actual items,
  items <> [] ->
  exists nick p,
    In (nick, p) items /\
    closest_guess actual items = leader actual nick p.
Proof.
  intros actual [|[n q] rest] Hne; [congruence|].
  unfold closest_guess. cbn [fold_left fst snd].
  change (update_closest actual no_closest n q) with (leader actual n q).
  apply fold_update_closest_member.
  - exists n, q. split; [now left|reflexivity].
  - intros x Hx. now right.
Qed.

Lemma closest_guess_names_a_submitter_witness :
  exists nick p,
    In (nick, p) exact_then_far /\
    closest_guess 100 exact_then_far = leader 100 nick p.
Proof.
  apply (closest_guess_names_a_submitter 100 exact_then_far).
  discriminate.
Defined.

(* ================================================================== *)
(** ** Construction *)

(** The configuration as it is handed to [__init__]: a dict in which any
    of the four keys may be missing, and the API key may be [None]. *)
Record raw_config : Type := mk_raw_config {
  raw_api_key : option (option string);
  raw_channels : option (list string);
  raw_stocks : option (list (string * string));
  raw_relay_bots : option (list (Dict.t (option string)))
}.

(** [{}] *)
Definition empty_config : raw_config := mk_raw_config None None None None.

(** [d.setdefault(key, default)], then [d[key]] *)
Definition setdefault {A} (value : option A) (default : A) : A :=
  match value with
  | Some v => v
  | None => default
  end.

(** [user_info(relay_bot['nick'], relay_bot['user'], relay_bot['vhost'])] *)
Definition relay_bot_of (raw : Dict.t (option string)) : result relay_bot :=
  do nick <- Dict.lookup "nick" raw;
  do user <- Dict.lookup "user" raw;
  do vhost <- Dict.lookup "vhost" raw;
  Ok (mk_relay_bot nick user vhost).

(** [for relay_bot in self.config['relay_bots']: ... append(user)] *)
Fixpoint build_relay_bots (raws : list (Dict.t (option string)))
  : result (list relay_bot) :=
  match raws with
  | [] => Ok []
  | raw :: rest =>
      do bot <- relay_bot_of raw;
      do bots <- build_relay_bots rest;
      Ok (bot :: bots)
  end.

Definition no_channels_warning : string :=
  "No channels for ticker defined in config --ticker will be disabled".

Definition no_stocks_warning : string :=
  "No stocks for ticker defined in config -- ticker will be disabled".

(** [__init__]: the configuration with its defaults, the two warnings,
    the two checks, the relay bots, and the first timer.  The store is
    the one the bot hands out ([cardinal.get_db]). *)
Definition plugin_init (raw : option raw_config) (now : datetime)
  : M (config * scheduler) :=
  let c := match raw with Some c => c | None => empty_config end in
  let key := setdefault (raw_api_key c) None in
  let chans := setdefault (raw_channels c) [] in
  let pairs := setdefault (raw_stocks c) [] in
  let raws := setdefault (raw_relay_bots c) [] in
  (match chans with
   | [] => emit (Logged LogWarning no_channels_warning)
   | _ => ret tt
   end) ;;;
  (match pairs with
   | [] => emit (Logged LogWarning no_stocks_warning)
   | _ => ret tt
   end) ;;;
  (if opt_string_truthy key then ret tt else raise KeyError) ;;;
  (if (5 <? List.length pairs)%nat then raise ValueError else ret tt) ;;;
  bots <- lift (build_relay_bots raws) ;;
  ret (mk_config (setdefault key "") chans pairs bots, init now).

(** The warnings of [__init__], which come before its checks. *)
Definition init_warnings (raw : option raw_config) : list event :=
  let c := match raw with Some c => c | None => empty_config end in
  (match setdefault (raw_channels c) [] with
   | [] => [Logged LogWarning no_channels_warning]
   | _ => []
   end) ++
  (match setdefault (raw_stocks c) [] with
   | [] => [Logged LogWarning no_stocks_warning]
   | _ => []
   end).

Definition configured_key (raw : option raw_config) : option string :=
  match raw with
  | Some c => setdefault (raw_api_key c) None
  | None => None
  end.

Definition configured_stocks (raw : option raw_config)
  : list (string * string) :=
  match raw with
  | Some c => setdefault (raw_stocks c) []
  | None => []
  end.

Lemma plugin_init_warnings : forall raw now w,
  exists r,
    plugin_init raw now w =
    (r, mk_world (db w) (trace w ++ init_warnings raw)).
Proof.
  intros raw now w. unfold plugin_init, init_warnings.
  set (c := match raw with Some c => c | None => empty_config end).
  unfold mbind, emit, ret, raise, lift.
  destruct (setdefault (raw_channels c) []) as [|ch chs],
           (setdefault (raw_stocks c) []) as [|st sts];
    cbn [db trace];
    destruct (opt_string_truthy (setdefault (raw_api_key c) None));
    try (destruct (5 <? _)%nat);
    try (destruct (build_relay_bots _));
    cbn [app]; rewrite <- ?app_assoc, ?app_nil_r; cbn [app];
    destruct w; eexists; reflexivity.
Qed.

(** X26: a configuration without an API key ([None], a missing key, an
    empty string, or no configuration at all) is refused with
    [KeyError], also when it lists more than five stocks; with a key,
    more than five stocks are refused with [ValueError].  Either way
    the warnings about missing channels or stocks have been logged by
    then, and the store is as it was. *)
Theorem plugin_init_rejects : forall raw now w,
  (opt_string_truthy (configured_key raw) = false ->
   plugin_init raw now w =
   (Raise KeyError, mk_world (db w) (trace w ++ init_warnings raw))) /\
  (opt_string_truthy (configured_key raw) = true ->
   (5 < List.length (configured_stocks raw))%nat ->
   plugin_init raw now w =
   (Raise ValueError, mk_world (db w) (trace w ++ init_warnings raw))).
Proof.
  intros raw now w.
  destruct (plugin_init_warnings raw now w) as (r & Hr). rewrite Hr.
  assert (Hfst : fst (plugin_init raw now w) = r) by now rewrite Hr.
  clear Hr. unfold plugin_init in Hfst.
  assert (Hkey : configured_key raw =
                 setdefault (raw_api_key
                   match raw with Some c => c | None => empty_config end)
                   None) by now destruct raw.
  assert (Hst : configured_stocks raw =
                setdefault (raw_stocks
                  match raw with Some c => c | None => empty_config end)
                  []) by now destruct raw.
  rewrite Hkey, Hst.
  set (c := match raw with Some c => c | None => empty_config end) in *.
  unfold mbind, emit, ret, raise, lift in Hfst.
  split.
  - intro Hno. rewrite Hno in Hfst.
    destruct (setdefault (raw_channels c) []),
             (setdefault (raw_stocks c) []); simpl in Hfst; now subst.
  - intros Hyes Hmany. rewrite Hyes in Hfst.
    apply Nat.ltb_lt in Hmany. rewrite Hmany in Hfst.
    destruct (setdefault (raw_channels c) []),
             (setdefault (raw_stocks c) []); simpl in Hfst; now subst.
Qed.

Lemma forallb_false_exists : forall A (f : A -> bool) l,
  forallb f l = false -> exists x, In x l /\ f x = false.
Proof.
  intros A f. induction l as [|x l IH]; simpl; [discriminate|].
  destruct (f x) eqn:Hx; simpl.
  - intro H. destruct (IH H) as (y & Hy & Hfy). exists y. split;
      [now right|exact Hfy].
  - intros _. exists x. split; [now left|exact Hx].
Qed.

Lemma no_fetch_in_messages : forall (chs : list string) message,
  filter is_fetch (map (fun channel => SendMsg channel message) chs) = [].
Proof. induction chs as [|ch chs IH]; intro message; simpl; auto. Qed.

(** A broadcast fetches each symbol of [stocks] once, whether it then
    sends its message or raises. *)
Lemma send_ticker_fetches :
  forall float_of_str requests_get cfg w,
  exists r evs,
    send_ticker float_of_str requests_get cfg w =
    (r, mk_world (db w) (trace w ++ evs)) /\
    List.length (filter is_fetch evs) = List.length (Dict.keys (stocks cfg)).
Proof.
  intros float_of_str requests_get cfg w.
  destruct (flat_map_deferred_events float_of_str requests_get cfg
              (Dict.keys (stocks cfg))) as [_ Hc].
  destruct (forallb (carries_hashable float_of_str requests_get)
                    (Dict.keys (stocks cfg))) eqn:Hall.
  - destruct (send_ticker_trace float_of_str requests_get cfg w)
      as (message & Hsend).
    { intros symbol Hin.
      now apply (proj1 (forallb_forall _ _) Hall). }
    eexists _, _. split; [exact Hsend|].
    now rewrite filter_app, no_fetch_in_messages, app_nil_r.
  - apply forallb_false_exists in Hall.
    destruct Hall as (symbol & Hin & Hno).
    eexists _, _. split;
      [exact (send_ticker_raises float_of_str requests_get cfg w symbol
                Hin Hno)|exact Hc].
Qed.

(** X27: a plugin that was constructed has an API key, at most five
    stocks and exactly one timer, armed with the delay of [wait]; so
    each of its broadcasts, in any environment and whether it returns
    or raises, performs at most five fetches and leaves the store
    alone. *)
Theorem constructed_plugin_fetches_at_most_five :
  forall raw now w cfg s w',
    plugin_init raw now w = (Ok (cfg, s), w') ->
    api_key cfg <> "" /\
    (List.length (config_stocks cfg) <= 5)%nat /\
    s = mk_scheduler [mk_call (wait_delay now) Pending] (Some 0%nat) /\
    forall float_of_str requests_get w0,
    exists r evs,
      send_ticker float_of_str requests_get cfg w0 =
      (r, mk_world (db w0) (trace w0 ++ evs)) /\
      (List.length (filter is_fetch evs) <= 5)%nat.
Proof.
  intros raw now w cfg s w' Hinit.
  assert (Hfst : fst (plugin_init raw now w) = Ok (cfg, s))
    by now rewrite Hinit.
  clear Hinit. unfold plugin_init in Hfst.
  set (c := match raw with Some c => c | None => empty_config end) in *.
  unfold mbind, emit, ret, raise, lift in Hfst.
  assert (Hrest :
    opt_string_truthy (setdefault (raw_api_key c) None) = true /\
    (5 <? List.length (setdefault (raw_stocks c) []))%nat = false /\
    exists bots,
      cfg = mk_config (setdefault (setdefault (raw_api_key c) None) "")
              (setdefault (raw_channels c) [])
              (setdefault (raw_stocks c) []) bots /\
      s = init now).
  { destruct (opt_string_truthy (setdefault (raw_api_key c) None)),
             (5 <? List.length (setdefault (raw_stocks c) []))%nat,
             (build_relay_bots (setdefault (raw_relay_bots c) []))
      as [bots|e];
      destruct (setdefault (raw_channels c) []),
               (setdefault (raw_stocks c) []);
      simpl in Hfst; try discriminate;
      (split; [reflexivity|]; split; [reflexivity|]);
      exists bots; split; congruence. }
  destruct Hrest as (Hkey & Hfive & bots & -> & ->).
  apply Nat.ltb_ge in Hfive.
  split; [|split; [exact Hfive|split; [reflexivity|]]].
  - cbn [api_key]. destruct (setdefault (raw_api_key c) None) as [k|];
      [|discriminate].
    simpl in Hkey. apply negb_true_iff in Hkey.
    now apply String.eqb_neq in Hkey.
  - intros float_of_str requests_get w0.
    set (cfg := mk_config (setdefault (setdefault (raw_api_key c) None) "")
                  (setdefault (raw_channels c) [])
                  (setdefault (raw_stocks c) []) bots) in *.
    destruct (send_ticker_fetches float_of_str requests_get cfg w0)
      as (r & evs & Hsend & Hcount).
    pose proof (length_keys_of_pairs _ (config_stocks cfg)) as Hle.
    exists r, evs. split; [exact Hsend|].
    rewrite Hcount. fold (stocks cfg) in Hle.
    change (config_stocks cfg) with (setdefault (raw_stocks c) []) in Hle.
    lia.
Qed.

(* ================================================================== *)
(** ** The further facts on sample inputs *)

(** The quote of AAA as [requests_aaa_up] answers it. *)
Definition aaa_quote : quote := mk_quote (JStr "AAA") 100 100 25.

(** A body in which the latest price is [null]. *)
Definition null_price_fields : Dict.t jvalue :=
  [("symbol", JStr "AAA"); ("latestPrice", JNull);
   ("previousClose", JNum 100); ("changePercent", JNum 0.25)].

Definition requests_null_price (symbol : string) : result response :=
  Ok (mk_response 200 (JsonObject null_price_fields)).

(** A configuration whose only stock is AAA. *)
Definition aaa_config : config :=
  mk_config "token" ["#stocks"] [("AAA", "Ay Corp")] [].

(** [!predict aaa +5%] *)
Definition predict_aaa_up_5 : predict_match :=
  mk_predict_match None "aaa" (Some "+") (Some "5") None.

(** A store in which [u1]'s prediction on AAA has a base of zero. *)
Definition zero_base_store : store := [("AAA", [("u1", on 0 5)])].

(** A configuration with six stocks and no API key. *)
Definition six_stocks : raw_config :=
  mk_raw_config None (Some ["#stocks"])
    (Some [("AAA", "Ay Corp"); ("BBB", "Bee Inc"); ("CCC", "Cee Ltd");
           ("DDD", "Dee AG"); ("EEE", "Ee SA"); ("FFF", "Eff NV")])
    None.

Definition sample_raw_config : raw_config :=
  mk_raw_config (Some (Some "token")) (Some ["#stocks"])
    (Some [("AAA", "Ay Corp"); ("BBB", "Bee Inc")]) None.

Lemma fetch_well_formed_body_witness :
  fetch_outcome sample_float_of_str requests_aaa_up "AAA" =
  Ok (Some aaa_quote).
Proof.
  unfold fetch_outcome.
  rewrite (fetch_well_formed_body sample_float_of_str requests_aaa_up "AAA"
             200
             [("symbol", JStr "AAA"); ("latestPrice", JNum 100);
              ("previousClose", JNum 100); ("changePercent", JNum 0.25)]
             (JStr "AAA") 100 100 0.25 (mk_world Dict.empty [])
             eq_refl eq_refl eq_refl eq_refl eq_refl).
  reflexivity.
Defined.

Lemma fetch_missing_any_field_witness :
  fetch_outcome sample_float_of_str requests_aaa_up "BBB" = Ok None /\
  fetch_events sample_float_of_str requests_aaa_up "BBB" =
  [Logged LogError "BBB"; Fetched "BBB" (Ok None)].
Proof.
  apply (fetch_missing_any_field sample_float_of_str requests_aaa_up "BBB"
           200 [] "symbol").
  - reflexivity.
  - intros key _. exact I.
  - left. reflexivity.
  - reflexivity.
Defined.

Lemma fetch_null_price_raises_witness :
  fetch_outcome sample_float_of_str requests_null_price "AAA" =
  Raise TypeError.
Proof.
  apply (fetch_null_price_raises sample_float_of_str requests_null_price
           "AAA" 200 null_price_fields (JStr "AAA") "latestPrice").
  - reflexivity.
  - reflexivity.
  - intros key [<-|[<-|[<-|[]]]]; exact I.
  - left. reflexivity.
  - reflexivity.
Defined.

Lemma stranger_relay_is_ignored_witness :
  check sample_float_of_str sample_strip_formatting requests_aaa_up
    sample_config sample_user "#stocks"
    (mk_check_match (Some "someone") "aaa") (mk_world sample_store []) =
  (Ok tt, mk_world sample_store []).
Proof.
  apply (proj1 (stranger_relay_is_ignored sample_float_of_str
                  sample_strip_formatting sample_strftime requests_aaa_up
                  sample_config monday_0930 sample_user "#stocks" "someone"
                  (mk_world sample_store [])
                  ltac:(discriminate) eq_refl)).
Defined.

Lemma check_answers_witness :
  check sample_float_of_str sample_strip_formatting requests_aaa_up
    sample_config sample_user "#stocks" (mk_check_match None "aaa")
    (mk_world sample_store []) =
  (Ok tt,
   mk_world sample_store
     [Fetched "AAA" (Ok (Some aaa_quote));
      SendMsg "#stocks"
        [L "Symbol: "; L bold; L "AAA"; L bold; L " | Current: ";
         Plain (Fixed2 100); L " | Daily Change: "; colorize 25]]).
Proof.
  apply (proj2 (check_answers sample_float_of_str sample_strip_formatting
                  requests_aaa_up sample_config sample_user "#stocks"
                  (mk_check_match None "aaa") (mk_world sample_store [])
                  eq_refl) aaa_quote).
  reflexivity.
Defined.

Lemma predict_handles_failed_fetch_witness :
  predict sample_float_of_str sample_strip_formatting sample_strftime
    requests_aaa_down sample_config monday_0930 sample_user "#stocks"
    predict_aaa_up_5 (mk_world sample_store []) =
  (Ok tt,
   mk_world sample_store
     [Fetched "AAA" (Raise RequestException);
      Logged LogWarning "Error trying to parse prediction";
      SendMsg "#stocks" [L "u1"; L ": I couldn't look that symbol up"]]).
Proof.
  apply (predict_handles_failed_fetch sample_float_of_str
           sample_strip_formatting sample_strftime requests_aaa_down
           sample_config monday_0930 sample_user "#stocks" predict_aaa_up_5
           (mk_world sample_store []) eq_refl eq_refl).
Defined.

Lemma parse_prediction_value_witness :
  parse_prediction sample_float_of_str sample_strip_formatting
    requests_aaa_up sample_config monday_0930 sample_user predict_aaa_up_5
    (mk_world sample_store []) =
  (Ok (Some ("u1", "AAA", 105%float, 100%float)),
   mk_world sample_store [Fetched "AAA" (Ok (Some aaa_quote))]).
Proof.
  rewrite (proj1 (parse_prediction_value sample_float_of_str
                    sample_strip_formatting requests_aaa_up sample_config
                    monday_0930 sample_user predict_aaa_up_5
                    (mk_world sample_store []) aaa_quote eq_refl eq_refl)
             "5" 5%float eq_refl ltac:(discriminate) eq_refl eq_refl eq_refl).
  reflexivity.
Defined.

Lemma predict_stores_witness :
  db (snd (predict sample_float_of_str sample_strip_formatting
             sample_strftime requests_aaa_up sample_config monday_0930
             sample_user "#stocks" predict_aaa_up_5
             (mk_world sample_store []))) =
  [("AAA", [("u1", mk_prediction "2020-01-06 09:30:00 EST" 100 105);
            ("u2", on 50 150)]);
   ("BBB", [("u3", on 40 44)])].
Proof.
  destruct (predict_stores sample_float_of_str sample_strip_formatting
              sample_strftime requests_aaa_up sample_config monday_0930
              sample_user "#stocks" predict_aaa_up_5
              (mk_world sample_store []) "u1" "AAA" 105%float 100%float
              (mk_world sample_store [Fetched "AAA" (Ok (Some aaa_quote))])
              eq_refl eq_refl)
    as (d_new & old_str & _ & _ & Hpredict).
  - intros old Hold. injection Hold as <-. reflexivity.
  - rewrite Hpredict. reflexivity.
Defined.

Lemma sample_store_ok : store_ok sample_store.
Proof.
  split.
  - repeat constructor; simpl; intuition discriminate.
  - intros symbol predictions [H|[H|[]]]; injection H as <- <-.
    + split; [discriminate|].
      repeat constructor; simpl; intuition discriminate.
    + split; [discriminate|].
      repeat constructor; simpl; intuition discriminate.
Defined.

Lemma do_predictions_completes_witness :
  fst (do_predictions sample_float_of_str requests_aaa_up sample_config
         monday_0930 (mk_world sample_store [])) = Ok tt /\
  db (snd (do_predictions sample_float_of_str requests_aaa_up sample_config
             monday_0930 (mk_world sample_store []))) =
  [("BBB", [("u3", on 40 44)])].
Proof.
  destruct (do_predictions_completes sample_float_of_str requests_aaa_up
              sample_config monday_0930 (mk_world sample_store [])
              sample_store_ok) as [Hok Hdb].
  - right. intros symbol predictions nick p [H|[H|[]]];
      injection H as <- <-.
    + intros [Hp|[Hp|[]]]; injection Hp as <- <-; reflexivity.
    + intros [Hp|[]]; injection Hp as <- <-; reflexivity.
  - split; [exact Hok|]. rewrite Hdb. reflexivity.
Defined.

(** A store in which the fetch of the first symbol fails, and the
    second submitter of the second symbol has a base of zero. *)
Definition late_zero_store : store :=
  [("BBB", [("u3", on 40 44)]);
   ("AAA", [("u1", on 100 105); ("u2", on 0 5)])].

Lemma late_zero_store_ok : store_ok late_zero_store.
Proof.
  split.
  - repeat constructor; simpl; intuition discriminate.
  - intros symbol predictions [H|[H|[]]]; injection H as <- <-.
    + split; [discriminate|].
      repeat constructor; simpl; intuition discriminate.
    + split; [discriminate|].
      repeat constructor; simpl; intuition discriminate.
Defined.

Lemma zero_base_aborts_round_witness :
  do_predictions sample_float_of_str requests_aaa_up sample_config
    monday_0930 (mk_world late_zero_store []) =
  (Raise ZeroDivisionError,
   mk_world [("BBB", [("u3", on 40 44)])]
     [Logged LogError "BBB";
      Fetched "BBB" (Ok None);
      Logged LogException "BBB";
      SendMsg "#stocks"
        [L "Error with predictions for symbol "; L "BBB"; L "."];
      Fetched "AAA" (Ok (Some aaa_quote));
      SendMsg "#stocks"
        [L "Prediction by "; L "u1"; L " for "; L bold; L "AAA"; L bold;
         L ": "; Plain (Fixed2 105); L " ("; colorize 5;
         L "). Actual value at "; L "open"; L ": "; Plain (Fixed2 100);
         L " ("; colorize 0; L "). Prediction set at ";
         L "2020-01-03 17:00:00 EST"; L "."]]).
Proof.
  rewrite (zero_base_aborts_round sample_float_of_str requests_aaa_up
             sample_config monday_0930 (mk_world late_zero_store [])
             [("BBB", [("u3", on 40 44)])] "AAA" [("u1", on 100 105)]
             "u2" (on 0 5) [] [] "#stocks" [] aaa_quote
             eq_refl late_zero_store_ok eq_refl).
  - reflexivity.
  - intros s predictions n x [H|[]]; injection H as <- <-.
    intros [Hx|[]]; injection Hx as <- <-. reflexivity.
  - intros n x [Hx|[]]; injection Hx as <- <-. reflexivity.
  - reflexivity.
  - reflexivity.
Defined.

Lemma do_predictions_all_failed_witness :
  do_predictions sample_float_of_str requests_aaa_down sample_config
    monday_0930 (mk_world zero_base_store []) =
  (Ok tt,
   mk_world zero_base_store
     [Fetched "AAA" (Raise RequestException);
      Logged LogException "AAA";
      SendMsg "#stocks"
        [L "Error with predictions for symbol "; L "AAA"; L "."]]).
Proof.
  apply (do_predictions_all_failed sample_float_of_str requests_aaa_down
           sample_config monday_0930 (mk_world zero_base_store [])).
  intros symbol [<-|[]]. reflexivity.
Defined.

Lemma send_ticker_all_failed_witness :
  send_ticker sample_float_of_str requests_aaa_down aaa_config
    (mk_world sample_store []) =
  (Ok tt,
   mk_world sample_store
     [Fetched "AAA" (Raise RequestException);
      Logged LogError "AAA";
      SendMsg "#stocks" []]).
Proof.
  apply (send_ticker_all_failed sample_float_of_str requests_aaa_down
           aaa_config (mk_world sample_store [])).
  intros symbol [<-|[]]. reflexivity.
Defined.

Lemma plugin_init_rejects_witness :
  plugin_init (Some six_stocks) monday_0930 (mk_world sample_store []) =
  (Raise KeyError, mk_world sample_store []).
Proof.
  apply (proj1 (plugin_init_rejects (Some six_stocks) monday_0930
                  (mk_world sample_store [])) eq_refl).
Defined.

Lemma constructed_plugin_fetches_at_most_five_witness :
  plugin_init (Some sample_raw_config) monday_0930 (mk_world sample_store [])
  = (Ok (sample_config, init monday_0930), mk_world sample_store []) /\
  api_key sample_config <> "" /\
  (List.length (config_stocks sample_config) <= 5)%nat /\
  init monday_0930 = mk_scheduler [mk_call 900 Pending] (Some 0%nat).
Proof.
  split; [reflexivity|].
  destruct (constructed_plugin_fetches_at_most_five
              (Some sample_raw_config) monday_0930
              (mk_world sample_store []) sample_config (init monday_0930)
              (mk_world sample_store []) eq_refl)
    as (Hkey & Hfive & Htimer & _).
  split; [exact Hkey|]. split; [exact Hfive|exact Htimer].
Defined.

(** A quote of AAA whose symbol is a list. *)
Definition list_symbol_quote : quote :=
  mk_quote (JArray [JStr "AAA"]) 100 100 25.

Definition requests_list_symbol (symbol : string) : result response :=
  Ok (mk_response 200
        (JsonObject [("symbol", JArray [JStr "AAA"]);
                     ("latestPrice", JNum 100);
                     ("previousClose", JNum 100);
                     ("changePercent", JNum 0.25)])).


Lemma send_ticker_unhashable_symbol_witness :
  send_ticker sample_float_of_str requests_list_symbol aaa_config
    (mk_world sample_store []) =
  (Raise TypeError,
   mk_world sample_store [Fetched "AAA" (Ok (Some list_symbol_quote))]).
Proof.
  apply (proj1 (send_ticker_unhashable_symbol sample_float_of_str
                  requests_list_symbol aaa_config
                  (mk_world sample_store []) "AAA" list_symbol_quote
                  (or_introl eq_refl) eq_refl eq_refl)).
Defined.
